(** * mb-io-automation: browser lifecycle, bootstrap login and page helpers

    A shallow embedding of the TypeScript sources
      - [src/config/env.ts]                (module [Env])
      - [src/utils/playwrightManager.ts]   (module [PlaywrightManager])
      - [src/config/global-setup.ts]       (module [GlobalSetup])
      - the class [BasePage], whose text follows [AboutPage] in
        [src/pages/AboutPage.ts]           (module [BasePage])
      - [src/pages/HomePage.ts]            (module [HomePage])
      - [src/hooks/hooks.ts]               (module [Hooks])

    The browser, the file system and the clock are outside the repository.
    They are an arbitrary deterministic [Platform]: every awaited call is
    an operation [op A] that the platform answers with a value or with a
    thrown exception, possibly changing its own state.  The program is
    written in a state-and-exception monad over the platform state, the
    static fields of [PlaywrightManager] and the trace of everything the
    program asked of the outside. *)

From Stdlib Require Import List NArith ZArith String Ascii Bool Lia.
From Stdlib Require Decimal DecimalN.
Import ListNotations.

Set Implicit Arguments.

(* ================================================================== *)
(** ** JavaScript strings *)
(* ================================================================== *)

(** A JavaScript string is a sequence of UTF-16 code units. *)
Definition jsstring := list N.

(** An ASCII literal as a JavaScript string. *)
Definition js (s : string) : jsstring :=
  map N_of_ascii (list_ascii_of_string s).

Arguments js : simpl never.

(** The double quote, U+0022. *)
Definition dquote : jsstring := [34%N].

Fixpoint jseqb (a b : jsstring) : bool :=
  match a, b with
  | [], [] => true
  | x :: a', y :: b' => N.eqb x y && jseqb a' b'
  | _, _ => false
  end.

(** [x || d] on [string | undefined]: the empty string and [undefined]
    are falsy. *)
Definition orDefault (x : option jsstring) (d : jsstring) : jsstring :=
  match x with
  | Some (c :: s) => c :: s
  | _ => d
  end.

(** [x === lit] on [string | undefined]. *)
Definition strictEq (x : option jsstring) (lit : jsstring) : bool :=
  match x with
  | Some s => jseqb s lit
  | None => false
  end.

(** Number to string, for the non-negative integers the program prints
    (process id, epoch milliseconds, step index). *)
Fixpoint digitsOfUint (d : Decimal.uint) : jsstring :=
  match d with
  | Decimal.Nil => []
  | Decimal.D0 d' => 48%N :: digitsOfUint d'
  | Decimal.D1 d' => 49%N :: digitsOfUint d'
  | Decimal.D2 d' => 50%N :: digitsOfUint d'
  | Decimal.D3 d' => 51%N :: digitsOfUint d'
  | Decimal.D4 d' => 52%N :: digitsOfUint d'
  | Decimal.D5 d' => 53%N :: digitsOfUint d'
  | Decimal.D6 d' => 54%N :: digitsOfUint d'
  | Decimal.D7 d' => 55%N :: digitsOfUint d'
  | Decimal.D8 d' => 56%N :: digitsOfUint d'
  | Decimal.D9 d' => 57%N :: digitsOfUint d'
  end.

Definition digitsOf (n : N) : jsstring := digitsOfUint (N.to_uint n).

(** A JavaScript number: an integer; a finite number that is not an
    integer, given by the integer next below it and by its decimal text
    [String(x)]; an infinity; or [NaN].  [-0] is the integer [0]: the
    program cannot tell the two apart. *)
Inductive number : Type :=
| Num (z : Z)
| Fraction (below : Z) (text : jsstring)
| PlusInfinity
| MinusInfinity
| NaN.

(** [String.prototype.trim]: WhiteSpace and LineTerminator code units. *)
Definition isWhiteSpace (c : N) : bool :=
  ((9 <=? c) && (c <=? 13) || (c =? 32) || (c =? 160) || (c =? 5760)
   || (8192 <=? c) && (c <=? 8202) || (c =? 8232) || (c =? 8233)
   || (c =? 8239) || (c =? 8287) || (c =? 12288) || (c =? 65279))%N.

Fixpoint trimStart (s : jsstring) : jsstring :=
  match s with
  | [] => []
  | c :: s' => if isWhiteSpace c then trimStart s' else s
  end.

Definition trimEnd (s : jsstring) : jsstring := rev (trimStart (rev s)).

Definition trim (s : jsstring) : jsstring := trimEnd (trimStart s).

(* ------------------------------------------------------------------ *)
(** *** The artifact-name sanitizer

    [s.replace(/[^a-zA-Z0-9_-]+/g, '_').replace(/_+/g, '_')
      .replace(/^_|_$/g, '')] *)

Definition underscore : N := 95%N.

(** The character class [[a-zA-Z0-9_-]]. *)
Definition isSafeChar (c : N) : bool :=
  ((97 <=? c) && (c <=? 122) || (65 <=? c) && (c <=? 90)
   || (48 <=? c) && (c <=? 57) || (c =? 95) || (c =? 45))%N.

(** [replace(/[^a-zA-Z0-9_-]+/g, '_')]: each maximal run of characters
    outside the class becomes one underscore.  [inRun] tells that the
    previous character already belonged to the current run. *)
Fixpoint replaceUnsafeRuns (inRun : bool) (s : jsstring) : jsstring :=
  match s with
  | [] => []
  | c :: s' =>
      if isSafeChar c then c :: replaceUnsafeRuns false s'
      else if inRun then replaceUnsafeRuns true s'
      else underscore :: replaceUnsafeRuns true s'
  end.

(** [replace(/_+/g, '_')]. *)
Fixpoint collapseUnderscores (inRun : bool) (s : jsstring) : jsstring :=
  match s with
  | [] => []
  | c :: s' =>
      if N.eqb c underscore
      then if inRun then collapseUnderscores true s'
           else underscore :: collapseUnderscores true s'
      else c :: collapseUnderscores false s'
  end.

(** The [_$] alternative: one underscore at the very end. *)
Fixpoint stripTrailingUnderscore (s : jsstring) : jsstring :=
  match s with
  | [] => []
  | [c] => if N.eqb c underscore then [] else [c]
  | c :: s' => c :: stripTrailingUnderscore s'
  end.

(** [replace(/^_|_$/g, '')]: the leading underscore is consumed first, so
    a string that is a single underscore loses it once. *)
Definition stripEdgeUnderscores (s : jsstring) : jsstring :=
  match s with
  | [] => []
  | c :: s' =>
      if N.eqb c underscore then stripTrailingUnderscore s'
      else stripTrailingUnderscore s
  end.

Definition sanitize (s : jsstring) : jsstring :=
  stripEdgeUnderscores (collapseUnderscores false (replaceUnsafeRuns false s)).

(* ================================================================== *)
(** ** Exceptions, handles, operations *)
(* ================================================================== *)

(** A thrown value: an [Error] with its message. *)
Inductive exn : Type :=
| JsError (message : jsstring).

Inductive result (A : Type) : Type :=
| Ok (a : A)
| Throw (e : exn).
Arguments Ok {A} a.
Arguments Throw {A} e.

Definition isOk {A} (r : result A) : bool :=
  match r with Ok _ => true | Throw _ => false end.

(** Playwright objects are opaque; only their identity matters. *)
Inductive Browser : Type := BrowserObj (id : N).
Inductive BrowserContext : Type := ContextObj (id : N).
Inductive Page : Type := PageObj (id : N).
Inductive Buffer : Type := BufferObj (id : N).

(** [page.locator(selector)] and [locator.first()] build lazy
    descriptions and never touch the page. *)
Inductive Locator : Type :=
| locator (selector : jsstring)
| first (l : Locator).

Inductive Engine : Type := firefox | webkit | chromium.

Record LaunchOptions : Type := {
  lo_headless : bool;
  lo_slowMo : option number
}.

(** The options object handed to [browser.newContext]. *)
Record ContextOptions : Type := {
  co_viewport : N * N;
  co_ignoreHTTPSErrors : bool;
  co_acceptDownloads : option bool;
  co_storageState : option jsstring;
  co_recordVideo : option (jsstring * (N * N))
}.

Inductive LoadState : Type := load | domcontentloaded | networkidle.

(** Every call that leaves the repository and may reject or throw. *)
Inductive op : Type -> Type :=
| Launch (e : Engine) (o : LaunchOptions) : op Browser
| NewContext (b : Browser) (o : ContextOptions) : op BrowserContext
| SetDefaultTimeout (c : BrowserContext) (t : number) : op unit
| SetDefaultNavigationTimeout (c : BrowserContext) (t : number) : op unit
| TracingStart (c : BrowserContext) : op unit
| TracingStop (c : BrowserContext) (path : jsstring) : op unit
| StorageState (c : BrowserContext) (path : jsstring) : op unit
| NewPage (c : BrowserContext) : op Page
| PageClose (p : Page) : op unit
| ContextClose (c : BrowserContext) : op unit
| BrowserClose (b : Browser) : op unit
| Screenshot (p : Page) : op Buffer
| Goto (p : Page) (url : jsstring) (w : LoadState) (timeout : N) : op unit
| WaitForTimeout (p : Page) (ms : N) : op unit
| WaitForLoadState (p : Page) (w : LoadState) : op unit
| ScrollToBottom (p : Page) : op unit
| IsVisible (p : Page) (l : Locator) (timeout : option N) : op bool
| IsEnabled (p : Page) (l : Locator) : op bool
| Click (p : Page) (l : Locator) : op unit
| Fill (p : Page) (l : Locator) (text : jsstring) : op unit
| AllTextContents (p : Page) (l : Locator) : op (list jsstring)
| MkdirSync (path : jsstring) : op unit
| WriteFileSync (path : jsstring) (data : Buffer) : op unit
| Attach (data : Buffer) (mediaType : jsstring) : op unit.

Inductive LogLevel : Type := Info | Warn | Error | Debug.

(** What the program did to the outside, oldest first. *)
Inductive event : Type :=
| Call (A : Type) (o : op A) (r : result A)
| Log (lvl : LogLevel) (msg : jsstring) (detail : option exn).
Arguments Call {A} o r.

(** [process.env], the variables [env.ts] and [global-setup.ts] read. *)
Record ProcessEnv : Type := {
  env_BASE_URL : option jsstring;
  env_TRADE_URL : option jsstring;
  env_BROWSER : option jsstring;
  env_HEADLESS : option jsstring;
  env_SLOW_MO : option jsstring;
  env_DEFAULT_TIMEOUT : option jsstring;
  env_NAVIGATION_TIMEOUT : option jsstring;
  env_EXPECT_TIMEOUT : option jsstring;
  env_LOGIN_EMAIL : option jsstring;
  env_LOGIN_PASSWORD : option jsstring;
  env_STORAGE_STATE_PATH : option jsstring;
  env_SCREENSHOT_ON_FAILURE : option jsstring;
  env_SCREENSHOT_EACH_STEP : option jsstring;
  env_VIDEO_ON_FAILURE : option jsstring;
  env_TRACE_ON_FAILURE : option jsstring;
  env_RETRY_COUNT : option jsstring
}.

(** The host: Node built-ins, the process, and whatever answers the
    operations.  [existsSync] and [Date.now] never throw. *)
Class Platform : Type := {
  World : Type;
  perform : forall A : Type, op A -> World -> result A * World;
  existsSync : jsstring -> World -> bool;
  dateNow : World -> N;
  process_env : ProcessEnv;
  process_pid : N;
  (** [path.resolve(process.cwd(), p)] *)
  pathResolveCwd : jsstring -> jsstring;
  pathDirname : jsstring -> jsstring;
  toLowerCase : jsstring -> jsstring;
  (** [parseInt(s, 10)] *)
  parseInt10 : jsstring -> number
}.

(** [path.join(dir, file)] for a relative [dir] and a single segment
    [file] without dots or separators to normalise (POSIX separator). *)
Definition pathJoin (dir file : jsstring) : jsstring :=
  dir ++ js "/" ++ file.

(* ================================================================== *)
(** ** The program monad *)
(* ================================================================== *)

(** The static fields of [PlaywrightManager]. *)
Record Manager : Type := {
  browser : option Browser;
  context : option BrowserContext;
  page : option Page
}.

Section Monad.
Context {pf : Platform}.

Record State : Type := {
  mgr : Manager;
  world : World;
  trace : list event
}.

(** An [async] function body: it runs from a state, ends in a state, and
    either returns or throws. *)
Definition M (A : Type) : Type := State -> result A * State.

Definition ret {A} (a : A) : M A := fun s => (Ok a, s).

Definition throw {A} (e : exn) : M A := fun s => (Throw e, s).

Definition bind {A B} (m : M A) (k : A -> M B) : M B :=
  fun s =>
    match m s with
    | (Ok a, s') => k a s'
    | (Throw e, s') => (Throw e, s')
    end.

(** [try { m } catch (e) { h e }] *)
Definition tryCatch {A} (m : M A) (h : exn -> M A) : M A :=
  fun s =>
    match m s with
    | (Ok a, s') => (Ok a, s')
    | (Throw e, s') => h e s'
    end.

(** [try { m } finally { f }]: [f] always runs; when it throws, its
    exception replaces the outcome of [m]. *)
Definition tryFinally {A} (m : M A) (f : M unit) : M A :=
  fun s =>
    match m s with
    | (r, s') =>
        match f s' with
        | (Ok _, s'') => (r, s'')
        | (Throw e, s'') => (Throw e, s'')
        end
    end.

(** An awaited call into the platform, recorded with its outcome. *)
Definition call {A} (o : op A) : M A :=
  fun s =>
    match perform o (world s) with
    | (r, w') =>
        (r, {| mgr := mgr s; world := w'; trace := trace s ++ [Call o r] |})
    end.

(** [logger.*] and [console.*] are sinks. *)
Definition log (lvl : LogLevel) (msg : jsstring) (detail : option exn)
  : M unit :=
  fun s =>
    (Ok tt, {| mgr := mgr s; world := world s;
               trace := trace s ++ [Log lvl msg detail] |}).

Definition fsExistsSync (path : jsstring) : M bool :=
  fun s => (Ok (existsSync path (world s)), s).

Definition now : M N := fun s => (Ok (dateNow (world s)), s).

Definition getMgr : M Manager := fun s => (Ok (mgr s), s).

Definition setMgr (m : Manager) : M unit :=
  fun s => (Ok tt, {| mgr := m; world := world s; trace := trace s |}).

Definition setBrowser (b : option Browser) : M unit :=
  fun s => setMgr {| browser := b; context := context (mgr s);
                     page := page (mgr s) |} s.

Definition setContext (c : option BrowserContext) : M unit :=
  fun s => setMgr {| browser := browser (mgr s); context := c;
                     page := page (mgr s) |} s.

Definition setPage (p : option Page) : M unit :=
  fun s => setMgr {| browser := browser (mgr s);
                     context := context (mgr s); page := p |} s.

End Monad.

Arguments State {pf}.
Arguments M {pf} A.

Declare Scope prog_scope.
Delimit Scope prog_scope with prog.
Notation "x <- m ;; k" := (bind m (fun x => k))
  (at level 61, m at next level, right associativity) : prog_scope.
Notation "m ;; k" := (bind m (fun _ => k))
  (at level 61, right associativity) : prog_scope.
Local Open Scope prog_scope.

(* ================================================================== *)
(** ** src/config/env.ts *)
(* ================================================================== *)

Module Env.

Record ENVt : Type := {
  BASE_URL : jsstring;
  TRADE_URL : jsstring;
  BROWSER : jsstring;
  HEADLESS : bool;
  SLOW_MO : number;
  DEFAULT_TIMEOUT : number;
  NAVIGATION_TIMEOUT : number;
  EXPECT_TIMEOUT : number;
  LOGIN_EMAIL : jsstring;
  LOGIN_PASSWORD : jsstring;
  STORAGE_STATE_PATH : jsstring;
  SCREENSHOT_ON_FAILURE : bool;
  SCREENSHOT_EACH_STEP : bool;
  VIDEO_ON_FAILURE : bool;
  TRACE_ON_FAILURE : bool;
  RETRY_COUNT : number
}.

Definition ENV {pf : Platform} : ENVt :=
  {| BASE_URL := orDefault (env_BASE_URL process_env) (js "https://mb.io/");
     TRADE_URL :=
       orDefault (env_TRADE_URL process_env) (js "https://trade.mb.io/");
     BROWSER := orDefault (env_BROWSER process_env) (js "chromium");
     HEADLESS := strictEq (env_HEADLESS process_env) (js "true");
     SLOW_MO := parseInt10 (orDefault (env_SLOW_MO process_env) (js "0"));
     DEFAULT_TIMEOUT :=
       parseInt10 (orDefault (env_DEFAULT_TIMEOUT process_env) (js "30000"));
     NAVIGATION_TIMEOUT :=
       parseInt10
         (orDefault (env_NAVIGATION_TIMEOUT process_env) (js "60000"));
     EXPECT_TIMEOUT :=
       parseInt10 (orDefault (env_EXPECT_TIMEOUT process_env) (js "10000"));
     LOGIN_EMAIL := orDefault (env_LOGIN_EMAIL process_env) [];
     LOGIN_PASSWORD := orDefault (env_LOGIN_PASSWORD process_env) [];
     STORAGE_STATE_PATH :=
       orDefault (env_STORAGE_STATE_PATH process_env)
                 (js "storage/auth.json");
     SCREENSHOT_ON_FAILURE :=
       strictEq (env_SCREENSHOT_ON_FAILURE process_env) (js "true");
     SCREENSHOT_EACH_STEP :=
       negb (strictEq (env_SCREENSHOT_EACH_STEP process_env) (js "false"));
     VIDEO_ON_FAILURE :=
       strictEq (env_VIDEO_ON_FAILURE process_env) (js "true");
     TRACE_ON_FAILURE :=
       strictEq (env_TRACE_ON_FAILURE process_env) (js "true");
     RETRY_COUNT :=
       parseInt10 (orDefault (env_RETRY_COUNT process_env) (js "2")) |}.

Arguments ENV : simpl never.

End Env.

(* ================================================================== *)
(** ** src/utils/playwrightManager.ts *)
(* ================================================================== *)

Module PlaywrightManager.
Import Env.

Section Manager.
Context {pf : Platform}.

(** The [switch] on the lower-cased engine name; ['chromium'] shares the
    [default] branch. *)
Definition engineOf (browserType : jsstring) : Engine :=
  if jseqb browserType (js "firefox") then firefox
  else if jseqb browserType (js "webkit") then webkit
  else chromium.

Definition launchBrowser : M Browser :=
  m <- getMgr ;;
  match browser m with
  | Some b => ret b
  | None =>
      let launchOptions :=
        {| lo_headless := HEADLESS ENV; lo_slowMo := Some (SLOW_MO ENV) |} in
      let browserType := toLowerCase (BROWSER ENV) in
      log Info (js "Launching browser: " ++ browserType) None ;;
      b <- call (Launch (engineOf browserType) launchOptions) ;;
      setBrowser (Some b) ;;
      ret b
  end.

(** [this.browser!] / [this.context!]: dereferencing [null] is a
    [TypeError]. *)
Definition nonNull {A} (x : option A) : M A :=
  match x with
  | Some a => ret a
  | None =>
      throw (JsError (js "TypeError: Cannot read properties of null"))
  end.

Definition emDash : jsstring := [8212%N].

Definition createContext : M BrowserContext :=
  m <- getMgr ;;
  match browser m with
  | None => _ <- launchBrowser ;; ret tt
  | Some _ => ret tt
  end ;;
  let storagePath := pathResolveCwd (STORAGE_STATE_PATH ENV) in
  found <- fsExistsSync storagePath ;;
  (if found
   then log Info (js "Using stored authentication state") None
   else log Warn (js "No storage state found " ++ emDash
                  ++ js " proceeding without authentication") None) ;;
  let contextOptions :=
    {| co_viewport := (1920%N, 1080%N);
       co_ignoreHTTPSErrors := true;
       co_acceptDownloads := Some true;
       co_storageState := if found then Some storagePath else None;
       co_recordVideo :=
         if VIDEO_ON_FAILURE ENV
         then Some (js "test-results/videos/", (1920%N, 1080%N))
         else None |} in
  m' <- getMgr ;;
  b <- nonNull (browser m') ;;
  c <- call (NewContext b contextOptions) ;;
  setContext (Some c) ;;
  call (SetDefaultTimeout c (DEFAULT_TIMEOUT ENV)) ;;
  call (SetDefaultNavigationTimeout c (NAVIGATION_TIMEOUT ENV)) ;;
  (if TRACE_ON_FAILURE ENV then call (TracingStart c) else ret tt) ;;
  ret c.

Definition createPage : M Page :=
  m <- getMgr ;;
  match context m with
  | None => _ <- createContext ;; ret tt
  | Some _ => ret tt
  end ;;
  m' <- getMgr ;;
  c <- nonNull (context m') ;;
  p <- call (NewPage c) ;;
  setPage (Some p) ;;
  log Info (js "New page created") None ;;
  ret p.

Definition getPage : M Page :=
  m <- getMgr ;;
  match page m with
  | None =>
      throw (JsError
        (js "Page has not been initialized. Call createPage() first."))
  | Some p => ret p
  end.

Definition getContext : M BrowserContext :=
  m <- getMgr ;;
  match context m with
  | None =>
      throw (JsError
        (js "Context has not been initialized. Call createContext() first."))
  | Some c => ret c
  end.

Definition getBrowser : M Browser :=
  m <- getMgr ;;
  match browser m with
  | None =>
      throw (JsError
        (js "Browser has not been initialized. Call launchBrowser() first."))
  | Some b => ret b
  end.

(** [if (name)]: a missing and an empty name are both falsy. *)
Definition takeScreenshot (name : option jsstring) : M Buffer :=
  m <- getMgr ;;
  match page m with
  | None => throw (JsError (js "Page is not available for screenshot"))
  | Some p =>
      screenshotBuffer <- call (Screenshot p) ;;
      match name with
      | Some (c :: n) =>
          let screenshotDir := js "test-results/screenshots" in
          found <- fsExistsSync screenshotDir ;;
          (if found then ret tt else call (MkdirSync screenshotDir)) ;;
          call (WriteFileSync
                  (pathJoin screenshotDir ((c :: n) ++ js ".png"))
                  screenshotBuffer)
      | _ => ret tt
      end ;;
      ret screenshotBuffer
  end.

(** The template [`${safeScenarioName || 'scenario'}_${pid}_${now}.zip`]. *)
Definition traceFileName (scenarioName : jsstring) (pid t : N) : jsstring :=
  orDefault (Some (sanitize scenarioName)) (js "scenario")
  ++ js "_" ++ digitsOf pid ++ js "_" ++ digitsOf t ++ js ".zip".

Definition tracePathOf (scenarioName : jsstring) (pid t : N) : jsstring :=
  pathJoin (js "test-results/traces") (traceFileName scenarioName pid t).

Definition saveTrace (scenarioName : jsstring) : M (option jsstring) :=
  m <- getMgr ;;
  match context m with
  | None => ret None
  | Some c =>
      if negb (TRACE_ON_FAILURE ENV) then ret None
      else
        let traceDir := js "test-results/traces" in
        found <- fsExistsSync traceDir ;;
        (if found then ret tt else call (MkdirSync traceDir)) ;;
        t <- now ;;
        let tracePath := tracePathOf scenarioName process_pid t in
        call (TracingStop c tracePath) ;;
        log Info (js "Trace saved: " ++ tracePath) None ;;
        ret (Some tracePath)
  end.

Definition closePage : M unit :=
  m <- getMgr ;;
  match page m with
  | Some p =>
      call (PageClose p) ;;
      setPage None ;;
      log Info (js "Page closed") None
  | None => ret tt
  end.

Definition closeContext : M unit :=
  m <- getMgr ;;
  match context m with
  | Some c =>
      call (ContextClose c) ;;
      setContext None ;;
      log Info (js "Context closed") None
  | None => ret tt
  end.

Definition closeBrowser : M unit :=
  closePage ;;
  closeContext ;;
  m <- getMgr ;;
  match browser m with
  | Some b =>
      call (BrowserClose b) ;;
      setBrowser None ;;
      log Info (js "Browser closed") None
  | None => ret tt
  end.

Definition cleanup : M unit := closeBrowser.

End Manager.
End PlaywrightManager.

(* ================================================================== *)
(** ** src/config/global-setup.ts *)
(* ================================================================== *)

Module GlobalSetup.

(** A selector with one quoted part, such as [input[type="email"]]. *)
Definition quoted (pre mid post : string) : jsstring :=
  js pre ++ dquote ++ js mid ++ dquote ++ js post.

Definition loginSelectors : list jsstring :=
  [ quoted "a:has-text(" "Login" ")";
    quoted "a:has-text(" "Sign In" ")";
    quoted "a:has-text(" "Log In" ")";
    quoted "button:has-text(" "Login" ")";
    quoted "button:has-text(" "Sign In" ")";
    quoted "[class*=" "login" "]";
    quoted "[class*=" "sign-in" "]";
    quoted "[href*=" "login" "]";
    quoted "[href*=" "signin" "]" ].

Definition emailSelectors : list jsstring :=
  [ quoted "input[type=" "email" "]";
    quoted "input[name=" "email" "]";
    quoted "input[placeholder*=" "email" " i]";
    quoted "input[placeholder*=" "Email" " i]";
    quoted "input[name=" "username" "]";
    quoted "input[type=" "text" "]" ].

Definition passwordSelectors : list jsstring :=
  [ quoted "input[type=" "password" "]";
    quoted "input[name=" "password" "]";
    quoted "input[placeholder*=" "password" " i]" ].

Definition submitSelectors : list jsstring :=
  [ quoted "button[type=" "submit" "]";
    quoted "button:has-text(" "Login" ")";
    quoted "button:has-text(" "Sign In" ")";
    quoted "button:has-text(" "Log In" ")";
    quoted "button:has-text(" "Submit" ")";
    quoted "input[type=" "submit" "]" ].

(** U+1F510 (as a surrogate pair), U+2705, U+274C, U+26A0 U+FE0F. *)
Definition lockEmoji : jsstring := [55357%N; 56592%N].
Definition checkEmoji : jsstring := [9989%N].
Definition crossEmoji : jsstring := [10060%N].
Definition warnEmoji : jsstring := [9888%N; 65039%N].

(** What a fallback loop does with the element it settles on:
    [element.click()] or [element.fill(text)]. *)
Inductive Action : Type :=
| click
| fill (text : jsstring).

Definition actionOp (p : Page) (a : Action) (l : Locator) : op unit :=
  match a with
  | click => Click p l
  | fill text => Fill p l text
  end.

Section Setup.
Context {pf : Platform}.

(** The fallback loop that [globalSetup] writes out four times:
<<
    for (const selector of selectors) {
      try {
        const element = page.locator(selector).first();
        if (await element.isVisible({ timeout: 3000 })) {
          await action(element);  console.log(label + selector);  break;
        }
      } catch { /* Try next selector */ }
    }
>>
    The result tells whether the loop left through [break] (the
    [loginClicked] flag of the first loop). *)
Fixpoint trySelectors (p : Page) (action : Action)
    (label : jsstring) (selectors : list jsstring) : M bool :=
  match selectors with
  | [] => ret false
  | selector :: rest =>
      broke <-
        tryCatch
          (let element := first (locator selector) in
           visible <- call (IsVisible p element (Some 3000%N)) ;;
           if visible
           then call (actionOp p action element) ;;
                log Info (label ++ selector) None ;;
                ret true
           else ret false)
          (fun _ => ret false) ;;
      if broke then ret true else trySelectors p action label rest
  end.

(** The body of the [try] block. *)
Definition loginFlow (c : BrowserContext) (p : Page)
    (baseUrl email password storagePath : jsstring) : M unit :=
  call (Goto p baseUrl domcontentloaded 60000%N) ;;
  loginClicked <-
    trySelectors p click (js "   Clicked login element: ")
                 loginSelectors ;;
  (if loginClicked then ret tt
   else log Info (js "   No login button found "
                  ++ PlaywrightManager.emDash
                  ++ js " page may already be authenticated or uses different flow")
            None) ;;
  call (WaitForTimeout p 3000%N) ;;
  _ <- trySelectors p (fill email)
         (js "   Filled email using: ") emailSelectors ;;
  _ <- trySelectors p (fill password)
         (js "   Filled password using: ") passwordSelectors ;;
  _ <- trySelectors p click (js "   Clicked submit: ")
         submitSelectors ;;
  call (WaitForTimeout p 5000%N) ;;
  call (WaitForLoadState p domcontentloaded) ;;
  call (StorageState c storagePath) ;;
  log Info (checkEmoji ++ js " Storage state saved to: " ++ storagePath)
      None.

(** The [catch (error)] block. *)
Definition onFlowError (c : BrowserContext) (storagePath : jsstring)
    (error : exn) : M unit :=
  log Error (crossEmoji ++ js " Global setup failed:") (Some error) ;;
  tryCatch
    (call (StorageState c storagePath) ;;
     log Info (warnEmoji ++ js "  Partial storage state saved to: "
               ++ storagePath) None)
    (fun saveError =>
       log Error (js "Failed to save storage state:") (Some saveError)).

(** The [finally] block. *)
Definition releaseBrowser (b : Browser) : M unit :=
  call (BrowserClose b) ;;
  log Info (lockEmoji ++ js " Global setup completed") None.

(** [try { ... } catch (error) { ... } finally { ... }] *)
Definition guardedFlow (b : Browser) (c : BrowserContext) (p : Page)
    (baseUrl email password storagePath : jsstring) : M unit :=
  tryFinally
    (tryCatch (loginFlow c p baseUrl email password storagePath)
              (onFlowError c storagePath))
    (releaseBrowser b).

Definition globalSetup : M unit :=
  let baseUrl :=
    orDefault (env_BASE_URL process_env)
              (js "https://trade.multibank.io/") in
  let email := orDefault (env_LOGIN_EMAIL process_env) [] in
  let password := orDefault (env_LOGIN_PASSWORD process_env) [] in
  let storagePath :=
    pathResolveCwd
      (orDefault (env_STORAGE_STATE_PATH process_env)
                 (js "storage/auth.json")) in
  let storageDir := pathDirname storagePath in
  found <- fsExistsSync storageDir ;;
  (if found then ret tt else call (MkdirSync storageDir)) ;;
  log Info (lockEmoji ++ js " Starting global setup "
            ++ PlaywrightManager.emDash ++ js " performing login...")
      None ;;
  log Info (js "   Base URL: " ++ baseUrl) None ;;
  log Info (js "   Email: " ++ email) None ;;
  b <- call (Launch chromium
               {| lo_headless := true; lo_slowMo := None |}) ;;
  c <- call (NewContext b
               {| co_viewport := (1920%N, 1080%N);
                  co_ignoreHTTPSErrors := true;
                  co_acceptDownloads := None;
                  co_storageState := None;
                  co_recordVideo := None |}) ;;
  p <- call (NewPage c) ;;
  guardedFlow b c p baseUrl email password storagePath.

End Setup.
End GlobalSetup.

(* ================================================================== *)
(** ** src/pages/BasePage.ts and src/pages/HomePage.ts *)
(* ================================================================== *)

Module BasePage.
Section BasePage.
Context {pf : Platform}.

(** [this.page] of the page object. *)
Variable page : Page.

Definition isVisible (l : Locator) : M bool :=
  tryCatch (call (IsVisible page l None)) (fun _ => ret false).

Definition isEnabled (l : Locator) : M bool :=
  tryCatch (call (IsEnabled page l)) (fun _ => ret false).

Definition scrollToBottom : M unit := call (ScrollToBottom page).

Definition getAllTexts (l : Locator) : M (list jsstring) :=
  texts <- call (AllTextContents page l) ;;
  ret (filter (fun t => (0 <? List.length t)%nat) (map trim texts)).

End BasePage.
End BasePage.

Module HomePage.
Section HomePage.
Context {pf : Platform}.
Variable page : Page.

Definition footerLinks : Locator := locator (js "footer a").

Definition getFooterLinkTexts : M (list jsstring) :=
  BasePage.scrollToBottom page ;;
  BasePage.getAllTexts page footerLinks.

End HomePage.
End HomePage.

(* ================================================================== *)
(** ** src/hooks/hooks.ts *)
(* ================================================================== *)

Module Hooks.
Import Env.

Record HookWorldContext : Type := {
  _scenarioName : option jsstring;
  _stepIndex : option N
}.

Section Hooks.
Context {pf : Platform}.

(** The two fields of the world are assigned before the browser is
    touched; a [Before] that throws aborts the scenario, and no step or
    [AfterStep] of it runs. *)
Definition Before (world : HookWorldContext) (pickleName : jsstring)
  : M HookWorldContext :=
  log Info (js "--- Scenario: " ++ pickleName ++ js " ---") None ;;
  let world' :=
    {| _scenarioName := Some pickleName; _stepIndex := Some 0%N |} in
  _ <- PlaywrightManager.launchBrowser ;;
  _ <- PlaywrightManager.createContext ;;
  _ <- PlaywrightManager.createPage ;;
  ret world'.

(** [(world._stepIndex || 0) + 1] *)
Definition nextStepIndex (world : HookWorldContext) : N :=
  match _stepIndex world with
  | Some n => n + 1
  | None => 1
  end%N.

Definition stepScreenshotName (world : HookWorldContext)
    (stepText status : option jsstring) : jsstring :=
  let stepIndex := nextStepIndex world in
  let scenarioName := orDefault (_scenarioName world) (js "scenario") in
  let stepName := orDefault stepText (js "step_" ++ digitsOf stepIndex) in
  let status' := orDefault status (js "UNKNOWN") in
  sanitize (scenarioName ++ js "_" ++ digitsOf stepIndex ++ js "_"
            ++ status' ++ js "_" ++ stepName).

(** [stepText] is [pickleStep?.text], [status] is [result?.status].  The
    assignment to [world._stepIndex] is the second statement of the [try]
    block and nothing before it can throw. *)
Definition AfterStep (world : HookWorldContext)
    (stepText status : option jsstring) : M HookWorldContext :=
  if negb (SCREENSHOT_EACH_STEP ENV) then ret world
  else
    let stepIndex := nextStepIndex world in
    let world' :=
      {| _scenarioName := _scenarioName world;
         _stepIndex := Some stepIndex |} in
    let stepName := orDefault stepText (js "step_" ++ digitsOf stepIndex) in
    tryCatch
      (screenshot <-
         PlaywrightManager.takeScreenshot
           (Some (stepScreenshotName world stepText status)) ;;
       call (Attach screenshot (js "image/png")) ;;
       log Info (js "Step screenshot attached: " ++ digitsOf stepIndex
                 ++ js " - " ++ stepName) None)
      (fun error =>
         log Warn (js "Failed to capture step screenshot: ") (Some error)) ;;
    ret world'.

End Hooks.
End Hooks.

(* ================================================================== *)
(** ** Reading a trace *)
(* ================================================================== *)

(** The locator of a visibility probe, when the event is one. *)
Definition probeOf (ev : event) : option Locator :=
  match ev with
  | Call o _ =>
      match o with
      | IsVisible _ l _ => Some l
      | _ => None
      end
  | Log _ _ _ => None
  end.

(** The locators probed for visibility, in the order they were probed. *)
Fixpoint probed (t : list event) : list Locator :=
  match t with
  | [] => []
  | ev :: t' =>
      match probeOf ev with
      | Some l => l :: probed t'
      | None => probed t'
      end
  end.

Definition isBrowserClose (ev : event) : bool :=
  match ev with
  | Call o _ => match o with BrowserClose _ => true | _ => false end
  | Log _ _ _ => false
  end.

Definition isScreenshot (ev : event) : bool :=
  match ev with
  | Call o _ => match o with Screenshot _ => true | _ => false end
  | Log _ _ _ => false
  end.

Definition isLaunch (ev : event) : bool :=
  match ev with
  | Call o _ => match o with Launch _ _ => true | _ => false end
  | Log _ _ _ => false
  end.

Definition countOf (f : event -> bool) (t : list event) : nat :=
  List.length (filter f t).







(** The element a selector stands for in the fallback loops. *)
Definition candidate (selector : jsstring) : Locator :=
  first (locator selector).

(* ================================================================== *)
(** ** Sequences of teardown calls *)
(* ================================================================== *)

Inductive Teardown : Type :=
| CallClosePage
| CallCloseContext
| CallCloseBrowser
| CallCleanup.

Section TeardownRuns.
Context {pf : Platform}.

Definition teardown (t : Teardown) : M unit :=
  match t with
  | CallClosePage => PlaywrightManager.closePage
  | CallCloseContext => PlaywrightManager.closeContext
  | CallCloseBrowser => PlaywrightManager.closeBrowser
  | CallCleanup => PlaywrightManager.cleanup
  end.

(** [await t1(); await t2(); ...] *)
Fixpoint teardowns (ts : list Teardown) : M unit :=
  match ts with
  | [] => ret tt
  | t :: ts' => teardown t ;; teardowns ts'
  end.

End TeardownRuns.

(** The handles a teardown call is responsible for are all null. *)
Definition released (t : Teardown) (m : Manager) : Prop :=
  match t with
  | CallClosePage => page m = None
  | CallCloseContext => context m = None
  | CallCloseBrowser | CallCleanup =>
      page m = None /\ context m = None /\ browser m = None
  end.

(* ================================================================== *)
(** ** Concrete platforms

    Small deterministic hosts on which the program can be run.  The
    state of the host is a counter: it numbers the objects it hands out
    and advances the clock. *)
(* ================================================================== *)

Module Sim.

Fixpoint locEqb (a b : Locator) : bool :=
  match a, b with
  | locator x, locator y => jseqb x y
  | first a', first b' => locEqb a' b'
  | _, _ => false
  end.

Definition lowerAscii (c : N) : N :=
  if ((65 <=? c) && (c <=? 90))%N then (c + 32)%N else c.

Definition noEnv : ProcessEnv :=
  {| env_BASE_URL := None; env_TRADE_URL := None; env_BROWSER := None;
     env_HEADLESS := None; env_SLOW_MO := None;
     env_DEFAULT_TIMEOUT := None; env_NAVIGATION_TIMEOUT := None;
     env_EXPECT_TIMEOUT := None; env_LOGIN_EMAIL := None;
     env_LOGIN_PASSWORD := None; env_STORAGE_STATE_PATH := None;
     env_SCREENSHOT_ON_FAILURE := None; env_SCREENSHOT_EACH_STEP := None;
     env_VIDEO_ON_FAILURE := None; env_TRACE_ON_FAILURE := None;
     env_RETRY_COUNT := None |}.

(** Only [TRACE_ON_FAILURE=true] and [BROWSER=Firefox] are set. *)
Definition tracingEnv : ProcessEnv :=
  {| env_BASE_URL := None; env_TRADE_URL := None;
     env_BROWSER := Some (js "Firefox");
     env_HEADLESS := None; env_SLOW_MO := None;
     env_DEFAULT_TIMEOUT := None; env_NAVIGATION_TIMEOUT := None;
     env_EXPECT_TIMEOUT := None; env_LOGIN_EMAIL := None;
     env_LOGIN_PASSWORD := None; env_STORAGE_STATE_PATH := None;
     env_SCREENSHOT_ON_FAILURE := None; env_SCREENSHOT_EACH_STEP := None;
     env_VIDEO_ON_FAILURE := None; env_TRACE_ON_FAILURE := Some (js "true");
     env_RETRY_COUNT := None |}.

(** What the host answers when the call succeeds. *)
Definition answer (visible : Locator -> bool) (texts : list jsstring)
    (A : Type) (o : op A) (w : N) : A :=
  match o in op T return T with
  | Launch _ _ => BrowserObj w
  | NewContext _ _ => ContextObj w
  | NewPage _ => PageObj w
  | Screenshot _ => BufferObj w
  | IsVisible _ l _ => visible l
  | IsEnabled _ _ => true
  | AllTextContents _ _ => texts
  | SetDefaultTimeout _ _ => tt
  | SetDefaultNavigationTimeout _ _ => tt
  | TracingStart _ => tt
  | TracingStop _ _ => tt
  | StorageState _ _ => tt
  | PageClose _ => tt
  | ContextClose _ => tt
  | BrowserClose _ => tt
  | Goto _ _ _ _ => tt
  | WaitForTimeout _ _ => tt
  | WaitForLoadState _ _ => tt
  | ScrollToBottom _ => tt
  | Click _ _ => tt
  | Fill _ _ _ => tt
  | MkdirSync _ => tt
  | WriteFileSync _ _ => tt
  | Attach _ _ => tt
  end.

Definition boom : exn := JsError (js "boom").

(** A host with the given environment, failing calls, visible elements,
    anchor texts and existing files. *)
Definition host (penv : ProcessEnv) (fails : forall A : Type, op A -> bool)
    (visible : Locator -> bool) (texts : list jsstring)
    (files : jsstring -> bool) : Platform :=
  {| World := N;
     perform := fun A o w =>
       if fails A o then (Throw boom, N.succ w)
       else (Ok (answer visible texts o w), N.succ w);
     existsSync := fun p _ => files p;
     dateNow := fun w => (1700000000000 + w)%N;
     process_env := penv;
     process_pid := 4242%N;
     pathResolveCwd := fun p => js "/work/" ++ p;
     pathDirname := fun _ => js "/work/storage";
     toLowerCase := map lowerAscii;
     parseInt10 := fun _ => NaN |}.

Definition never (A : Type) (o : op A) : bool := false.

Definition failPageClose (A : Type) (o : op A) : bool :=
  match o with PageClose _ => true | _ => false end.

Definition failGoto (A : Type) (o : op A) : bool :=
  match o with Goto _ _ _ _ => true | _ => false end.

(** Clicking the element of selector [a] throws. *)
Definition failClickA (A : Type) (o : op A) : bool :=
  match o with
  | Click _ l => locEqb l (candidate (js "a"))
  | _ => false
  end.

Definition failNewContext (A : Type) (o : op A) : bool :=
  match o with NewContext _ _ => true | _ => false end.

Definition nothing (l : Locator) : bool := false.
Definition everything (l : Locator) : bool := true.

(** Only the element of selector [c] is visible. *)
Definition onlyC (l : Locator) : bool := locEqb l (candidate (js "c")).

Definition noFiles (p : jsstring) : bool := false.

(** A well-behaved host with nothing on the page and no files. *)
Definition quiet : Platform := host noEnv never nothing [] noFiles.

(** The same with tracing switched on and Firefox configured. *)
Definition tracing : Platform := host tracingEnv never nothing [] noFiles.

(** A host whose [page.close()] rejects. *)
Definition stuckPage : Platform :=
  host noEnv failPageClose nothing [] noFiles.

(** A host whose navigation rejects. *)
Definition offline : Platform := host noEnv failGoto nothing [] noFiles.

(** A host on which [browser.newContext()] rejects. *)
Definition noContext : Platform :=
  host noEnv failNewContext nothing [] noFiles.

(** Every element is visible, but clicking the first candidate throws. *)
Definition coveredLink : Platform :=
  host noEnv failClickA everything [] noFiles.

(** Only the third of the candidates [a], [b], [c], [d] is visible. *)
Definition thirdOnly : Platform := host noEnv never onlyC [] noFiles.

(** Five footer anchors, the second of which has no text but blanks. *)
Definition footerTexts : list jsstring :=
  [js " Home "; js "  "; js "About"; js "Terms"; js "Privacy"].

Definition iconFooter : Platform :=
  host noEnv never nothing footerTexts noFiles.

Definition start (pf : Platform) (w : @World pf) : @State pf :=
  {| mgr := {| browser := None; context := None; page := None |};
     world := w; trace := [] |}.

End Sim.

(* ================================================================== *)
(** ** Specification vocabulary *)
(* ================================================================== *)

Section Vocabulary.
Context {pf : Platform}.

(** [m] only ever appends to the trace, and what it appends satisfies
    [P]. *)
Definition emits {A} (P : event -> Prop) (m : M A) : Prop :=
  forall s, exists d, trace (snd (m s)) = trace s ++ d /\ Forall P d.

(** One pass of a fallback loop over [selector], as seen in the trace:
    whether the loop stopped at this candidate, and what was asked of the
    page. *)
Inductive attempt (p : Page) (action : GlobalSetup.Action)
    (label selector : jsstring) : bool -> list event -> Prop :=
| attempt_not_visible :
    attempt p action label selector false
      [Call (IsVisible p (candidate selector) (Some 3000%N)) (Ok false)]
| attempt_probe_throws (e : exn) :
    attempt p action label selector false
      [Call (IsVisible p (candidate selector) (Some 3000%N)) (Throw e)]
| attempt_action_throws (e : exn) :
    attempt p action label selector false
      [Call (IsVisible p (candidate selector) (Some 3000%N)) (Ok true);
       Call (GlobalSetup.actionOp p action (candidate selector)) (Throw e)]
| attempt_selected :
    attempt p action label selector true
      [Call (IsVisible p (candidate selector) (Some 3000%N)) (Ok true);
       Call (GlobalSetup.actionOp p action (candidate selector)) (Ok tt);
       Log Info (label ++ selector) None].

(** A whole search: failed attempts in declaration order, ended by the
    first successful attempt or by the end of the list. *)
Inductive search (p : Page) (action : GlobalSetup.Action)
    (label : jsstring) : list jsstring -> bool -> list event -> Prop :=
| search_exhausted : search p action label [] false []
| search_hit selector rest d :
    attempt p action label selector true d ->
    search p action label (selector :: rest) true d
| search_miss selector rest d found d' :
    attempt p action label selector false d ->
    search p action label rest found d' ->
    search p action label (selector :: rest) found (d ++ d').

End Vocabulary.

(** The claim that a search stops at the first candidate seen visible:
    after a probe that answers [true], no further candidate is probed. *)
Definition stopsAtFirstVisible (d : list event) : Prop :=
  forall d1 p l t d2,
    d = d1 ++ Call (IsVisible p l t) (Ok true) :: d2 -> probed d2 = [].

(** The options [createContext] builds, by what it found on disk. *)
Definition anonymousOptions (video : bool) : ContextOptions :=
  {| co_viewport := (1920%N, 1080%N);
     co_ignoreHTTPSErrors := true;
     co_acceptDownloads := Some true;
     co_storageState := None;
     co_recordVideo :=
       if video then Some (js "test-results/videos/", (1920%N, 1080%N))
       else None |}.

Definition authenticatedOptions (storagePath : jsstring) (video : bool)
  : ContextOptions :=
  {| co_viewport := (1920%N, 1080%N);
     co_ignoreHTTPSErrors := true;
     co_acceptDownloads := Some true;
     co_storageState := Some storagePath;
     co_recordVideo :=
       if video then Some (js "test-results/videos/", (1920%N, 1080%N))
       else None |}.

(** The calls [createContext] makes once the browser exists. *)
Definition isContextSetup (A : Type) (o : op A) : bool :=
  match o with
  | NewContext _ _ | SetDefaultTimeout _ _
  | SetDefaultNavigationTimeout _ _ | TracingStart _ => true
  | _ => false
  end.

(** The three [close()] calls of Playwright. *)
Definition isClose (A : Type) (o : op A) : bool :=
  match o with
  | PageClose _ | ContextClose _ | BrowserClose _ => true
  | _ => false
  end.

(** No field goes from null to set. *)
Definition staysNull (m m' : Manager) : Prop :=
  (page m = None -> page m' = None)
  /\ (context m = None -> context m' = None)
  /\ (browser m = None -> browser m' = None).

(** The platform never throws from the calls selected by [sel]. *)
Definition reliable {pf : Platform} (sel : forall A : Type, op A -> bool)
  : Prop :=
  forall (A : Type) (o : op A) (w : World),
    sel A o = true -> isOk (fst (perform o w)) = true.

(** The world in which [saveTrace] reads the clock: the world it was
    called in, or the one [mkdirSync] left when the traces directory was
    missing. *)
Definition tracesDirMade {pf : Platform} (w : World) : World :=
  if existsSync (js "test-results/traces") w then w
  else snd (perform (MkdirSync (js "test-results/traces")) w).

(** States of the concrete hosts that the examples start from. *)

(** The quiet host after [launchBrowser()] and after [createPage()]. *)
Definition quietLaunched : @State Sim.quiet :=
  snd (PlaywrightManager.launchBrowser (Sim.start Sim.quiet 0%N)).

Definition quietLive : @State Sim.quiet :=
  snd (PlaywrightManager.createPage (Sim.start Sim.quiet 0%N)).

(** The host whose [page.close()] rejects, after [createPage()]. *)
Definition stuckLive : @State Sim.stuckPage :=
  snd (PlaywrightManager.createPage (Sim.start Sim.stuckPage 0%N)).

(** The host configured for Firefox and tracing, after
    [launchBrowser()] and after [createContext()]. *)
Definition firefoxLaunched : @State Sim.tracing :=
  snd (PlaywrightManager.launchBrowser (Sim.start Sim.tracing 0%N)).

Definition tracingLive : @State Sim.tracing :=
  snd (PlaywrightManager.createContext (Sim.start Sim.tracing 0%N)).

(* ================================================================== *)
(** ** Artifact names: vocabulary *)
(* ================================================================== *)

(** A letter, a digit or the dash: what the sanitizer never touches. *)
Definition isNameChar (c : N) : bool :=
  isSafeChar c && negb (N.eqb c underscore).

(** Only characters of the class, and no underscore next to another one;
    [afterUnderscore] tells that the character before was one. *)
Fixpoint tidy (afterUnderscore : bool) (s : jsstring) : bool :=
  match s with
  | [] => true
  | c :: s' =>
      isSafeChar c
      && (if N.eqb c underscore
          then negb afterUnderscore && tidy true s'
          else tidy false s')
  end.

Definition startsWithUnderscore (s : jsstring) : bool :=
  match s with
  | c :: _ => N.eqb c underscore
  | [] => false
  end.

Definition endsWithUnderscore (s : jsstring) : bool :=
  startsWithUnderscore (rev s).

(** A file name made of the sanitizer's characters and dots only. *)
Definition isFileNameChar (c : N) : bool := isSafeChar c || N.eqb c 46.

(* ================================================================== *)
(** ** The manager: vocabulary *)
(* ================================================================== *)

Definition isNewContext (ev : event) : bool :=
  match ev with
  | Call o _ => match o with NewContext _ _ => true | _ => false end
  | Log _ _ _ => false
  end.

Definition isNewPage (ev : event) : bool :=
  match ev with
  | Call o _ => match o with NewPage _ => true | _ => false end
  | Log _ _ _ => false
  end.

(** A [close()] call of Playwright and whether it returned. *)
Inductive Closing : Type :=
| ClosingPage (p : Page)
| ClosingContext (c : BrowserContext)
| ClosingBrowser (b : Browser).

Definition closingOf (ev : event) : option (Closing * bool) :=
  match ev with
  | Call o r =>
      match o with
      | PageClose p => Some (ClosingPage p, isOk r)
      | ContextClose c => Some (ClosingContext c, isOk r)
      | BrowserClose b => Some (ClosingBrowser b, isOk r)
      | _ => None
      end
  | Log _ _ _ => None
  end.

(** The close calls of a trace, in order. *)
Fixpoint closings (t : list event) : list (Closing * bool) :=
  match t with
  | [] => []
  | ev :: t' =>
      match closingOf ev with
      | Some c => c :: closings t'
      | None => closings t'
      end
  end.

(** A visibility probe, a click or a fill. *)
Definition isInteraction (A : Type) (o : op A) : bool :=
  match o with
  | IsVisible _ _ _ | Click _ _ | Fill _ _ _ => true
  | _ => false
  end.

Definition notInteraction (A : Type) (o : op A) : bool :=
  negb (isInteraction o).

(** The public methods of [PlaywrightManager]. *)
Inductive ManagerCall : Type :=
| DoLaunchBrowser
| DoCreateContext
| DoCreatePage
| DoGetPage
| DoGetContext
| DoGetBrowser
| DoTakeScreenshot (name : option jsstring)
| DoSaveTrace (scenarioName : jsstring)
| DoClosePage
| DoCloseContext
| DoCloseBrowser
| DoCleanup.

Section ManagerRuns.
Context {pf : Platform}.

(** The state a call leaves behind, whether it returns or throws. *)
Definition after (c : ManagerCall) (s : State) : State :=
  match c with
  | DoLaunchBrowser => snd (PlaywrightManager.launchBrowser s)
  | DoCreateContext => snd (PlaywrightManager.createContext s)
  | DoCreatePage => snd (PlaywrightManager.createPage s)
  | DoGetPage => snd (PlaywrightManager.getPage s)
  | DoGetContext => snd (PlaywrightManager.getContext s)
  | DoGetBrowser => snd (PlaywrightManager.getBrowser s)
  | DoTakeScreenshot name => snd (PlaywrightManager.takeScreenshot name s)
  | DoSaveTrace scenarioName =>
      snd (PlaywrightManager.saveTrace scenarioName s)
  | DoClosePage => snd (PlaywrightManager.closePage s)
  | DoCloseContext => snd (PlaywrightManager.closeContext s)
  | DoCloseBrowser => snd (PlaywrightManager.closeBrowser s)
  | DoCleanup => snd (PlaywrightManager.cleanup s)
  end.

(** A caller that goes on after every call, catching what is thrown. *)
Fixpoint afterAll (cs : list ManagerCall) (s : State) : State :=
  match cs with
  | [] => s
  | c :: cs' => afterAll cs' (after c s)
  end.

End ManagerRuns.

(** A stored context has a stored browser behind it. *)
Definition contextHasBrowser (m : Manager) : Prop :=
  context m <> None -> browser m <> None.

Section Triples.
Context {pf : Platform}.

(** From a manager satisfying [P], the program leaves one satisfying
    [Q a] when it returns [a] and [R] when it throws. *)
Definition triple {A} (P : Manager -> Prop) (m : M A)
    (Q : A -> Manager -> Prop) (R : Manager -> Prop) : Prop :=
  forall s : State,
    P (mgr s) ->
    match m s with
    | (Ok a, s') => Q a (mgr s')
    | (Throw _, s') => R (mgr s')
    end.

End Triples.

(** The handles a manager holds, in the order [closeBrowser] visits
    them. *)
Definition handlesOf (m : Manager) : list Closing :=
  match page m with Some p => [ClosingPage p] | None => [] end
  ++ match context m with Some c => [ClosingContext c] | None => [] end
  ++ match browser m with Some b => [ClosingBrowser b] | None => [] end.

Definition closedOk (c : Closing) : Closing * bool := (c, true).

(** A call to the platform that is not a probe, a click or a fill. *)
Definition isPlumbing (ev : event) : bool :=
  match ev with
  | Call o _ => notInteraction o
  | Log _ _ _ => false
  end.

(* ================================================================== *)
(** ** src/hooks/hooks.ts: the end of a scenario and of the run *)
(* ================================================================== *)

(** [s.replace(/\s+/g, '_')]: each maximal run of white space becomes one
    underscore.  The class [\s] has the code units of [isWhiteSpace]. *)
Fixpoint replaceSpaceRuns (inRun : bool) (s : jsstring) : jsstring :=
  match s with
  | [] => []
  | c :: s' =>
      if isWhiteSpace c
      then if inRun then replaceSpaceRuns true s'
           else underscore :: replaceSpaceRuns true s'
      else c :: replaceSpaceRuns false s'
  end.

Module ScenarioEnd.
Section ScenarioEnd.
Context {pf : Platform}.

(** [fs.readFileSync(path)]: what reading a file of the world gives.  Like
    [existsSync] it leaves the world as it is; unlike it, it can throw. *)
Variable readFileSync : jsstring -> World -> result Buffer.

Definition fsReadFileSync (path : jsstring) : M Buffer :=
  fun s => (readFileSync path (world s), s).

(** [failed] is [scenario.result?.status === Status.FAILED].  The failure
    screenshot is named after the scenario with its white space replaced,
    and nothing else: the name is not passed through the sanitizer of the
    step screenshots.  [this.attach] is given a buffer and is synchronous
    for one.  The third condition of the [if] before the trace attachment
    is only evaluated for a failed scenario with a non-empty trace
    path. *)
Definition After (failed : bool) (scenarioName : jsstring) : M unit :=
  (if failed
   then
     log Error (js "Scenario FAILED: " ++ scenarioName) None ;;
     tryCatch
       (screenshot <-
          PlaywrightManager.takeScreenshot
            (Some (replaceSpaceRuns false scenarioName)) ;;
        call (Attach screenshot (js "image/png")) ;;
        log Info (js "Screenshot attached to report") None)
       (fun error =>
          log Warn (js "Failed to capture screenshot: ") (Some error))
   else log Info (js "Scenario PASSED: " ++ scenarioName) None) ;;
  tracePath <-
    tryCatch (PlaywrightManager.saveTrace scenarioName)
      (fun error =>
         log Warn (js "Failed to save trace: ") (Some error) ;;
         ret None) ;;
  match (if failed then tracePath else None) with
  | Some (c :: path') =>
      found <- fsExistsSync (c :: path') ;;
      if found
      then
        tryCatch
          (traceBuffer <- fsReadFileSync (c :: path') ;;
           call (Attach traceBuffer (js "application/zip")) ;;
           log Info (js "Trace attached to report") None)
          (fun error =>
             log Warn (js "Failed to attach trace: ") (Some error))
      else ret tt
  | _ => ret tt
  end ;;
  PlaywrightManager.closePage ;;
  PlaywrightManager.closeContext.

Definition AfterAll : M unit :=
  log Info (js "=== Test Suite Completed ===") None ;;
  PlaywrightManager.cleanup.

End ScenarioEnd.
End ScenarioEnd.

(** A screenshot taken, a file written with [fs.writeFileSync] or
    something attached to the report. *)
Definition isReportEvent (ev : event) : bool :=
  match ev with
  | Call o _ =>
      match o with
      | Screenshot _ | WriteFileSync _ _ | Attach _ _ => true
      | _ => false
      end
  | Log _ _ _ => false
  end.

(** A log line, or one of the two calls by which [saveTrace] saves the
    trace: [fs.mkdirSync] for the traces directory and [tracing.stop],
    which writes the archive. *)
Definition savesTrace (ev : event) : bool :=
  match ev with
  | Call o _ =>
      match o with
      | MkdirSync _ | TracingStop _ _ => true
      | _ => false
      end
  | Log _ _ _ => true
  end.

(** Neither a launch nor a creation nor a close of a Playwright
    handle. *)
Definition keepsHandles (ev : event) : Prop :=
  closingOf ev = None /\ isLaunch ev = false
  /\ isNewContext ev = false /\ isNewPage ev = false.

(** The browser [b] is stored. *)
Definition holdsBrowser (b : Browser) (m : Manager) : Prop :=
  browser m = Some b.

(** Neither a launch nor the close of a browser. *)
Definition calm (ev : event) : Prop :=
  isLaunch ev = false /\ isBrowserClose ev = false.

Section Steady.
Context {pf : Platform}.

(** Run from [s], the program leaves a manager satisfying [I] and has
    appended to the trace only events satisfying [P], whether it returned
    or threw. *)
Definition steadyAt {A} (I : Manager -> Prop) (P : event -> Prop)
    (m : M A) (s : State) : Prop :=
  I (mgr (snd (m s)))
  /\ exists d, trace (snd (m s)) = trace s ++ d /\ Forall P d.

Definition steady {A} (I : Manager -> Prop) (P : event -> Prop) (m : M A)
  : Prop :=
  forall s, I (mgr s) -> steadyAt I P m s.

(** The program leaves the manager as it found it. *)
Definition frames {A} (P : event -> Prop) (m : M A) : Prop :=
  forall m0, steady (fun m' => m' = m0) P m.

End Steady.

(** The program returns, from every state. *)
Definition returns {pf : Platform} {A} (m : M A) : Prop :=
  forall s, isOk (fst (m s)) = true.

(** A file system on which no file can be read. *)
Definition unreadable (path : jsstring) (w : N) : result Buffer :=
  Throw Sim.boom.

(** The host configured for tracing at the end of a failed scenario that
    had a browser and a context, and after the [Before] of the next
    one. *)
Definition tracingEnded : @State Sim.tracing :=
  snd (ScenarioEnd.After (pf := Sim.tracing) unreadable true
         (js "Login fails") tracingLive).

Definition tracingNext : @State Sim.tracing :=
  snd (Hooks.Before
         {| Hooks._scenarioName := None; Hooks._stepIndex := None |}
         (js "Footer links") tracingEnded).

(** A browser, or a page, that the platform handed out. *)
Definition isLaunched (ev : event) : bool :=
  match ev with
  | Call o r => match o with Launch _ _ => isOk r | _ => false end
  | Log _ _ _ => false
  end.

Definition isPageOpened (ev : event) : bool :=
  match ev with
  | Call o r => match o with NewPage _ => isOk r | _ => false end
  | Log _ _ _ => false
  end.

(** Neither a browser nor a page is handed out, and no browser is
    closed. *)
Definition idle (ev : event) : Prop :=
  isBrowserClose ev = false /\ isPageOpened ev = false
  /\ isLaunched ev = false.

(** The context, or the page, that the platform handed out last. *)
Definition openedContext (ev : event) : option BrowserContext :=
  match ev with
  | Call o r =>
      match o in op T return result T -> option BrowserContext with
      | NewContext _ _ =>
          fun r => match r with Ok c => Some c | Throw _ => None end
      | _ => fun _ => None
      end r
  | Log _ _ _ => None
  end.

Definition openedPage (ev : event) : option Page :=
  match ev with
  | Call o r =>
      match o in op T return result T -> option Page with
      | NewPage _ =>
          fun r => match r with Ok p => Some p | Throw _ => None end
      | _ => fun _ => None
      end r
  | Log _ _ _ => None
  end.

(** The last element of [t] that [pick] selects, else [start]. *)
Definition lastPicked {A} (pick : event -> option A) (start : option A)
    (t : list event) : option A :=
  fold_left
    (fun acc ev => match pick ev with Some a => Some a | None => acc end)
    t start.

(* ================================================================== *)
(** ** src/utils/dataLoader.ts *)
(* ================================================================== *)

(** [s.startsWith(prefix)] and [s.endsWith(suffix)]. *)
Fixpoint startsWith (s prefix : jsstring) : bool :=
  match prefix, s with
  | [], _ => true
  | x :: prefix', y :: s' => N.eqb x y && startsWith s' prefix'
  | _ :: _, [] => false
  end.

Definition endsWith (s suffix : jsstring) : bool :=
  startsWith (rev s) (rev suffix).

(** [error instanceof Error ? error.message : String(error)] *)
Definition messageOf (error : exn) : jsstring :=
  match error with JsError message => message end.

Module DataLoader.
Section DataLoader.
Context {pf : Platform}.

(** A parsed JSON value; the loader only stores it and hands it out. *)
Variable Json : Type.

(** [fs.readFileSync(path, 'utf-8')], [JSON.parse] and [path.join]. *)
Variable readFileUtf8 : jsstring -> World -> result jsstring.
Variable jsonParse : jsstring -> result Json.
Variable path_join : jsstring -> jsstring -> jsstring.

(** The static [Map]: keys are compared as strings. *)
Definition Cache : Type := list (jsstring * Json).

Fixpoint cacheGet (key : jsstring) (c : Cache) : option Json :=
  match c with
  | [] => None
  | (k, v) :: c' => if jseqb k key then Some v else cacheGet key c'
  end.

Fixpoint cacheSet (key : jsstring) (data : Json) (c : Cache) : Cache :=
  match c with
  | [] => [(key, data)]
  | (k, v) :: c' =>
      if jseqb k key then (key, data) :: c'
      else (k, v) :: cacheSet key data c'
  end.

(** The static state of the class next to the rest of the program. *)
Record Loader : Type := {
  cache : Cache;
  rest : State
}.

Definition logged (lvl : LogLevel) (msg : jsstring) (st : Loader) : Loader :=
  {| cache := cache st; rest := snd (log lvl msg None (rest st)) |}.

Definition testDataDir : jsstring := pathResolveCwd (js "src/test-data").

Definition normalizedNameOf (fileName : jsstring) : jsstring :=
  if endsWith fileName (js ".json") then fileName
  else fileName ++ js ".json".

(** The [try] block covers the read, the parse, the assignment to the
    cache and the info line; the read and the parse are what can throw in
    it, and both come before the assignment, so the cache is only changed
    by a call that returns. *)
Definition load (fileName : jsstring) (st : Loader) : result Json * Loader :=
  let normalizedName := normalizedNameOf fileName in
  match cacheGet normalizedName (cache st) with
  | Some data =>
      (Ok data,
       logged Debug (js "Loading cached test data: " ++ normalizedName) st)
  | None =>
      let filePath := path_join testDataDir normalizedName in
      if negb (existsSync filePath (world (rest st)))
      then (Throw (JsError (js "Test data file not found: " ++ filePath)), st)
      else
        match
          match readFileUtf8 filePath (world (rest st)) with
          | Ok rawData => jsonParse rawData
          | Throw error => Throw error
          end
        with
        | Ok data =>
            (Ok data,
             logged Info (js "Test data loaded: " ++ normalizedName)
               {| cache := cacheSet normalizedName data (cache st);
                  rest := rest st |})
        | Throw error =>
            (Throw (JsError (js "Failed to parse test data file "
                             ++ normalizedName ++ js ": "
                             ++ messageOf error)),
             st)
        end
  end.

Definition clearCache (st : Loader) : result unit * Loader :=
  (Ok tt, logged Debug (js "Test data cache cleared")
            {| cache := []; rest := rest st |}).

End DataLoader.
End DataLoader.

(** What can happen to the loader while the cache is not cleared: further
    calls of [load], with the file system answering as it likes, and
    other code running in between. *)
Inductive later {pf : Platform} {Json : Type} (st : DataLoader.Loader Json)
  : DataLoader.Loader Json -> Prop :=
| later_now : later st st
| later_load st1 readFileUtf8 jsonParse path_join fileName :
    later st st1 ->
    later st
      (snd (DataLoader.load readFileUtf8 jsonParse path_join fileName st1))
| later_rest st1 (r : State) :
    later st st1 ->
    later st {| DataLoader.cache := DataLoader.cache st1;
                DataLoader.rest := r |}.

(** A well-behaved host on which every file exists. *)
Definition allFiles (p : jsstring) : bool := true.

Definition stocked : Platform :=
  Sim.host Sim.noEnv Sim.never Sim.nothing [] allFiles.

(** A file system whose files all hold the text [7], and a parser that
    reads it as the number seven. *)
Definition sevenText (path : jsstring) (w : N) : result jsstring :=
  Ok (js "7").

Definition sevenParse (raw : jsstring) : result N := Ok 7%N.

(** The same after the files have become unreadable. *)
Definition lostText (path : jsstring) (w : N) : result jsstring :=
  Throw Sim.boom.

Definition lostParse (raw : jsstring) : result N := Throw Sim.boom.

Definition emptyLoader (pf : Platform) (w : @World pf)
  : @DataLoader.Loader pf N :=
  {| DataLoader.cache := []; DataLoader.rest := Sim.start pf w |}.

(* ================================================================== *)
(** ** src/pages/BasePage.ts: [safeAction] *)
(* ================================================================== *)

(** What [safeAction] throws: an [Error], or [null] when the loop body
    never ran. *)
Inductive thrown : Type :=
| ThrownError (e : exn)
| ThrownNull.

Inductive outcome (A : Type) : Type :=
| Returned (a : A)
| Rejected (t : thrown).
Arguments Returned {A} a.
Arguments Rejected {A} t.

(** [String(n)] for an integer below [10^21] in size. *)
Definition numberText (z : Z) : jsstring :=
  if (z <? 0)%Z then js "-" ++ digitsOf (Z.to_N (- z)) else digitsOf (Z.to_N z).

(** [attempt <= retries] and [attempt < retries] for a whole number
    [attempt].  A whole number is below a number that is not whole, and
    at most that number, exactly when it is at most the integer next
    below it; a comparison with [NaN] is false. *)
Definition leqNumber (attempt : Z) (retries : number) : bool :=
  match retries with
  | Num z => (attempt <=? z)%Z
  | Fraction below _ => (attempt <=? below)%Z
  | PlusInfinity => true
  | MinusInfinity => false
  | NaN => false
  end.

Definition ltNumber (attempt : Z) (retries : number) : bool :=
  match retries with
  | Num z => (attempt <? z)%Z
  | Fraction below _ => (attempt <=? below)%Z
  | PlusInfinity => true
  | MinusInfinity => false
  | NaN => false
  end.

(** [String(x)]; for an integer, below [10^21] in size. *)
Definition numberString (x : number) : jsstring :=
  match x with
  | Num z => numberText z
  | Fraction _ text => text
  | PlusInfinity => js "Infinity"
  | MinusInfinity => js "-Infinity"
  | NaN => js "NaN"
  end.

(** A finite number that is not whole. *)
Definition isFraction (x : number) : bool :=
  match x with Fraction _ _ => true | _ => false end.

(** [attempt++] on a double that holds a whole number: the sum is exact
    below [2^53]; [2^53 + 1] is no double and rounds back to [2^53], so
    from there on the counter stays where it is. *)
Definition increment (attempt : Z) : Z :=
  if (attempt <? 9007199254740992)%Z then (attempt + 1)%Z else attempt.

(** [await new Promise((resolve) => setTimeout(resolve, ms))]: the promise
    never rejects; [sleep ms w] is the world once the timer of [ms]
    milliseconds has fired in the world [w]. *)
Definition delay {pf : Platform} (sleep : N -> World -> World) (ms : N)
  : M unit :=
  fun s => (Ok tt, {| mgr := mgr s; world := sleep ms (world s);
                      trace := trace s |}).

Definition isDebugLog (ev : event) : bool :=
  match ev with Log Debug _ _ => true | _ => false end.

Definition isWarnLog (ev : event) : bool :=
  match ev with Log Warn _ _ => true | _ => false end.

Module SafeAction.
Section SafeAction.
Context {pf : Platform}.
Variable T : Type.

Variable sleep : N -> World -> World.

Variable action : M T.
Variable actionName : jsstring.

(** Any number; the default of the parameter is 1. *)
Variable retries : number.

(** The [for] loop, from the test of its condition on.  [fuel] bounds the
    number of tests; [None] is a loop that was cut short. *)
Fixpoint attempts (fuel : nat) (attempt : Z) (lastError : thrown)
  : State -> option (outcome T * State) :=
  match fuel with
  | O => fun _ => None
  | S fuel' => fun s =>
      if leqNumber attempt retries
      then
        let s1 :=
          snd (log Debug (js "Executing: " ++ actionName ++ js " (attempt "
                          ++ numberText attempt ++ js "/"
                          ++ numberString retries ++ js ")") None s) in
        match action s1 with
        | (Ok a, s2) => Some (Returned a, s2)
        | (Throw error, s2) =>
            let s3 :=
              snd (log Warn (js "Action " ++ dquote ++ actionName ++ dquote
                             ++ js " failed (attempt " ++ numberText attempt
                             ++ js "): " ++ messageOf error) None s2) in
            let s4 :=
              if ltNumber attempt retries then snd (delay sleep 1000%N s3)
              else s3 in
            attempts fuel' (increment attempt) (ThrownError error) s4
        end
      else Some (Rejected lastError, s)
  end.

(** [safeAction] with its loop cut short after [fuel] tests of the
    condition. *)
Definition safeAction (fuel : nat) : State -> option (outcome T * State) :=
  attempts fuel 1%Z ThrownNull.

(** The last value of the counter for which the body runs, counting from
    1, when there is one: none when [retries] is infinite, and none from
    [2^53] on, where the counter no longer moves. *)
Definition lastAttempt : option Z :=
  match retries with
  | Num z => if (z <? 9007199254740992)%Z then Some z else None
  | Fraction below _ =>
      if (below <? 9007199254740992)%Z then Some below else None
  | PlusInfinity => None
  | MinusInfinity => Some 0%Z
  | NaN => Some 0%Z
  end.

(** The number of times the body can run at most, when that is
    bounded. *)
Definition rounds : option nat :=
  match lastAttempt with
  | Some z => Some (Z.to_nat z)
  | None => None
  end.

End SafeAction.
End SafeAction.

(** An action that always fails, and a sleep that moves the clock of the
    concrete hosts. *)
Definition failing : @M Sim.quiet N := throw Sim.boom.

Definition clockSleep (ms : N) (w : N) : N := (w + ms)%N.

(* ================================================================== *)
(** ** src/utils/waitUtils.ts: [waitForCondition] *)
(* ================================================================== *)

(** [x || d] on [number | undefined]: [undefined], [0] and [NaN] are
    falsy, every other number is truthy. *)
Definition orNumber (x : option number) (d : number) : number :=
  match x with
  | None => d
  | Some (Num z) => if (z =? 0)%Z then d else Num z
  | Some (Fraction below text) => Fraction below text
  | Some PlusInfinity => PlusInfinity
  | Some MinusInfinity => MinusInfinity
  | Some NaN => d
  end.

Module WaitUtils.
Section WaitUtils.
Context {pf : Platform}.

(** The world once a [setTimeout] of so many milliseconds has fired. *)
Variable sleep : N -> World -> World.

Variable condition : M bool.

(** The optional parameter: absent, or any number. *)
Variable timeout : option number.

(** The polling interval, a whole number of milliseconds; the default of
    the parameter is 500. *)
Variable interval : N.

Definition waitTimeout : number :=
  orNumber timeout (Env.DEFAULT_TIMEOUT Env.ENV).

(** [Date.now() - startTime] *)
Definition elapsed (startTime : N) (s : State) : Z :=
  (Z.of_N (dateNow (world s)) - Z.of_N startTime)%Z.

Definition timedOut : exn :=
  JsError (js "Condition not met within " ++ numberString waitTimeout
           ++ js "ms").

(** The [while] loop, from the test of its condition on.  A condition
    that throws counts as not met.  [fuel] bounds the number of tests;
    [None] is a loop that was cut short. *)
Fixpoint polls (fuel : nat) (startTime : N)
  : State -> option (result unit * State) :=
  match fuel with
  | O => fun _ => None
  | S fuel' => fun s =>
      if ltNumber (elapsed startTime s) waitTimeout
      then
        match condition s with
        | (Ok true, s1) => Some (Ok tt, s1)
        | (_, s1) =>
            polls fuel' startTime (snd (delay sleep interval s1))
        end
      else Some (Throw timedOut, s)
  end.

Definition waitForCondition (fuel : nat)
  : State -> option (result unit * State) :=
  fun s => polls fuel (dateNow (world s)) s.

(** The whole milliseconds that are below the timeout, when it is
    finite: the polls there are at most when the clock gains a
    millisecond per round. *)
Definition ticks : option nat :=
  match waitTimeout with
  | Num z => Some (Z.to_nat z)
  | Fraction below _ => Some (Z.to_nat (below + 1))
  | PlusInfinity => None
  | MinusInfinity => Some 0
  | NaN => Some 0
  end.

(** The polls that are left at most for a finite timeout. *)
Definition testsFrom (startTime : N) (s : State) : nat :=
  match waitTimeout with
  | Num z => Z.to_nat (z - elapsed startTime s)
  | Fraction below _ => Z.to_nat (below + 1 - elapsed startTime s)
  | _ => 0
  end.

End WaitUtils.
End WaitUtils.

(** A condition that is never met. *)
Definition never_met : @M Sim.quiet bool := ret false.

(* ================================================================== *)
(** ** src/pages/AboutPage.ts and src/pages/TradingPage.ts *)
(* ================================================================== *)

(** [s.includes(sub)]: [sub] occurs in [s]. *)
Fixpoint includes (s sub : jsstring) : bool :=
  startsWith s sub
  || match s with
     | [] => false
     | _ :: s' => includes s' sub
     end.

(** [parts.join(separator)] *)
Fixpoint join (separator : jsstring) (parts : list jsstring) : jsstring :=
  match parts with
  | [] => []
  | [p] => p
  | p :: parts' => p ++ separator ++ join separator parts'
  end.

Module AboutPage.
Section AboutPage.
Context {pf : Platform}.
Variable page : Page.

Definition sectionHeaders : Locator := locator (js "h1, h2, h3").
Definition paragraphs : Locator := locator (js "p").

Definition getSectionHeaders : M (list jsstring) :=
  BasePage.getAllTexts page sectionHeaders.

Definition getParagraphTexts : M (list jsstring) :=
  BasePage.getAllTexts page paragraphs.

Definition hasSectionHeader (headerText : jsstring) : M bool :=
  headers <- getSectionHeaders ;;
  ret (existsb (fun h => includes (toLowerCase h) (toLowerCase headerText))
               headers).

Definition hasParagraphContaining (text : jsstring) : M bool :=
  paragraphs' <- getParagraphTexts ;;
  ret (existsb (fun p => includes (toLowerCase p) (toLowerCase text))
               paragraphs').

Definition assertParagraphContentExists : M unit :=
  paragraphs' <- getParagraphTexts ;;
  if (List.length paragraphs' =? 0)%nat
  then throw (JsError (js "No paragraph content found"))
  else log Info (js "Found " ++ digitsOf (N.of_nat (List.length paragraphs'))
                 ++ js " paragraphs") None.

(** The [for] loop of [assertExpectedHeaders], which
    [TradingPage.assertTableHeadersContain] repeats word for word. *)
Fixpoint checkHeaders (headers headersLower expectedHeaders : list jsstring)
  : M unit :=
  match expectedHeaders with
  | [] => ret tt
  | expected :: rest =>
      let found :=
        existsb (fun h => includes h (toLowerCase expected)) headersLower in
      (if negb found
       then log Warn (js "Expected header " ++ dquote ++ expected ++ dquote
                      ++ js " not found. Available: "
                      ++ join (js ", ") headers) None
       else ret tt) ;;
      checkHeaders headers headersLower rest
  end.

Definition assertExpectedHeaders (expectedHeaders : list jsstring) : M unit :=
  headers <- getSectionHeaders ;;
  let headersLower := map toLowerCase headers in
  checkHeaders headers headersLower expectedHeaders.

End AboutPage.
End AboutPage.

Module TradingPage.
Section TradingPage.
Context {pf : Platform}.
Variable page : Page.

Definition tableHeaders : Locator := locator (js "table th").

Definition getTableHeaders : M (list jsstring) :=
  BasePage.getAllTexts page tableHeaders.

Definition assertTableHeadersContain (expectedHeaders : list jsstring)
  : M unit :=
  headers <- getTableHeaders ;;
  let headersLower := map toLowerCase headers in
  AboutPage.checkHeaders headers headersLower expectedHeaders.

End TradingPage.
End TradingPage.

(** The headers of [expectedHeaders] that none of [headers] contains,
    letter case aside. *)
Definition missingHeaders {pf : Platform}
    (headers expectedHeaders : list jsstring) : list jsstring :=
  filter
    (fun expected =>
       negb (existsb
               (fun h => includes (toLowerCase h) (toLowerCase expected))
               headers))
    expectedHeaders.

(** What [getAllTexts] makes of the texts the page hands out. *)
Definition shownTexts (texts : list jsstring) : list jsstring :=
  filter (fun t => (0 <? List.length t)%nat) (map trim texts).

(* ================================================================== *)
(** ** Proof tactics *)
(* ================================================================== *)

(** Unfolds the monad so that a program reads as a function of the
    state. *)
Ltac run :=
  unfold bind, tryCatch, tryFinally, call, log, fsExistsSync, now, getMgr,
    setBrowser, setContext, setPage, setMgr, ret, throw;
  cbn.

(** Splits on the platform's answer to the next call. *)
Ltac answer :=
  match goal with
  | |- context [perform ?o ?w] =>
      let E := fresh "E" in
      destruct (perform o w) as [[?|?] ?] eqn:E; cbn;
      repeat match goal with u : unit |- _ => destruct u end
  end.

(** A call that the platform is trusted not to fail did not throw. *)
Ltac trusted H :=
  match goal with
  | E : perform ?o ?w = (Throw _, _) |- _ =>
      let R := fresh in
      assert (R : isOk (fst (perform o w)) = true) by (apply H; reflexivity);
      rewrite E in R; discriminate R
  end.

(* ================================================================== *)
(** * Properties *)
(* ================================================================== *)

(** ** Strings *)

Lemma jseqb_eq (a b : jsstring) : jseqb a b = true <-> a = b.
Proof.
  revert b; induction a as [|x a IH]; intros [|y b]; simpl;
    try (split; [discriminate | discriminate]); [tauto|].
  rewrite andb_true_iff, N.eqb_eq, IH.
  split; [intros [-> ->]; reflexivity | intros [= -> ->]; auto].
Qed.

Lemma strictEq_true (x : option jsstring) (lit : jsstring) :
  strictEq x lit = true <-> x = Some lit.
Proof.
  destruct x as [s|]; simpl.
  - rewrite jseqb_eq. split; [intros ->; reflexivity | intros [= ->]; auto].
  - split; discriminate.
Qed.

(** ** The monad *)

Section MonadFacts.
Context {pf : Platform}.

Lemma emits_ret {A} (P : event -> Prop) (a : A) : emits P (ret a).
Proof. intros s; exists []; simpl; rewrite app_nil_r; auto. Qed.

Lemma emits_throw {A} (P : event -> Prop) (e : exn) :
  emits P (throw (A := A) e).
Proof. intros s; exists []; simpl; rewrite app_nil_r; auto. Qed.

Lemma emits_bind {A B} (P : event -> Prop) (m : M A) (k : A -> M B) :
  emits P m -> (forall a, emits P (k a)) -> emits P (bind m k).
Proof.
  intros Hm Hk s. unfold bind.
  destruct (Hm s) as (d1 & E1 & F1).
  destruct (m s) as [[a|e] s1]; simpl in E1.
  - destruct (Hk a s1) as (d2 & E2 & F2).
    exists (d1 ++ d2). rewrite E2, E1, app_assoc. split; auto.
    apply Forall_app; auto.
  - exists d1; auto.
Qed.

Lemma emits_tryCatch {A} (P : event -> Prop) (m : M A) (h : exn -> M A) :
  emits P m -> (forall e, emits P (h e)) -> emits P (tryCatch m h).
Proof.
  intros Hm Hh s. unfold tryCatch.
  destruct (Hm s) as (d1 & E1 & F1).
  destruct (m s) as [[a|e] s1]; simpl in E1.
  - exists d1; auto.
  - destruct (Hh e s1) as (d2 & E2 & F2).
    exists (d1 ++ d2). rewrite E2, E1, app_assoc. split; auto.
    apply Forall_app; auto.
Qed.

Lemma emits_call {A} (P : event -> Prop) (o : op A) :
  (forall r, P (Call o r)) -> emits P (call o).
Proof.
  intros H s. unfold call.
  destruct (perform o (world s)) as [r w']; simpl.
  exists [Call o r]; auto.
Qed.

Lemma emits_log (P : event -> Prop) lvl msg detail :
  P (Log lvl msg detail) -> emits P (log lvl msg detail).
Proof. intros H s; exists [Log lvl msg detail]; simpl; auto. Qed.

Lemma emits_fsExistsSync (P : event -> Prop) path :
  emits P (fsExistsSync path).
Proof. intros s; exists []; simpl; rewrite app_nil_r; auto. Qed.

Lemma emits_now (P : event -> Prop) : emits P now.
Proof. intros s; exists []; simpl; rewrite app_nil_r; auto. Qed.

Lemma emits_getMgr (P : event -> Prop) : emits P getMgr.
Proof. intros s; exists []; simpl; rewrite app_nil_r; auto. Qed.

Lemma emits_setMgr (P : event -> Prop) m : emits P (setMgr m).
Proof. intros s; exists []; simpl; rewrite app_nil_r; auto. Qed.

Lemma emits_if {A} (P : event -> Prop) (b : bool) (m1 m2 : M A) :
  emits P m1 -> emits P m2 -> emits P (if b then m1 else m2).
Proof. destruct b; auto. Qed.

End MonadFacts.

Create HintDb emits.

#[local] Hint Resolve emits_ret emits_throw emits_bind emits_tryCatch
  emits_call emits_log emits_fsExistsSync emits_now emits_getMgr
  emits_setMgr emits_if : emits.

(** ** env.ts and the AfterStep gate *)

Section EnvFacts.
Context {pf : Platform}.
Import Env.

Lemma SCREENSHOT_EACH_STEP_spec :
  SCREENSHOT_EACH_STEP ENV = true
  <-> env_SCREENSHOT_EACH_STEP process_env <> Some (js "false").
Proof.
  unfold ENV; simpl. rewrite negb_true_iff, <- not_true_iff_false.
  now rewrite strictEq_true.
Qed.

End EnvFacts.

(** ** PlaywrightManager: teardown *)

Lemma staysNull_refl m : staysNull m m.
Proof. repeat split; auto. Qed.

Lemma staysNull_trans m1 m2 m3 :
  staysNull m1 m2 -> staysNull m2 m3 -> staysNull m1 m3.
Proof. unfold staysNull; intuition. Qed.

Section TeardownFacts.
Context {pf : Platform}.
Import PlaywrightManager.

Lemma closePage_null (s : State) :
  page (mgr s) = None -> closePage s = (Ok tt, s).
Proof. intros H. unfold closePage. run. now rewrite H. Qed.

Lemma closeContext_null (s : State) :
  context (mgr s) = None -> closeContext s = (Ok tt, s).
Proof. intros H. unfold closeContext. run. now rewrite H. Qed.

Lemma closeBrowser_null (s : State) :
  page (mgr s) = None -> context (mgr s) = None -> browser (mgr s) = None ->
  closeBrowser s = (Ok tt, s).
Proof.
  intros Hp Hc Hb. unfold closeBrowser, bind at 1.
  rewrite (closePage_null _ Hp). unfold bind at 1.
  rewrite (closeContext_null _ Hc). run. now rewrite Hb.
Qed.

(** What a close call that returns leaves behind. *)
Lemma closePage_nulls (s s1 : State) :
  closePage s = (Ok tt, s1) ->
  page (mgr s1) = None /\ context (mgr s1) = context (mgr s)
  /\ browser (mgr s1) = browser (mgr s).
Proof.
  unfold closePage. run. destruct (page (mgr s)) eqn:Hp.
  - answer; intros [= <-]; auto.
  - intros [= <-]; auto.
Qed.

Lemma closeContext_nulls (s s1 : State) :
  closeContext s = (Ok tt, s1) ->
  context (mgr s1) = None /\ page (mgr s1) = page (mgr s)
  /\ browser (mgr s1) = browser (mgr s).
Proof.
  unfold closeContext. run. destruct (context (mgr s)) eqn:Hc.
  - answer; intros [= <-]; auto.
  - intros [= <-]; auto.
Qed.

Lemma closeBrowser_nulls (s s1 : State) :
  closeBrowser s = (Ok tt, s1) ->
  page (mgr s1) = None /\ context (mgr s1) = None /\ browser (mgr s1) = None.
Proof.
  unfold closeBrowser, bind at 1.
  destruct (closePage s) as [[[]|e] sa] eqn:Ea; [|discriminate].
  apply closePage_nulls in Ea. destruct Ea as (Pa & Ca & Ba).
  unfold bind at 1.
  destruct (closeContext sa) as [[[]|e] sb] eqn:Eb; [|discriminate].
  apply closeContext_nulls in Eb. destruct Eb as (Cb & Pb & Bb).
  run. destruct (browser (mgr sb)) eqn:Hb.
  - answer; intros [= <-]; simpl; repeat split; congruence.
  - intros [= <-]. repeat split; congruence.
Qed.

(** Whether it returns or throws, a teardown call sets no field. *)
Lemma closePage_staysNull (s : State) :
  staysNull (mgr s) (mgr (snd (closePage s))).
Proof.
  unfold closePage. run. destruct (page (mgr s)) eqn:Hp.
  - answer; repeat split; auto.
  - apply staysNull_refl.
Qed.

Lemma closeContext_staysNull (s : State) :
  staysNull (mgr s) (mgr (snd (closeContext s))).
Proof.
  unfold closeContext. run. destruct (context (mgr s)) eqn:Hc.
  - answer; repeat split; auto.
  - apply staysNull_refl.
Qed.

Lemma closeBrowser_staysNull (s : State) :
  staysNull (mgr s) (mgr (snd (closeBrowser s))).
Proof.
  unfold closeBrowser, bind at 1.
  pose proof (closePage_staysNull s) as Ha.
  destruct (closePage s) as [[[]|e] sa]; simpl in Ha; [|exact Ha].
  unfold bind at 1.
  pose proof (closeContext_staysNull sa) as Hb.
  destruct (closeContext sa) as [[[]|e] sb]; simpl in Hb;
    [|exact (staysNull_trans Ha Hb)].
  apply (staysNull_trans Ha). apply (staysNull_trans Hb).
  run. destruct (browser (mgr sb)) eqn:E.
  - answer; repeat split; auto.
  - apply staysNull_refl.
Qed.

Lemma teardown_staysNull (t : Teardown) (s : State) :
  staysNull (mgr s) (mgr (snd (teardown t s))).
Proof.
  destruct t; simpl.
  - apply closePage_staysNull.
  - apply closeContext_staysNull.
  - apply closeBrowser_staysNull.
  - apply closeBrowser_staysNull.
Qed.

Lemma released_staysNull (t : Teardown) (m m' : Manager) :
  staysNull m m' -> released t m -> released t m'.
Proof. unfold staysNull; destruct t; simpl; intuition. Qed.

(** A teardown call whose handles are already null does nothing. *)
Lemma teardown_released (t : Teardown) (s : State) :
  released t (mgr s) -> teardown t s = (Ok tt, s).
Proof.
  destruct t; simpl.
  - apply closePage_null.
  - apply closeContext_null.
  - intros (? & ? & ?). now apply closeBrowser_null.
  - intros (? & ? & ?). now apply closeBrowser_null.
Qed.

Lemma closePage_returns (s : State) :
  reliable isClose -> exists s1, closePage s = (Ok tt, s1).
Proof.
  intros R. unfold closePage. run. destruct (page (mgr s)).
  - answer; [eauto | trusted R].
  - eauto.
Qed.

Lemma closeContext_returns (s : State) :
  reliable isClose -> exists s1, closeContext s = (Ok tt, s1).
Proof.
  intros R. unfold closeContext. run. destruct (context (mgr s)).
  - answer; [eauto | trusted R].
  - eauto.
Qed.

Lemma closeBrowser_returns (s : State) :
  reliable isClose -> exists s1, closeBrowser s = (Ok tt, s1).
Proof.
  intros R. unfold closeBrowser, bind at 1.
  destruct (closePage_returns s R) as (sa & ->).
  unfold bind at 1.
  destruct (closeContext_returns sa R) as (sb & ->).
  run. destruct (browser (mgr sb)).
  - answer; [eauto | trusted R].
  - eauto.
Qed.

Lemma teardown_returns (t : Teardown) (s : State) :
  reliable isClose ->
  exists s1, teardown t s = (Ok tt, s1) /\ released t (mgr s1).
Proof.
  intros R. destruct t; simpl.
  - destruct (closePage_returns s R) as (s1 & E). exists s1. split; auto.
    apply (closePage_nulls _ E).
  - destruct (closeContext_returns s R) as (s1 & E). exists s1. split; auto.
    apply (closeContext_nulls _ E).
  - destruct (closeBrowser_returns s R) as (s1 & E). exists s1. split; auto.
    apply (closeBrowser_nulls _ E).
  - destruct (closeBrowser_returns s R) as (s1 & E). exists s1. split; auto.
    apply (closeBrowser_nulls _ E).
Qed.

Lemma teardowns_staysNull (ts : list Teardown) (s : State) :
  staysNull (mgr s) (mgr (snd (teardowns ts s))).
Proof.
  revert s; induction ts as [|t ts IH]; intros s; simpl.
  - apply staysNull_refl.
  - unfold bind. pose proof (teardown_staysNull t s) as H.
    destruct (teardown t s) as [[[]|e] s1]; simpl in H; [|exact H].
    exact (staysNull_trans H (IH s1)).
Qed.

End TeardownFacts.

(** C4 (as the code has it). On a platform whose three [close()] calls do
    not throw, every sequence of [closePage], [closeContext],
    [closeBrowser] and [cleanup] calls, in any order and multiplicity and
    from any state of the manager, returns without throwing; afterwards
    the handles of every call in the sequence are null, and running the
    whole sequence again returns at once and changes nothing (no further
    call reaches the platform). *)
Theorem teardown_never_throws (pf : Platform) :
  reliable isClose ->
  forall (ts : list Teardown) (s : State),
  exists s',
    teardowns ts s = (Ok tt, s')
    /\ Forall (fun t => released t (mgr s')) ts
    /\ teardowns ts s' = (Ok tt, s').
Proof.
  intros R ts. induction ts as [|t ts IH]; intros s; simpl.
  - exists s. repeat split; auto.
  - destruct (teardown_returns t s R) as (s1 & E1 & Rel1).
    destruct (IH s1) as (s' & E' & F' & Again).
    assert (Rel' : released t (mgr s')).
    { apply (released_staysNull t (m := mgr s1)); auto.
      pose proof (teardowns_staysNull ts s1) as H. now rewrite E' in H. }
    exists s'. unfold bind. rewrite E1. repeat split; auto.
    rewrite (teardown_released t s' Rel'). exact Again.
Qed.

Lemma teardown_never_throws_witness :
  exists s',
    teardowns [CallClosePage; CallClosePage; CallCloseContext;
               CallCloseBrowser; CallClosePage] quietLive = (Ok tt, s')
    /\ Forall (fun t => released t (mgr s'))
         [CallClosePage; CallClosePage; CallCloseContext;
          CallCloseBrowser; CallClosePage]
    /\ teardowns [CallClosePage; CallClosePage; CallCloseContext;
                  CallCloseBrowser; CallClosePage] s' = (Ok tt, s').
Proof.
  apply (@teardown_never_throws Sim.quiet).
  intros A o w _. reflexivity.
Defined.

(** C4 as stated fails: with a live page on a host whose [page.close()]
    rejects, [closePage()] throws, and the page handle is still set. *)
Lemma closePage_propagates_close_error :
  page (mgr stuckLive) = Some (PageObj 4)
  /\ fst (teardowns [CallClosePage] stuckLive) = Throw Sim.boom
  /\ page (mgr (snd (teardowns [CallClosePage] stuckLive)))
     = Some (PageObj 4).
Proof. vm_compute. repeat split. Qed.

Section CountFacts.
Context {pf : Platform}.

Lemma countOf_app f (a b : list event) :
  countOf f (a ++ b) = countOf f a + countOf f b.
Proof. unfold countOf. now rewrite filter_app, length_app. Qed.

Lemma countOf_none f (d : list event) :
  Forall (fun ev => f ev = false) d -> countOf f d = 0.
Proof.
  unfold countOf. induction 1 as [|ev d H _ IH]; simpl; auto.
  now rewrite H.
Qed.

Lemma emits_count {A} f (m : M A) (s : State) :
  emits (fun ev => f ev = false) m ->
  countOf f (trace (snd (m s))) = countOf f (trace s).
Proof.
  intros H. destruct (H s) as (d & -> & F).
  rewrite countOf_app, (countOf_none f F). lia.
Qed.

(** What follows a computation, or handles its exception, adds nothing to
    a count when it emits no counted event. *)
Lemma count_bind_rest {A B} f (m : M A) (k : A -> M B) (s : State) :
  (forall a, emits (fun ev => f ev = false) (k a)) ->
  countOf f (trace (snd (bind m k s))) = countOf f (trace (snd (m s))).
Proof.
  intros H. unfold bind. destruct (m s) as [[a|e] s1]; simpl; auto.
  now apply emits_count.
Qed.

Lemma count_tryCatch_handler {A} f (m : M A) (h : exn -> M A) (s : State) :
  (forall e, emits (fun ev => f ev = false) (h e)) ->
  countOf f (trace (snd (tryCatch m h s))) = countOf f (trace (snd (m s))).
Proof.
  intros H. unfold tryCatch. destruct (m s) as [[a|e] s1]; simpl; auto.
  now apply emits_count.
Qed.

End CountFacts.

(** ** PlaywrightManager: handles *)

Section HandleFacts.
Context {pf : Platform}.
Import PlaywrightManager.

Lemma launchBrowser_live (s : State) (b : Browser) :
  browser (mgr s) = Some b -> launchBrowser s = (Ok b, s).
Proof.
  intros H. unfold launchBrowser, bind, getMgr. now rewrite H.
Qed.

(** A launch that returns has stored the handle it returns. *)
Lemma launchBrowser_stores (s s1 : State) (b : Browser) :
  launchBrowser s = (Ok b, s1) -> browser (mgr s1) = Some b.
Proof.
  unfold launchBrowser, bind, getMgr, log, call, setBrowser, setMgr, ret.
  simpl. destruct (browser (mgr s)) as [b0|] eqn:E.
  - intros [= <- <-]. exact E.
  - simpl. destruct (perform _ _) as [[b1|e] w1]; simpl; intros [= <- <-].
    reflexivity.
Qed.

(** Two launches in succession: the second returns the handle of the
    first and changes nothing. *)
Lemma launchBrowser_twice (s s1 : State) (b : Browser) :
  launchBrowser s = (Ok b, s1) -> launchBrowser s1 = (Ok b, s1).
Proof.
  intros H. apply launchBrowser_live. exact (launchBrowser_stores _ H).
Qed.

(** The [switch]: Firefox and WebKit by name, Chromium for every other
    value. *)
Lemma engineOf_spec (browserType : jsstring) :
  (engineOf browserType = firefox <-> browserType = js "firefox")
  /\ (engineOf browserType = webkit <-> browserType = js "webkit")
  /\ (engineOf browserType = chromium
      <-> browserType <> js "firefox" /\ browserType <> js "webkit").
Proof.
  unfold engineOf.
  pose proof (jseqb_eq browserType (js "firefox")) as F.
  pose proof (jseqb_eq browserType (js "webkit")) as W.
  assert (D : js "firefox" <> js "webkit") by discriminate.
  destruct (jseqb browserType (js "firefox"));
    [|destruct (jseqb browserType (js "webkit"))];
    (split; [|split]); split; intros H; try discriminate H;
    try (destruct H as (H1 & H2)); try split; try intros E;
    try (apply F; reflexivity); try (apply W; reflexivity);
    try reflexivity;
    intuition congruence.
Qed.

(** With no handle yet, the engine is the one the [switch] selects for
    the lower-cased setting, and it is launched once. *)
Lemma launchBrowser_fresh (s : State) :
  browser (mgr s) = None ->
  exists r,
    trace (snd (launchBrowser s))
    = trace s
      ++ [Log Info (js "Launching browser: " ++ toLowerCase (Env.BROWSER Env.ENV))
              None;
          Call (Launch (engineOf (toLowerCase (Env.BROWSER Env.ENV)))
                  {| lo_headless := Env.HEADLESS Env.ENV;
                     lo_slowMo := Some (Env.SLOW_MO Env.ENV) |}) r].
Proof.
  intros H.
  unfold launchBrowser, bind, getMgr, log, call, setBrowser, setMgr, ret.
  simpl. rewrite H. simpl.
  destruct (perform _ _) as [[b1|e] w1]; simpl;
    eexists; rewrite <- app_assoc; reflexivity.
Qed.

End HandleFacts.

(** C2. For every platform, hence every value of the [BROWSER] setting
    (firefox, webkit, chromium or anything else), [launchBrowser()] called
    while a browser handle is live returns that very handle and leaves the
    manager, the platform and the trace as they were: no second browser is
    launched. *)
Theorem launchBrowser_idempotent (pf : Platform) (s : State) (b : Browser) :
  browser (mgr s) = Some b ->
  PlaywrightManager.launchBrowser s = (Ok b, s)
  /\ countOf isLaunch (trace (snd (PlaywrightManager.launchBrowser s)))
     = countOf isLaunch (trace s).
Proof.
  intros H. rewrite (launchBrowser_live _ H). split; reflexivity.
Qed.

Lemma launchBrowser_idempotent_witness :
  PlaywrightManager.launchBrowser firefoxLaunched
  = (Ok (BrowserObj 0), firefoxLaunched)
  /\ countOf isLaunch
       (trace (snd (PlaywrightManager.launchBrowser firefoxLaunched)))
     = countOf isLaunch (trace firefoxLaunched).
Proof.
  apply (@launchBrowser_idempotent Sim.tracing firefoxLaunched (BrowserObj 0)).
  reflexivity.
Defined.




(** ** BasePage: element-state probes *)

(** C9. [isVisible] and [isEnabled] always return a boolean: the answer
    of the underlying probe when it answers, [false] when it throws. *)
Theorem probes_total (pf : Platform) (page : Page) (l : Locator)
    (s : State) :
  fst (BasePage.isVisible page l s)
  = Ok (match fst (perform (IsVisible page l None) (world s)) with
        | Ok visible => visible
        | Throw _ => false
        end)
  /\ fst (BasePage.isEnabled page l s)
     = Ok (match fst (perform (IsEnabled page l) (world s)) with
           | Ok enabled => enabled
           | Throw _ => false
           end).
Proof.
  unfold BasePage.isVisible, BasePage.isEnabled. run.
  split; answer; reflexivity.
Qed.

(** ** hooks.ts: the per-step screenshot *)

Section StepScreenshot.
Context {pf : Platform}.
Import PlaywrightManager Env Hooks.

Lemma takeScreenshot_count (name : option jsstring) (s : State) (p : Page) :
  page (mgr s) = Some p ->
  countOf isScreenshot (trace (snd (takeScreenshot name s)))
  = countOf isScreenshot (trace s) + 1.
Proof.
  intros Hp. unfold takeScreenshot, bind at 1, getMgr. rewrite Hp.
  unfold bind at 1, call at 1.
  destruct (perform (Screenshot p) (world s)) as [[buf|e] w1]; simpl.
  - match goal with |- context [snd (?m ?s1)] =>
      rewrite (@emits_count _ _ isScreenshot m s1)
    end.
    + simpl. rewrite countOf_app. reflexivity.
    + apply emits_bind; [|intros; apply emits_ret].
      destruct name as [[|c n]|]; try apply emits_ret.
      apply emits_bind; [apply emits_fsExistsSync|]. intros found.
      apply emits_bind.
      * destruct found; [apply emits_ret | now apply emits_call].
      * intros _. now apply emits_call.
  - rewrite countOf_app. reflexivity.
Qed.

Lemma AfterStep_count (world : HookWorldContext)
    (stepText status : option jsstring) (s : State) (p : Page) :
  page (mgr s) = Some p ->
  countOf isScreenshot (trace (snd (AfterStep world stepText status s)))
  = countOf isScreenshot (trace s)
    + (if SCREENSHOT_EACH_STEP ENV then 1 else 0).
Proof.
  intros Hp. unfold AfterStep.
  destruct (SCREENSHOT_EACH_STEP ENV); cbn [negb]; [|simpl; lia].
  rewrite count_bind_rest by (intros; apply emits_ret).
  rewrite count_tryCatch_handler by (intros; now apply emits_log).
  rewrite count_bind_rest.
  - now apply (takeScreenshot_count _ s Hp).
  - intros buf. apply emits_bind; [now apply emits_call|].
    intros _. now apply emits_log.
Qed.

End StepScreenshot.

(** C10. [SCREENSHOT_EACH_STEP] is true for every value of the variable
    but the string [false], and so when it is unset; the three other
    toggles are true for the string [true] alone.  With the flag off
    [AfterStep] returns at once and asks nothing of the platform; with a
    page open, it takes one screenshot exactly when the flag is on. *)
Theorem screenshot_each_step_gate (pf : Platform) :
  (Env.SCREENSHOT_EACH_STEP Env.ENV = true
   <-> env_SCREENSHOT_EACH_STEP process_env <> Some (js "false"))
  /\ (env_SCREENSHOT_EACH_STEP process_env = None ->
      Env.SCREENSHOT_EACH_STEP Env.ENV = true)
  /\ (Env.SCREENSHOT_ON_FAILURE Env.ENV = true
      <-> env_SCREENSHOT_ON_FAILURE process_env = Some (js "true"))
  /\ (Env.VIDEO_ON_FAILURE Env.ENV = true
      <-> env_VIDEO_ON_FAILURE process_env = Some (js "true"))
  /\ (Env.TRACE_ON_FAILURE Env.ENV = true
      <-> env_TRACE_ON_FAILURE process_env = Some (js "true"))
  /\ (forall world stepText status (s : State),
        Env.SCREENSHOT_EACH_STEP Env.ENV = false ->
        Hooks.AfterStep world stepText status s = (Ok world, s))
  /\ (forall world stepText status (s : State) (p : Page),
        page (mgr s) = Some p ->
        countOf isScreenshot
          (trace (snd (Hooks.AfterStep world stepText status s)))
        = countOf isScreenshot (trace s)
          + (if Env.SCREENSHOT_EACH_STEP Env.ENV then 1 else 0)).
Proof.
  split; [apply SCREENSHOT_EACH_STEP_spec|].
  split; [intros H; apply SCREENSHOT_EACH_STEP_spec; rewrite H; discriminate|].
  split; [apply strictEq_true|].
  split; [apply strictEq_true|].
  split; [apply strictEq_true|].
  split.
  - intros world stepText status s H. unfold Hooks.AfterStep. now rewrite H.
  - intros world stepText status s p Hp. now apply (AfterStep_count _ _ _ s Hp).
Qed.

Lemma screenshot_each_step_gate_witness :
  Env.SCREENSHOT_EACH_STEP (@Env.ENV Sim.quiet) = true
  /\ countOf isScreenshot
       (trace (snd (Hooks.AfterStep
                      {| Hooks._scenarioName := Some (js "Footer links");
                         Hooks._stepIndex := Some 0%N |}
                      (Some (js "the footer should be visible"))
                      (Some (js "PASSED")) quietLive)))
     = countOf isScreenshot (trace quietLive) + 1.
Proof.
  destruct (@screenshot_each_step_gate Sim.quiet) as (_ & U & _ & _ & _ & _ & C).
  split.
  - apply U. reflexivity.
  - apply (C _ _ _ quietLive (PageObj 4)). reflexivity.
Defined.

(** ** Trimming *)

Lemma trimStart_fixed (c : N) (s : jsstring) :
  isWhiteSpace c = false -> trimStart (c :: s) = c :: s.
Proof. intros H. simpl. now rewrite H. Qed.

Lemma trimStart_snoc (s : jsstring) (c : N) :
  trimStart (s ++ [c])
  = match trimStart s with
    | [] => if isWhiteSpace c then [] else [c]
    | y => y ++ [c]
    end.
Proof.
  induction s as [|x s IH]; simpl; [reflexivity|].
  destruct (isWhiteSpace x); [exact IH | reflexivity].
Qed.

Lemma trimEnd_cons (c : N) (s : jsstring) :
  trimEnd (c :: s)
  = match trimEnd s with
    | [] => if isWhiteSpace c then [] else [c]
    | y => c :: y
    end.
Proof.
  unfold trimEnd. simpl rev at 2. rewrite trimStart_snoc.
  destruct (trimStart (rev s)) as [|y ys] eqn:E.
  - simpl. now destruct (isWhiteSpace c).
  - rewrite rev_app_distr. simpl rev at 1. simpl.
    destruct (rev ys ++ [y]) eqn:E'; [|reflexivity].
    now destruct (rev ys).
Qed.

Lemma trimStart_idem (s : jsstring) : trimStart (trimStart s) = trimStart s.
Proof.
  induction s as [|c s IH]; simpl; [reflexivity|].
  destruct (isWhiteSpace c) eqn:E; [exact IH | now apply trimStart_fixed].
Qed.

Lemma trimEnd_idem (s : jsstring) : trimEnd (trimEnd s) = trimEnd s.
Proof.
  unfold trimEnd. now rewrite rev_involutive, trimStart_idem.
Qed.

(** What [trimStart] returns does not begin with white space. *)
Lemma trimStart_head (s : jsstring) :
  match trimStart s with
  | [] => True
  | c :: _ => isWhiteSpace c = false
  end.
Proof.
  induction s as [|c s IH]; simpl; [exact I|].
  destruct (isWhiteSpace c) eqn:E; [exact IH | exact E].
Qed.

Lemma trimStart_trimEnd (s : jsstring) :
  trimStart s = s -> trimStart (trimEnd s) = trimEnd s.
Proof.
  intros H. pose proof (trimStart_head s) as Hd. rewrite H in Hd.
  destruct s as [|c s]; [reflexivity|].
  rewrite trimEnd_cons. rewrite Hd.
  destruct (trimEnd s); now apply trimStart_fixed.
Qed.

Lemma trim_idem (s : jsstring) : trim (trim s) = trim s.
Proof.
  unfold trim.
  rewrite (trimStart_trimEnd (trimStart_idem s)).
  apply trimEnd_idem.
Qed.

Lemma filter_all_iff {A} (f : A -> bool) (l : list A) :
  List.length (filter f l) = List.length l <-> Forall (fun x => f x = true) l.
Proof.
  induction l as [|x l IH]; simpl.
  - split; auto.
  - pose proof (filter_length_le f l) as Le.
    destruct (f x) eqn:E; simpl.
    + split.
      * intros [= H]. constructor; auto. now apply IH.
      * intros H. inversion H; subst. f_equal. now apply IH.
    + split.
      * intros H. lia.
      * intros H. inversion H; subst. congruence.
Qed.

Lemma nonempty_length (t : jsstring) :
  (0 <? List.length t)%nat = true <-> t <> [].
Proof.
  destruct t; simpl; split; try discriminate; try congruence; auto.
Qed.

(** ** HomePage: footer link texts *)

(** C8 (as the code has it). When scrolling and reading succeed on a page
    with five footer anchors, [getFooterLinkTexts] returns the trimmed
    anchor texts that are not empty, in document order: at most five
    strings, each non-empty and equal to its own trimming, and exactly
    five if and only if no anchor text is blank. *)
Theorem getFooterLinkTexts_trimmed_nonempty (pf : Platform) (page : Page)
    (s : State) (w1 w2 : World) (texts : list jsstring) :
  perform (ScrollToBottom page) (world s) = (Ok tt, w1) ->
  perform (AllTextContents page HomePage.footerLinks) w1 = (Ok texts, w2) ->
  List.length texts = 5 ->
  exists out,
    fst (HomePage.getFooterLinkTexts page s) = Ok out
    /\ out = filter (fun t => (0 <? List.length t)%nat) (map trim texts)
    /\ List.length out <= 5
    /\ Forall (fun t => t <> [] /\ trim t = t) out
    /\ (List.length out = 5 <-> Forall (fun t => trim t <> []) texts).
Proof.
  intros Hs Ht Hn.
  exists (filter (fun t => (0 <? List.length t)%nat) (map trim texts)).
  split.
  { unfold HomePage.getFooterLinkTexts, BasePage.scrollToBottom,
      BasePage.getAllTexts. run. rewrite Hs. simpl. rewrite Ht. reflexivity. }
  split; [reflexivity|].
  split.
  { rewrite <- Hn, <- (length_map trim texts). apply filter_length_le. }
  split.
  { apply Forall_forall. intros t Hin. apply filter_In in Hin.
    destruct Hin as (Hin & Hne). apply nonempty_length in Hne.
    split; [exact Hne|]. apply in_map_iff in Hin.
    destruct Hin as (t0 & <- & _). apply trim_idem. }
  rewrite <- Hn, <- (length_map trim texts), filter_all_iff.
  rewrite Forall_map.
  split; intros H; (eapply Forall_impl; [|exact H]); intros t;
    apply nonempty_length.
Qed.

Lemma getFooterLinkTexts_trimmed_nonempty_witness :
  exists out,
    fst (@HomePage.getFooterLinkTexts Sim.iconFooter (PageObj 4)
           (Sim.start Sim.iconFooter 7%N)) = Ok out
    /\ out = filter (fun t => (0 <? List.length t)%nat)
               (map trim Sim.footerTexts)
    /\ List.length out <= 5
    /\ Forall (fun t => t <> [] /\ trim t = t) out
    /\ (List.length out = 5 <-> Forall (fun t => trim t <> []) Sim.footerTexts).
Proof.
  apply (@getFooterLinkTexts_trimmed_nonempty Sim.iconFooter (PageObj 4)
           (Sim.start Sim.iconFooter 7%N) 8%N 9%N Sim.footerTexts);
    reflexivity.
Defined.

(** C8 as stated fails: five footer anchors, one of them with a blank
    text, give four strings. *)
Lemma five_anchors_four_texts :
  List.length Sim.footerTexts = 5
  /\ fst (@HomePage.getFooterLinkTexts Sim.iconFooter (PageObj 4)
            (Sim.start Sim.iconFooter 7%N))
     = Ok [js "Home"; js "About"; js "Terms"; js "Privacy"].
Proof. split; reflexivity. Qed.

(** ** Trace file names *)

Lemma digitsOfUint_inj (d d' : Decimal.uint) :
  digitsOfUint d = digitsOfUint d' -> d = d'.
Proof.
  revert d'; induction d as [|d IH|d IH|d IH|d IH|d IH|d IH|d IH|d IH|d IH|d IH];
    intros [|d'|d'|d'|d'|d'|d'|d'|d'|d'|d']; simpl; intros H;
    try discriminate H; try reflexivity;
    injection H as H; f_equal; auto.
Qed.

Lemma digitsOf_inj (n n' : N) : digitsOf n = digitsOf n' -> n = n'.
Proof.
  intros H. apply DecimalN.Unsigned.to_uint_inj.
  now apply digitsOfUint_inj.
Qed.

Lemma digitsOfUint_plain (d : Decimal.uint) : ~ In underscore (digitsOfUint d).
Proof.
  induction d; simpl; [intros [] | ..]; intros [H|H];
    try discriminate H; auto.
Qed.

(** Two strings split at their first underscore agree part by part. *)
Lemma split_at_underscore (a a' b b' : jsstring) :
  ~ In underscore a -> ~ In underscore a' ->
  a ++ underscore :: b = a' ++ underscore :: b' -> a = a' /\ b = b'.
Proof.
  revert a'; induction a as [|x a IH]; intros [|x' a'] Ha Ha'; simpl.
  - intros [= ->]; auto.
  - intros [= <- _]. exfalso; apply Ha'; now left.
  - intros [= -> _]. exfalso; apply Ha; now left.
  - intros [= -> H]. destruct (IH a') as (-> & ->); auto.
    + intros K; apply Ha; now right.
    + intros K; apply Ha'; now right.
Qed.

Lemma tracePathOf_inj (scenarioName : jsstring) (pid1 t1 pid2 t2 : N) :
  PlaywrightManager.tracePathOf scenarioName pid1 t1
  = PlaywrightManager.tracePathOf scenarioName pid2 t2 ->
  pid1 = pid2 /\ t1 = t2.
Proof.
  unfold PlaywrightManager.tracePathOf, PlaywrightManager.traceFileName,
    pathJoin.
  intros H.
  do 3 apply app_inv_head in H.
  change (js "_") with [underscore] in H. simpl app in H.
  injection H as H.
  apply split_at_underscore in H; try apply digitsOfUint_plain.
  destruct H as (Hp & Ht). apply app_inv_tail in Ht.
  split; now apply digitsOf_inj.
Qed.

Section SaveTrace.
Context {pf : Platform}.
Import PlaywrightManager Env.

Lemma saveTrace_null (scenarioName : jsstring) (s : State) :
  context (mgr s) = None \/ TRACE_ON_FAILURE ENV = false ->
  saveTrace scenarioName s = (Ok None, s).
Proof.
  unfold saveTrace. run. intros [H|H].
  - now rewrite H.
  - rewrite H. now destruct (context (mgr s)).
Qed.

(** With a context and tracing on, [saveTrace] makes the traces directory
    when it is missing, reads the clock, and stops the trace into the file
    named after the scenario, the process and that reading of the clock.
    It throws what [mkdirSync] or [tracing.stop] throws, and returns the
    path otherwise. *)
Lemma saveTrace_live (scenarioName : jsstring) (s : State)
    (c : BrowserContext) :
  context (mgr s) = Some c -> TRACE_ON_FAILURE ENV = true ->
  let path :=
    tracePathOf scenarioName process_pid
      (dateNow (tracesDirMade (world s))) in
  (if existsSync (js "test-results/traces") (world s) then False
   else exists e,
          fst (perform (MkdirSync (js "test-results/traces")) (world s))
          = Throw e
          /\ fst (saveTrace scenarioName s) = Throw e)
  \/ ((existsSync (js "test-results/traces") (world s) = false ->
       fst (perform (MkdirSync (js "test-results/traces")) (world s))
       = Ok tt)
      /\ match fst (perform (TracingStop c path)
                      (tracesDirMade (world s))) with
         | Ok _ =>
             fst (saveTrace scenarioName s) = Ok (Some path)
             /\ In (Call (TracingStop c path) (Ok tt))
                   (trace (snd (saveTrace scenarioName s)))
         | Throw e => fst (saveTrace scenarioName s) = Throw e
         end).
Proof.
  intros Hc Ht path. subst path. unfold saveTrace, tracesDirMade. run.
  rewrite Hc, Ht. cbn.
  destruct (existsSync _ (world s)) eqn:Ex; cbn.
  - right. split; [discriminate|].
    destruct (perform (TracingStop c _) (world s)) as [[[]|e] w1]; cbn.
    + split; [reflexivity|].
      apply in_or_app. left. apply in_or_app. right. now left.
    + reflexivity.
  - destruct (perform (MkdirSync _) (world s)) as [[[]|e] w0]; cbn.
    + right. split; [reflexivity|].
      destruct (perform (TracingStop c _) w0) as [[[]|e] w1]; cbn.
      * split; [reflexivity|].
        apply in_or_app. left. apply in_or_app. right. now left.
      * reflexivity.
    + left. exists e. now split.
Qed.

(** What [saveTrace] has done when it returns. *)
Lemma saveTrace_returned (scenarioName : jsstring) (s : State)
    (r : option jsstring) :
  fst (saveTrace scenarioName s) = Ok r ->
  (r = None /\ (context (mgr s) = None \/ TRACE_ON_FAILURE ENV = false))
  \/ exists c,
       r = Some (tracePathOf scenarioName process_pid
                   (dateNow (tracesDirMade (world s))))
       /\ context (mgr s) = Some c
       /\ In (Call (TracingStop c
                      (tracePathOf scenarioName process_pid
                         (dateNow (tracesDirMade (world s))))) (Ok tt))
             (trace (snd (saveTrace scenarioName s))).
Proof.
  intros Hr.
  assert (Null : context (mgr s) = None \/ TRACE_ON_FAILURE ENV = false ->
                 r = None).
  { intros K. rewrite (saveTrace_null scenarioName s K) in Hr.
    now injection Hr as <-. }
  destruct (context (mgr s)) as [c|] eqn:Hc; [|left; auto].
  destruct (TRACE_ON_FAILURE ENV) eqn:Ht; [|left; auto].
  right. exists c.
  destruct (saveTrace_live scenarioName s Hc Ht) as [E|(_ & E)].
  - destruct (existsSync _ (world s)); [contradiction|].
    destruct E as (e & _ & E). rewrite E in Hr. discriminate.
  - destruct (fst (perform (TracingStop c _) _)).
    + destruct E as (E & I). rewrite E in Hr. injection Hr as <-.
      now repeat split.
    + rewrite E in Hr. discriminate.
Qed.

End SaveTrace.

(** C7 (as the code has it). [saveTrace] returns [null] if and only if no
    context is live or tracing is disabled, and then does nothing at all.
    Any path it returns is
    [test-results/traces/<sanitized name or 'scenario'>_<pid>_<ms>.zip],
    where [<pid>] is the process id and [<ms>] is what [Date.now()] gave
    once the traces directory was there, and the trace has been stopped
    into that file.  With a context and tracing on, that path is returned
    whenever [mkdirSync], if it was needed, and [tracing.stop] succeed.
    For one scenario name, two paths are equal only if both the process
    id and the timestamp are: the paths returned to two scenarios of that
    name, in one process or in two, collide exactly when the process ids
    are equal and the clock gave both the same millisecond. *)
Theorem saveTrace_null_iff_and_distinct_paths (pf : Platform)
    (scenarioName : jsstring) (s : State) :
  (fst (PlaywrightManager.saveTrace scenarioName s) = Ok None
   <-> context (mgr s) = None \/ Env.TRACE_ON_FAILURE Env.ENV = false)
  /\ (context (mgr s) = None \/ Env.TRACE_ON_FAILURE Env.ENV = false ->
      PlaywrightManager.saveTrace scenarioName s = (Ok None, s))
  /\ (forall path,
        fst (PlaywrightManager.saveTrace scenarioName s) = Ok (Some path) ->
        exists c,
          context (mgr s) = Some c
          /\ path = PlaywrightManager.tracePathOf scenarioName process_pid
                      (dateNow (tracesDirMade (world s)))
          /\ In (Call (TracingStop c path) (Ok tt))
                (trace (snd (PlaywrightManager.saveTrace scenarioName s))))
  /\ (forall c,
        context (mgr s) = Some c ->
        Env.TRACE_ON_FAILURE Env.ENV = true ->
        (existsSync (js "test-results/traces") (world s) = false ->
         fst (perform (MkdirSync (js "test-results/traces")) (world s))
         = Ok tt) ->
        fst (perform
               (TracingStop c
                  (PlaywrightManager.tracePathOf scenarioName process_pid
                     (dateNow (tracesDirMade (world s)))))
               (tracesDirMade (world s))) = Ok tt ->
        fst (PlaywrightManager.saveTrace scenarioName s)
        = Ok (Some (PlaywrightManager.tracePathOf scenarioName process_pid
                      (dateNow (tracesDirMade (world s))))))
  /\ (forall pid1 t1 pid2 t2,
        PlaywrightManager.tracePathOf scenarioName pid1 t1
        = PlaywrightManager.tracePathOf scenarioName pid2 t2 ->
        pid1 = pid2 /\ t1 = t2)
  /\ (forall (other : Platform) (s2 : @State other) path1 path2,
        fst (PlaywrightManager.saveTrace scenarioName s) = Ok (Some path1) ->
        fst (@PlaywrightManager.saveTrace other scenarioName s2)
        = Ok (Some path2) ->
        (path1 = path2
         <-> @process_pid pf = @process_pid other
             /\ dateNow (tracesDirMade (world s))
                = dateNow (tracesDirMade (world s2)))).
Proof.
  split; [split|split; [|split; [|split; [|split]]]].
  - intros H. destruct (saveTrace_returned _ _ H) as [(_ & K)|(c & K & _)];
      [exact K|discriminate].
  - intros H. now rewrite (saveTrace_null scenarioName s H).
  - apply saveTrace_null.
  - intros path H.
    destruct (saveTrace_returned _ _ H) as [(K & _)|(c & K & Hc & I)];
      [discriminate|].
    injection K as ->. now exists c.
  - intros c Hc Ht Hm Hs.
    destruct (saveTrace_live scenarioName s Hc Ht) as [E|(_ & E)].
    + destruct (existsSync _ (world s)); [contradiction|].
      destruct E as (e & E & _). rewrite (Hm eq_refl) in E. discriminate.
    + rewrite Hs in E. exact (proj1 E).
  - apply tracePathOf_inj.
  - intros other s2 path1 path2 H1 H2.
    destruct (saveTrace_returned _ _ H1) as [(K & _)|(c1 & K1 & _)];
      [discriminate|].
    destruct (@saveTrace_returned other _ _ _ H2)
      as [(K & _)|(c2 & K2 & _)]; [discriminate|].
    injection K1 as ->. injection K2 as ->. split.
    + intros H. now apply tracePathOf_inj in H.
    + intros (-> & ->). reflexivity.
Qed.

Lemma saveTrace_null_iff_and_distinct_paths_witness :
  fst (PlaywrightManager.saveTrace (js "Footer: links!") tracingLive)
  = Ok (Some (js "test-results/traces/Footer_links_4242_1700000000006.zip")).
Proof.
  destruct (@saveTrace_null_iff_and_distinct_paths Sim.tracing
              (js "Footer: links!") tracingLive) as (_ & _ & _ & P & _).
  apply (P (ContextObj 1)); reflexivity.
Defined.

(** C7 as stated fails: with tracing enabled but no context,
    [saveTrace] returns [null]. *)
Lemma saveTrace_null_with_tracing_enabled :
  Env.TRACE_ON_FAILURE (@Env.ENV Sim.tracing) = true
  /\ @PlaywrightManager.saveTrace Sim.tracing (js "Footer: links!")
       (Sim.start Sim.tracing 0%N)
     = (Ok None, Sim.start Sim.tracing 0%N).
Proof. split; reflexivity. Qed.

(** ** PlaywrightManager: createContext *)

Section CreateContext.
Context {pf : Platform}.
Import PlaywrightManager Env.

Lemma createContext_storage (s s1 : State) (b : Browser) :
  reliable isContextSetup ->
  launchBrowser s = (Ok b, s1) ->
  exists c s',
    createContext s = (Ok c, s')
    /\ context (mgr s') = Some c
    /\ exists rest,
         trace s'
         = trace s1
           ++ (if existsSync (pathResolveCwd (STORAGE_STATE_PATH ENV))
                    (world s1)
               then [Log Info (js "Using stored authentication state") None;
                     Call (NewContext b
                             (authenticatedOptions
                                (pathResolveCwd (STORAGE_STATE_PATH ENV))
                                (VIDEO_ON_FAILURE ENV))) (Ok c)]
               else [Log Warn (js "No storage state found " ++ emDash
                               ++ js " proceeding without authentication")
                         None;
                     Call (NewContext b
                             (anonymousOptions (VIDEO_ON_FAILURE ENV)))
                          (Ok c)])
           ++ rest.
Proof.
  intros R HL.
  pose proof (launchBrowser_stores _ HL) as Hb.
  unfold createContext. unfold bind at 1, getMgr at 1.
  assert (E : (match browser (mgr s) with
               | Some _ => ret tt
               | None => _ <- launchBrowser;; ret tt
               end) s = (Ok tt, s1)).
  { destruct (browser (mgr s)) eqn:E0.
    - rewrite (launchBrowser_live _ E0) in HL. now injection HL as <- <-.
    - unfold bind. now rewrite HL. }
  unfold bind at 1. rewrite E. clear E.
  unfold nonNull. run.
  destruct (existsSync _ (world s1)) eqn:Ex; cbn; rewrite Hb; cbn;
    (answer; [|trusted R]); (answer; [|trusted R]); (answer; [|trusted R]);
    destruct (TRACE_ON_FAILURE ENV); cbn; try (answer; [|trusted R]);
    do 2 eexists; (split; [reflexivity|]); (split; [reflexivity|]);
    eexists; cbn; repeat rewrite <- app_assoc; cbn; reflexivity.
Qed.

(** Whatever the platform answers afterwards, the first things
    [createContext] does once the browser exists are the log line and the
    request for a context, with or without storage state. *)
Lemma createContext_requests (s s1 : State) (b : Browser) :
  launchBrowser s = (Ok b, s1) ->
  exists r rest,
    trace (snd (createContext s))
    = trace s1
      ++ (if existsSync (pathResolveCwd (STORAGE_STATE_PATH ENV)) (world s1)
          then [Log Info (js "Using stored authentication state") None;
                Call (NewContext b
                        (authenticatedOptions
                           (pathResolveCwd (STORAGE_STATE_PATH ENV))
                           (VIDEO_ON_FAILURE ENV))) r]
          else [Log Warn (js "No storage state found " ++ emDash
                          ++ js " proceeding without authentication") None;
                Call (NewContext b
                        (anonymousOptions (VIDEO_ON_FAILURE ENV))) r])
      ++ rest.
Proof.
  intros HL.
  pose proof (launchBrowser_stores _ HL) as Hb.
  unfold createContext. unfold bind at 1, getMgr at 1.
  assert (E : (match browser (mgr s) with
               | Some _ => ret tt
               | None => _ <- launchBrowser;; ret tt
               end) s = (Ok tt, s1)).
  { destruct (browser (mgr s)) eqn:E0.
    - rewrite (launchBrowser_live _ E0) in HL. now injection HL as <- <-.
    - unfold bind. now rewrite HL. }
  unfold bind at 1. rewrite E. clear E.
  unfold nonNull. run.
  destruct (existsSync _ (world s1)) eqn:Ex; cbn; rewrite Hb; cbn;
    repeat answer; destruct (TRACE_ON_FAILURE ENV); cbn; repeat answer;
    do 2 eexists; cbn; repeat rewrite <- app_assoc; cbn; reflexivity.
Qed.

End CreateContext.

(** C6. Once the browser exists (it is launched first when absent),
    [createContext()] logs what it found at the storage path and asks for
    a context: with no file there, it warns that it proceeds without
    authentication and the context is requested with no storage state;
    with the file there, the context is requested with that file as its
    storage state.  A missing file raises nothing: on a platform whose
    context-creation calls do not throw, [createContext()] returns the
    context it was given and stores it. *)
Theorem createContext_storage_state (pf : Platform) (s s1 : State)
    (b : Browser) :
  PlaywrightManager.launchBrowser s = (Ok b, s1) ->
  (existsSync (pathResolveCwd (Env.STORAGE_STATE_PATH Env.ENV)) (world s1)
   = false ->
   co_storageState (anonymousOptions (Env.VIDEO_ON_FAILURE Env.ENV)) = None
   /\ exists r rest,
        trace (snd (PlaywrightManager.createContext s))
        = trace s1
          ++ Log Warn (js "No storage state found "
                       ++ PlaywrightManager.emDash
                       ++ js " proceeding without authentication") None
          :: Call (NewContext b
                     (anonymousOptions (Env.VIDEO_ON_FAILURE Env.ENV))) r
          :: rest)
  /\ (existsSync (pathResolveCwd (Env.STORAGE_STATE_PATH Env.ENV)) (world s1)
      = true ->
      exists r rest,
        trace (snd (PlaywrightManager.createContext s))
        = trace s1
          ++ Log Info (js "Using stored authentication state") None
          :: Call (NewContext b
                     (authenticatedOptions
                        (pathResolveCwd (Env.STORAGE_STATE_PATH Env.ENV))
                        (Env.VIDEO_ON_FAILURE Env.ENV))) r
          :: rest)
  /\ (reliable isContextSetup ->
      exists c,
        fst (PlaywrightManager.createContext s) = Ok c
        /\ context (mgr (snd (PlaywrightManager.createContext s))) = Some c
        /\ exists o,
             In (Call (NewContext b o) (Ok c))
                (trace (snd (PlaywrightManager.createContext s)))
             /\ co_storageState o
                = if existsSync
                       (pathResolveCwd (Env.STORAGE_STATE_PATH Env.ENV))
                       (world s1)
                  then Some (pathResolveCwd (Env.STORAGE_STATE_PATH Env.ENV))
                  else None).
Proof.
  intros HL.
  destruct (@createContext_requests pf s s1 b HL) as (r & rest & T).
  split; [|split].
  - intros Ex. rewrite Ex in T. split; [reflexivity|]. now exists r, rest.
  - intros Ex. rewrite Ex in T. now exists r, rest.
  - intros R.
    destruct (@createContext_storage pf s s1 b R HL)
      as (c & s' & E & Hc & rest' & T').
    exists c. rewrite E. split; [reflexivity|]. split; [exact Hc|].
    cbn [snd]. rewrite T'.
    destruct (existsSync _ (world s1)); eexists;
      (split; [apply in_or_app; right; apply in_or_app; left; right; now left
              | reflexivity]).
Qed.

(** The quiet host does not throw from the context-creation calls. *)
Lemma quiet_is_reliable : reliable (pf := Sim.quiet) isContextSetup.
Proof. intros A o w _. reflexivity. Qed.

Lemma createContext_storage_state_witness :
  (co_storageState (anonymousOptions false) = None
   /\ exists r rest,
        trace (snd (@PlaywrightManager.createContext Sim.quiet
                      (Sim.start Sim.quiet 0%N)))
        = trace quietLaunched
          ++ Log Warn (js "No storage state found "
                       ++ PlaywrightManager.emDash
                       ++ js " proceeding without authentication") None
          :: Call (NewContext (BrowserObj 0) (anonymousOptions false)) r
          :: rest)
  /\ (exists c,
        fst (@PlaywrightManager.createContext Sim.quiet
               (Sim.start Sim.quiet 0%N)) = Ok c
        /\ context (mgr (snd (@PlaywrightManager.createContext Sim.quiet
                                (Sim.start Sim.quiet 0%N)))) = Some c
        /\ exists o,
             In (Call (NewContext (BrowserObj 0) o) (Ok c))
                (trace (snd (@PlaywrightManager.createContext Sim.quiet
                               (Sim.start Sim.quiet 0%N))))
             /\ co_storageState o = None).
Proof.
  destruct (@createContext_storage_state Sim.quiet (Sim.start Sim.quiet 0%N)
              quietLaunched (BrowserObj 0) eq_refl) as (A & _ & C).
  split; [exact (A eq_refl) | exact (C quiet_is_reliable)].
Defined.

(** ** global-setup.ts: the fallback loops *)

Lemma probed_app (a b : list event) : probed (a ++ b) = probed a ++ probed b.
Proof.
  induction a as [|ev a IH]; simpl; [reflexivity|].
  destruct (probeOf ev); simpl; now rewrite IH.
Qed.

(** The action of a loop is a click or a fill, never a probe. *)
Lemma probed_probe_action p l t r a l' r' rest :
  probed (Call (IsVisible p l t) r
          :: Call (GlobalSetup.actionOp p a l') r' :: rest)
  = l :: probed rest.
Proof. now destruct a. Qed.

Section Fallback.
Context {pf : Platform}.
Import GlobalSetup.

(** What one more failed attempt in front does to a search. *)
Lemma search_after_miss p action label selector rest (s s2 : State) d0 :
  attempt p action label selector false d0 ->
  probed d0 = [candidate selector] ->
  mgr s2 = mgr s -> trace s2 = trace s ++ d0 ->
  (exists found d,
     fst (trySelectors p action label rest s2) = Ok found
     /\ mgr (snd (trySelectors p action label rest s2)) = mgr s2
     /\ trace (snd (trySelectors p action label rest s2)) = trace s2 ++ d
     /\ search p action label rest found d
     /\ (if found
         then exists pre sel post,
                rest = pre ++ sel :: post
                /\ probed d = map candidate (pre ++ [sel])
         else probed d = map candidate rest)) ->
  exists found d,
    fst (trySelectors p action label rest s2) = Ok found
    /\ mgr (snd (trySelectors p action label rest s2)) = mgr s
    /\ trace (snd (trySelectors p action label rest s2)) = trace s ++ d
    /\ search p action label (selector :: rest) found d
    /\ (if found
        then exists pre sel post,
               selector :: rest = pre ++ sel :: post
               /\ probed d = map candidate (pre ++ [sel])
        else probed d = map candidate (selector :: rest)).
Proof.
  intros Ha Hp Hm Ht (found & d & E & M & T & S & P).
  exists found, (d0 ++ d).
  split; [exact E|]. split; [congruence|].
  split; [rewrite T, Ht; symmetry; apply app_assoc|].
  split; [now apply search_miss|].
  rewrite probed_app, Hp. destruct found.
  - destruct P as (pre & sel & post & -> & ->).
    now exists (selector :: pre), sel, post.
  - now rewrite P.
Qed.

End Fallback.

(** C1 (as the code has it). A fallback loop never throws and leaves the
    manager alone.  It tries the candidates in declaration order; a
    candidate fails when it is not visible, when its visibility probe
    throws, or when it is visible and the action on it (click or fill)
    throws, and the loop then goes on to the next candidate.  The loop
    stops at the first candidate that is visible and whose action
    returns: the candidates probed are exactly those up to and including
    that one, none after it.  Only when every candidate has failed does it
    end with nothing selected, having probed them all. *)
Theorem trySelectors_first_success (pf : Platform) (p : Page)
    (action : GlobalSetup.Action) (label : jsstring)
    (selectors : list jsstring) (s : State) :
  exists found d,
    fst (GlobalSetup.trySelectors p action label selectors s) = Ok found
    /\ mgr (snd (GlobalSetup.trySelectors p action label selectors s)) = mgr s
    /\ trace (snd (GlobalSetup.trySelectors p action label selectors s))
       = trace s ++ d
    /\ search p action label selectors found d
    /\ (if found
        then exists pre sel post,
               selectors = pre ++ sel :: post
               /\ probed d = map candidate (pre ++ [sel])
        else probed d = map candidate selectors).
Proof.
  revert s; induction selectors as [|selector rest IH]; intros s.
  - exists false, []. cbn. rewrite app_nil_r.
    repeat split. constructor.
  - cbn [GlobalSetup.trySelectors]. run.
    fold (candidate selector).
    destruct (perform (IsVisible p (candidate selector) (Some 3000%N))
                (world s)) as [[[|]|e] w1]; cbn.
    + destruct (perform (GlobalSetup.actionOp p action (candidate selector))
                  w1) as [[[]|e] w2]; cbn.
      * exists true, [Call (IsVisible p (candidate selector) (Some 3000%N))
                        (Ok true);
                      Call (GlobalSetup.actionOp p action
                              (candidate selector)) (Ok tt);
                      Log Info (label ++ selector) None].
        split; [reflexivity|]. split; [reflexivity|].
        split; [now repeat rewrite <- app_assoc|].
        split; [apply search_hit; constructor|].
        exists [], selector, rest. split; [reflexivity|].
        apply probed_probe_action.
      * eapply search_after_miss; [apply attempt_action_throws with (e := e)
                                  | apply probed_probe_action
                                  | reflexivity
                                  | cbn; now rewrite <- app_assoc
                                  | apply IH].
    + eapply search_after_miss; [apply attempt_not_visible | | | | apply IH];
        reflexivity.
    + eapply search_after_miss; [apply attempt_probe_throws with (e := e)
                                | | | | apply IH]; reflexivity.
Qed.

(** The spec's example: of four candidates only the third is visible; it
    is clicked and the fourth is never probed. *)
Example third_candidate_wins :
  let run :=
    @GlobalSetup.trySelectors Sim.thirdOnly (PageObj 4) GlobalSetup.click
      (js "   Clicked login element: ") [js "a"; js "b"; js "c"; js "d"]
      (Sim.start Sim.thirdOnly 5%N) in
  fst run = Ok true
  /\ probed (trace (snd run))
     = [candidate (js "a"); candidate (js "b"); candidate (js "c")]
  /\ In (Call (Click (PageObj 4) (candidate (js "c"))) (Ok tt))
        (trace (snd run)).
Proof. cbv zeta. repeat split. vm_compute. tauto. Qed.

(** C1 as stated fails: the first candidate is visible but clicking it
    throws; the loop swallows the exception and goes on to probe, and
    click, the second candidate. *)
Lemma search_continues_after_visible_candidate :
  fst (@GlobalSetup.trySelectors Sim.coveredLink (PageObj 4)
         GlobalSetup.click (js "   Clicked login element: ")
         [js "a"; js "b"] (Sim.start Sim.coveredLink 5%N)) = Ok true
  /\ probed (trace (snd
       (@GlobalSetup.trySelectors Sim.coveredLink (PageObj 4)
          GlobalSetup.click (js "   Clicked login element: ")
          [js "a"; js "b"] (Sim.start Sim.coveredLink 5%N))))
     = [candidate (js "a"); candidate (js "b")]
  /\ ~ stopsAtFirstVisible (trace (snd
       (@GlobalSetup.trySelectors Sim.coveredLink (PageObj 4)
          GlobalSetup.click (js "   Clicked login element: ")
          [js "a"; js "b"] (Sim.start Sim.coveredLink 5%N)))).
Proof.
  split; [reflexivity|]. split; [reflexivity|].
  intros H.
  specialize (H [] (PageObj 4) (candidate (js "a")) (Some 3000%N) _ eq_refl).
  discriminate H.
Qed.

(** ** global-setup.ts: catch and finally *)

Section Guarded.
Context {pf : Platform}.
Import GlobalSetup.

Lemma trySelectors_no_close p action label selectors :
  emits (fun ev => isBrowserClose ev = false)
        (trySelectors p action label selectors).
Proof.
  induction selectors as [|selector rest IH]; cbn [trySelectors].
  - apply emits_ret.
  - apply emits_bind.
    + apply emits_tryCatch; [|intros; apply emits_ret].
      apply emits_bind; [now apply emits_call|].
      intros [|]; [|apply emits_ret].
      apply emits_bind; [apply emits_call; now destruct action|].
      intros _. apply emits_bind; [now apply emits_log|].
      intros _. apply emits_ret.
    + intros [|]; [apply emits_ret | exact IH].
Qed.

Lemma loginFlow_no_close c p baseUrl email password storagePath :
  emits (fun ev => isBrowserClose ev = false)
        (loginFlow c p baseUrl email password storagePath).
Proof.
  unfold loginFlow.
  repeat first
    [ apply trySelectors_no_close
    | apply emits_ret
    | now apply emits_call
    | now apply emits_log
    | apply emits_if
    | apply emits_bind; [|intros ?] ].
Qed.

Lemma guardedFlow_outcome b c p baseUrl email password storagePath
    (s : State) :
  exists mid rc tail,
    trace (snd (guardedFlow b c p baseUrl email password storagePath s))
    = trace (snd (loginFlow c p baseUrl email password storagePath s))
      ++ mid ++ Call (BrowserClose b) rc :: tail
    /\ fst (guardedFlow b c p baseUrl email password storagePath s)
       = match rc with Ok _ => Ok tt | Throw e => Throw e end
    /\ match fst (loginFlow c p baseUrl email password storagePath s) with
       | Ok _ => mid = []
       | Throw e =>
           exists rs,
             mid = [Log Error (crossEmoji ++ js " Global setup failed:")
                        (Some e);
                    Call (StorageState c storagePath) rs;
                    match rs with
                    | Ok _ =>
                        Log Info (warnEmoji
                                  ++ js "  Partial storage state saved to: "
                                  ++ storagePath) None
                    | Throw e' =>
                        Log Error (js "Failed to save storage state:")
                            (Some e')
                    end]
       end
    /\ tail = match rc with
              | Ok _ => [Log Info (lockEmoji ++ js " Global setup completed")
                             None]
              | Throw _ => []
              end.
Proof.
  unfold guardedFlow, tryFinally, tryCatch.
  destruct (loginFlow c p baseUrl email password storagePath s)
    as [[[]|e] sf]; cbn [fst snd].
  - unfold releaseBrowser. run. answer.
    + exists [], (Ok tt). eexists. repeat split. now rewrite <- app_assoc.
    + exists []. eexists. exists []. repeat split.
  - unfold onFlowError, releaseBrowser. run. answer; answer.
    + eexists. exists (Ok tt). eexists. split; [|split; [|split]];
        [|reflexivity| exists (Ok tt); reflexivity | reflexivity].
      now repeat rewrite <- app_assoc.
    + eexists. eexists (Throw _). exists []. split; [|split; [|split]];
        [|reflexivity| exists (Ok tt); reflexivity | reflexivity].
      now repeat rewrite <- app_assoc.
    + eexists. exists (Ok tt). eexists. split; [|split; [|split]];
        [|reflexivity| eexists (Throw _); reflexivity | reflexivity].
      now repeat rewrite <- app_assoc.
    + eexists. eexists (Throw _). exists []. split; [|split; [|split]];
        [|reflexivity| eexists (Throw _); reflexivity | reflexivity].
      now repeat rewrite <- app_assoc.
Qed.

End Guarded.

(** C3 (as the code has it). Whatever happens in the login flow, the
    [try] statement of [globalSetup] ends by closing the browser, once,
    as its last call to the platform, and its outcome is the outcome of
    that close alone.  If the flow throws, the error is logged and the
    context state is persisted to the storage path once more before the
    close; when that persisting throws too, this is logged.  Neither the
    flow's exception nor the persisting's reaches the caller. *)
Theorem guardedFlow_persists_and_releases (pf : Platform) (b : Browser)
    (c : BrowserContext) (p : Page)
    (baseUrl email password storagePath : jsstring) (s : State) :
  exists mid rc tail,
    trace (snd (GlobalSetup.guardedFlow b c p baseUrl email password
                  storagePath s))
    = trace (snd (GlobalSetup.loginFlow c p baseUrl email password
                    storagePath s))
      ++ mid ++ Call (BrowserClose b) rc :: tail
    /\ fst (GlobalSetup.guardedFlow b c p baseUrl email password
              storagePath s)
       = match rc with Ok _ => Ok tt | Throw e => Throw e end
    /\ match fst (GlobalSetup.loginFlow c p baseUrl email password
                    storagePath s) with
       | Ok _ => mid = []
       | Throw e =>
           exists rs,
             mid = [Log Error (GlobalSetup.crossEmoji
                               ++ js " Global setup failed:") (Some e);
                    Call (StorageState c storagePath) rs;
                    match rs with
                    | Ok _ =>
                        Log Info (GlobalSetup.warnEmoji
                                  ++ js "  Partial storage state saved to: "
                                  ++ storagePath) None
                    | Throw e' =>
                        Log Error (js "Failed to save storage state:")
                            (Some e')
                    end]
       end
    /\ tail = match rc with
              | Ok _ => [Log Info (GlobalSetup.lockEmoji
                                   ++ js " Global setup completed") None]
              | Throw _ => []
              end
    /\ countOf isBrowserClose
         (trace (snd (GlobalSetup.guardedFlow b c p baseUrl email password
                        storagePath s)))
       = countOf isBrowserClose (trace s) + 1.
Proof.
  destruct (@guardedFlow_outcome pf b c p baseUrl email password storagePath s)
    as (mid & rc & tail & T & O & Hmid & Htail).
  exists mid, rc, tail. repeat (split; [assumption|]).
  rewrite T, !countOf_app.
  rewrite (emits_count isBrowserClose s
             (loginFlow_no_close c p baseUrl email password storagePath)).
  assert (Zmid : countOf isBrowserClose mid = 0).
  { destruct (fst (GlobalSetup.loginFlow c p baseUrl email password
                     storagePath s)).
    - now subst mid.
    - destruct Hmid as ([|] & ->); reflexivity. }
  assert (Ztail : countOf isBrowserClose tail = 0).
  { subst tail. now destruct rc. }
  rewrite Zmid. change (Call (BrowserClose b) rc :: tail)
    with ([Call (BrowserClose b) rc] ++ tail).
  rewrite countOf_app, Ztail. cbn. lia.
Qed.

(** C3 as stated fails: navigation throws inside the login flow, yet the
    [try] statement, and [globalSetup] as a whole, return normally: the
    failure is logged and never reaches the caller. *)
Lemma flow_failure_is_swallowed :
  fst (@GlobalSetup.loginFlow Sim.offline (ContextObj 2) (PageObj 3)
         (js "https://trade.multibank.io/") [] [] (js "/work/storage/auth.json")
         (Sim.start Sim.offline 4%N)) = Throw Sim.boom
  /\ fst (@GlobalSetup.guardedFlow Sim.offline (BrowserObj 1) (ContextObj 2)
            (PageObj 3) (js "https://trade.multibank.io/") [] []
            (js "/work/storage/auth.json") (Sim.start Sim.offline 4%N))
     = Ok tt
  /\ fst (@GlobalSetup.globalSetup Sim.offline (Sim.start Sim.offline 0%N))
     = Ok tt.
Proof. split; [reflexivity | split; reflexivity]. Qed.

(** ** Around the claims *)

Section Lifecycle.
Context {pf : Platform}.
Import PlaywrightManager.

Lemma createPage_stores (s s' : State) (p : Page) :
  createPage s = (Ok p, s') -> page (mgr s') = Some p.
Proof.
  unfold createPage. unfold bind at 1, getMgr at 1.
  unfold bind at 1.
  destruct ((match context (mgr s) with
             | Some _ => ret tt
             | None => _ <- createContext;; ret tt
             end) s) as [[[]|e] s1]; [|discriminate].
  unfold nonNull. run. destruct (context (mgr s1)); cbn; [|discriminate].
  answer; intros [= <- <-]. reflexivity.
Qed.

(** A scenario whose [Before] hook returned has a page, which is what
    [AfterStep] takes its screenshot of. *)
Lemma Before_opens_page world pickleName (s s' : State) world' :
  Hooks.Before world pickleName s = (Ok world', s') ->
  exists p, page (mgr s') = Some p.
Proof.
  unfold Hooks.Before. unfold bind at 1, log at 1.
  unfold bind at 1.
  destruct (launchBrowser _) as [[b|e] s1]; [|discriminate].
  unfold bind at 1.
  destruct (createContext s1) as [[c|e] s2]; [|discriminate].
  unfold bind at 1.
  destruct (createPage s2) as [[p|e] s3] eqn:E; [|discriminate].
  unfold ret. intros [= _ <-]. exists p. exact (createPage_stores _ E).
Qed.

End Lifecycle.

(** The browser of [globalSetup] is launched before the [try] statement
    is entered.  When creating the context throws, [globalSetup] throws
    and the browser it launched is not closed. *)
Remark browser_left_open_when_context_fails :
  fst (@GlobalSetup.globalSetup Sim.noContext (Sim.start Sim.noContext 0%N))
  = Throw Sim.boom
  /\ countOf isLaunch
       (trace (snd (@GlobalSetup.globalSetup Sim.noContext
                      (Sim.start Sim.noContext 0%N)))) = 1
  /\ countOf isBrowserClose
       (trace (snd (@GlobalSetup.globalSetup Sim.noContext
                      (Sim.start Sim.noContext 0%N)))) = 0.
Proof. split; [reflexivity | split; reflexivity]. Qed.

(* ================================================================== *)
(** * Further properties *)
(* ================================================================== *)

(** ** The artifact-name sanitizer *)

Lemma underscore_safe : isSafeChar underscore = true.
Proof. reflexivity. Qed.

Lemma replaceUnsafeRuns_safe (inRun : bool) (s : jsstring) :
  Forall (fun c => isSafeChar c = true) (replaceUnsafeRuns inRun s).
Proof.
  revert inRun; induction s as [|c s IH]; intros inRun; simpl; auto.
  destruct (isSafeChar c) eqn:E; [constructor; auto|].
  destruct inRun; [apply IH | constructor; [reflexivity | apply IH]].
Qed.

Lemma collapseUnderscores_tidy (inRun : bool) (s : jsstring) :
  Forall (fun c => isSafeChar c = true) s ->
  tidy inRun (collapseUnderscores inRun s) = true.
Proof.
  intros H; revert inRun; induction H as [|c s Hc _ IH]; intros inRun;
    simpl; auto.
  destruct (N.eqb c underscore) eqn:E.
  - destruct inRun; [apply IH|].
    simpl. now rewrite IH.
  - simpl. now rewrite Hc, E, IH.
Qed.

Lemma tidy_weaken (s : jsstring) : tidy true s = true -> tidy false s = true.
Proof.
  destruct s as [|c s]; simpl; auto.
  destruct (isSafeChar c); simpl; auto.
  destruct (N.eqb c underscore); simpl; auto. discriminate.
Qed.

Lemma tidy_safe (b : bool) (s : jsstring) :
  tidy b s = true -> Forall (fun c => isSafeChar c = true) s.
Proof.
  revert b; induction s as [|c s IH]; intros b; simpl; auto.
  rewrite andb_true_iff. intros (Hc & H). constructor; auto.
  destruct (N.eqb c underscore).
  - apply andb_true_iff in H. apply (IH true), H.
  - apply (IH false), H.
Qed.

(** Removing a final underscore keeps a name tidy and leaves none at the
    end. *)
Lemma stripTrailingUnderscore_tidy (b : bool) (s : jsstring) :
  tidy b s = true ->
  tidy b (stripTrailingUnderscore s) = true
  /\ endsWithUnderscore (stripTrailingUnderscore s) = false.
Proof.
  revert b; induction s as [|c s IH]; intros b; [now split|].
  destruct s as [|c' s'].
  - simpl. destruct (N.eqb c underscore) eqn:E; [now split|].
    intros H. split; [simpl; rewrite E; exact H|].
    unfold endsWithUnderscore. simpl. exact E.
  - intros H.
    change (stripTrailingUnderscore (c :: c' :: s'))
      with (c :: stripTrailingUnderscore (c' :: s')).
    simpl in H. apply andb_true_iff in H. destruct H as (Hc & H).
    destruct (N.eqb c underscore) eqn:E.
    + apply andb_true_iff in H. destruct H as (Hb & H).
      destruct (IH true H) as (T & L).
      split.
      * cbn [tidy]. now rewrite Hc, E, Hb, T.
      * (* the character after an underscore is no underscore, so
           something is left after it *)
        assert (N.eqb c' underscore = false) as E'.
        { simpl in H. destruct (isSafeChar c'); [|discriminate].
          destruct (N.eqb c' underscore); [discriminate | reflexivity]. }
        destruct (stripTrailingUnderscore (c' :: s')) as [|d ds] eqn:S.
        -- exfalso. destruct s'; simpl in S; [|discriminate].
           now rewrite E' in S.
        -- unfold endsWithUnderscore in *. simpl rev in *.
           destruct (rev ds ++ [d]) eqn:R; [now destruct (rev ds)|].
           simpl in *. exact L.
    + destruct (IH false H) as (T & L).
      split.
      * cbn [tidy]. now rewrite Hc, E, T.
      * destruct (stripTrailingUnderscore (c' :: s')) as [|d ds] eqn:S.
        -- unfold endsWithUnderscore. simpl. exact E.
        -- unfold endsWithUnderscore in *. simpl rev in *.
           destruct (rev ds ++ [d]) eqn:R; [now destruct (rev ds)|].
           simpl in *. exact L.
Qed.

Lemma endsWithUnderscore_cons (c d : N) (s : jsstring) :
  endsWithUnderscore (c :: d :: s) = endsWithUnderscore (d :: s).
Proof.
  unfold endsWithUnderscore. simpl rev.
  destruct (rev s ++ [d]) eqn:R; [now destruct (rev s)|]. reflexivity.
Qed.

Lemma stripTrailingUnderscore_head (d : N) (s : jsstring) :
  N.eqb d underscore = false ->
  exists t, stripTrailingUnderscore (d :: s) = d :: t.
Proof.
  intros E. destruct s as [|c s]; simpl.
  - rewrite E. now exists [].
  - eexists. reflexivity.
Qed.

Lemma stripEdgeUnderscores_tidy (s : jsstring) :
  tidy false s = true ->
  tidy false (stripEdgeUnderscores s) = true
  /\ startsWithUnderscore (stripEdgeUnderscores s) = false
  /\ endsWithUnderscore (stripEdgeUnderscores s) = false.
Proof.
  destruct s as [|c s]; [now repeat split|].
  intros H. unfold stripEdgeUnderscores.
  destruct (N.eqb c underscore) eqn:E.
  - cbn [tidy] in H. rewrite E in H.
    apply andb_true_iff in H. destruct H as (_ & H). simpl in H.
    destruct (stripTrailingUnderscore_tidy true s H) as (T & L).
    split; [now apply tidy_weaken|]. split; [|exact L].
    destruct s as [|d s]; [reflexivity|].
    assert (N.eqb d underscore = false) as E'.
    { simpl in H. destruct (isSafeChar d); [|discriminate].
      destruct (N.eqb d underscore); [discriminate | reflexivity]. }
    destruct (@stripTrailingUnderscore_head d s E') as (t & ->). exact E'.
  - destruct (stripTrailingUnderscore_tidy false (c :: s) H) as (T & L).
    split; [exact T|]. split; [|exact L].
    destruct (@stripTrailingUnderscore_head c s E) as (t & ->). exact E.
Qed.

Lemma sanitize_tidy (s : jsstring) :
  tidy false (sanitize s) = true
  /\ startsWithUnderscore (sanitize s) = false
  /\ endsWithUnderscore (sanitize s) = false.
Proof.
  unfold sanitize. apply stripEdgeUnderscores_tidy.
  apply collapseUnderscores_tidy, replaceUnsafeRuns_safe.
Qed.

Lemma tidy_no_double (b : bool) (x y : jsstring) :
  tidy b (x ++ underscore :: underscore :: y) = false.
Proof.
  revert b; induction x as [|c x IH]; intros b.
  - simpl. now destruct b.
  - simpl. destruct (isSafeChar c); [|reflexivity].
    destruct (N.eqb c underscore); rewrite IH; simpl;
      [apply andb_false_r | reflexivity].
Qed.

(** X1. Whatever the input, a sanitized name consists of letters, digits,
    dashes and underscores only, neither starts nor ends with an
    underscore, and has no two underscores in a row. *)
Theorem sanitize_shape (s : jsstring) :
  Forall (fun c => isSafeChar c = true) (sanitize s)
  /\ startsWithUnderscore (sanitize s) = false
  /\ endsWithUnderscore (sanitize s) = false
  /\ (forall x y, sanitize s <> x ++ underscore :: underscore :: y).
Proof.
  destruct (sanitize_tidy s) as (T & Hs & He).
  split; [exact (tidy_safe _ _ T)|]. split; [exact Hs|]. split; [exact He|].
  intros x y E. rewrite E, tidy_no_double in T. discriminate.
Qed.

Lemma replaceUnsafeRuns_fixed (b : bool) (s : jsstring) :
  Forall (fun c => isSafeChar c = true) s -> replaceUnsafeRuns b s = s.
Proof.
  intros H; revert b; induction H as [|c s Hc _ IH]; intros b; simpl; auto.
  now rewrite Hc, IH.
Qed.

Lemma collapseUnderscores_fixed (b : bool) (s : jsstring) :
  tidy b s = true -> collapseUnderscores b s = s.
Proof.
  revert b; induction s as [|c s IH]; intros b; simpl; auto.
  rewrite andb_true_iff. intros (_ & H).
  destruct (N.eqb c underscore) eqn:E.
  - apply andb_true_iff in H. destruct H as (Hb & H).
    destruct b; [discriminate|]. apply N.eqb_eq in E. subst c.
    now rewrite (IH true H).
  - now rewrite (IH false H).
Qed.

Lemma stripTrailingUnderscore_fixed (s : jsstring) :
  endsWithUnderscore s = false -> stripTrailingUnderscore s = s.
Proof.
  induction s as [|c s IH]; [reflexivity|].
  destruct s as [|d s].
  - unfold endsWithUnderscore. simpl. now intros ->.
  - rewrite endsWithUnderscore_cons. intros H.
    change (stripTrailingUnderscore (c :: d :: s))
      with (c :: stripTrailingUnderscore (d :: s)).
    now rewrite (IH H).
Qed.

Lemma stripEdgeUnderscores_fixed (s : jsstring) :
  startsWithUnderscore s = false -> endsWithUnderscore s = false ->
  stripEdgeUnderscores s = s.
Proof.
  destruct s as [|c s]; [reflexivity|].
  unfold stripEdgeUnderscores. cbn [startsWithUnderscore]. intros -> H.
  now apply stripTrailingUnderscore_fixed.
Qed.

(** X2. Sanitizing is idempotent: a name that has been sanitized is left
    as it is by sanitizing it again. *)
Theorem sanitize_idempotent (s : jsstring) :
  sanitize (sanitize s) = sanitize s.
Proof.
  destruct (sanitize_tidy s) as (T & Hs & He).
  unfold sanitize at 1.
  rewrite (replaceUnsafeRuns_fixed false (tidy_safe _ _ T)).
  rewrite (collapseUnderscores_fixed _ _ T).
  now apply stripEdgeUnderscores_fixed.
Qed.

Lemma isNameChar_underscore : isNameChar underscore = false.
Proof. reflexivity. Qed.

Lemma filter_replaceUnsafeRuns (b : bool) (s : jsstring) :
  filter isNameChar (replaceUnsafeRuns b s) = filter isNameChar s.
Proof.
  revert b; induction s as [|c s IH]; intros b; simpl; auto.
  unfold isNameChar at 2. destruct (isSafeChar c) eqn:E; simpl.
  - unfold isNameChar at 1. rewrite E. simpl.
    now rewrite IH.
  - destruct b; simpl; now rewrite IH.
Qed.

Lemma filter_collapseUnderscores (b : bool) (s : jsstring) :
  filter isNameChar (collapseUnderscores b s) = filter isNameChar s.
Proof.
  revert b; induction s as [|c s IH]; intros b; simpl; auto.
  destruct (N.eqb c underscore) eqn:E.
  - apply N.eqb_eq in E. subst c. rewrite isNameChar_underscore.
    destruct b; simpl; now rewrite IH.
  - simpl. now rewrite IH.
Qed.

Lemma filter_stripTrailingUnderscore (s : jsstring) :
  filter isNameChar (stripTrailingUnderscore s) = filter isNameChar s.
Proof.
  induction s as [|c s IH]; [reflexivity|].
  destruct s as [|d s].
  - simpl. destruct (N.eqb c underscore) eqn:E; [|reflexivity].
    apply N.eqb_eq in E. now subst c.
  - change (stripTrailingUnderscore (c :: d :: s))
      with (c :: stripTrailingUnderscore (d :: s)).
    cbn [filter]. rewrite IH. reflexivity.
Qed.

Lemma filter_stripEdgeUnderscores (s : jsstring) :
  filter isNameChar (stripEdgeUnderscores s) = filter isNameChar s.
Proof.
  destruct s as [|c s]; [reflexivity|]. unfold stripEdgeUnderscores.
  destruct (N.eqb c underscore) eqn:E.
  - apply N.eqb_eq in E. subst c. rewrite filter_stripTrailingUnderscore.
    reflexivity.
  - apply filter_stripTrailingUnderscore.
Qed.

Lemma sanitize_keeps_name_characters_aux (s : jsstring) :
  filter isNameChar (sanitize s) = filter isNameChar s
  /\ (filter isNameChar s = [] -> sanitize s = []).
Proof.
  assert (F : filter isNameChar (sanitize s) = filter isNameChar s).
  { unfold sanitize.
    now rewrite filter_stripEdgeUnderscores, filter_collapseUnderscores,
      filter_replaceUnsafeRuns. }
  split; [exact F|].
  intros E. rewrite <- F in E.
  destruct (sanitize_tidy s) as (T & Hs & _).
  destruct (sanitize s) as [|c t]; [reflexivity|]. exfalso.
  simpl in Hs, T, E. unfold isNameChar in E. rewrite Hs in E.
  destruct (isSafeChar c); [simpl in E|]; discriminate.
Qed.

(** X3. Sanitizing keeps every letter, digit and dash of the name, in
    order, and removes or inserts nothing but underscores.  So the
    sanitized name is empty exactly when the name has no letter, digit or
    dash at all, the case in which [saveTrace] falls back to
    [scenario]. *)
Theorem sanitize_keeps_name_characters (s : jsstring) :
  filter isNameChar (sanitize s) = filter isNameChar s
  /\ (sanitize s = [] <-> filter isNameChar s = []).
Proof.
  destruct (sanitize_keeps_name_characters_aux s) as (F & Z).
  split; [exact F|]. split; [|exact Z].
  intros E. now rewrite <- F, E.
Qed.

(** ** Trace and screenshot file names *)

Lemma digitsOfUint_name (d : Decimal.uint) :
  Forall (fun c => isNameChar c = true) (digitsOfUint d).
Proof. induction d; simpl; constructor; auto. Qed.

Lemma digitsOf_nonempty (n : N) : digitsOf n <> [].
Proof.
  unfold digitsOf. destruct n as [|p]; [discriminate|]. simpl.
  pose proof (DecimalPos.Unsigned.to_uint_nonnil p) as H.
  destruct (Pos.to_uint p); try discriminate. now elim H.
Qed.

Lemma isNameChar_safe (c : N) : isNameChar c = true -> isSafeChar c = true.
Proof. unfold isNameChar. now intros H%andb_true_iff. Qed.

Lemma safe_fileName (s : jsstring) :
  Forall (fun c => isSafeChar c = true) s ->
  Forall (fun c => isFileNameChar c = true) s.
Proof.
  apply Forall_impl. intros c H. unfold isFileNameChar. now rewrite H.
Qed.

Lemma digitsOf_safe (n : N) : Forall (fun c => isSafeChar c = true) (digitsOf n).
Proof.
  eapply Forall_impl; [|apply digitsOfUint_name]. apply isNameChar_safe.
Qed.

(** X4. The file a trace is saved to lies directly in
    [test-results/traces], whatever the scenario is called: its name is
    made of letters, digits, dashes, underscores and dots only, so it has
    no path separator, and its stem is the sanitized scenario name, or
    [scenario] exactly when the name has no letter, digit or dash. *)
Theorem traceFileName_single_segment (scenarioName : jsstring) (pid t : N) :
  Forall (fun c => isFileNameChar c = true)
         (PlaywrightManager.traceFileName scenarioName pid t)
  /\ ~ In 47%N (PlaywrightManager.traceFileName scenarioName pid t)
  /\ ~ In 92%N (PlaywrightManager.traceFileName scenarioName pid t)
  /\ exists stem,
       PlaywrightManager.traceFileName scenarioName pid t
       = stem ++ js "_" ++ digitsOf pid ++ js "_" ++ digitsOf t ++ js ".zip"
       /\ stem <> []
       /\ (if existsb isNameChar scenarioName
           then stem = sanitize scenarioName
           else stem = js "scenario").
Proof.
  assert (Stem : exists stem,
            orDefault (Some (sanitize scenarioName)) (js "scenario") = stem
            /\ stem <> []
            /\ Forall (fun c => isSafeChar c = true) stem
            /\ (if existsb isNameChar scenarioName
                then stem = sanitize scenarioName
                else stem = js "scenario")).
  { destruct (sanitize_keeps_name_characters_aux scenarioName) as (F & Z).
    destruct (sanitize_tidy scenarioName) as (T & _).
    destruct (sanitize scenarioName) as [|c r] eqn:E.
    - exists (js "scenario"). repeat split; try discriminate.
      + repeat constructor.
      + assert (N0 : filter isNameChar scenarioName = []) by now rewrite <- F.
        destruct (existsb isNameChar scenarioName) eqn:X; [|reflexivity].
        apply existsb_exists in X. destruct X as (x & Hin & Hx).
        assert (In x (filter isNameChar scenarioName))
          by (apply filter_In; auto).
        rewrite N0 in H. destruct H.
    - exists (c :: r). repeat split; try discriminate.
      + exact (tidy_safe _ _ T).
      + destruct (existsb isNameChar scenarioName) eqn:X; [reflexivity|].
        exfalso. assert (N0 : filter isNameChar scenarioName = []).
        { destruct (filter isNameChar scenarioName) as [|x l] eqn:Fl;
            [reflexivity|].
          assert (In x (filter isNameChar scenarioName))
            by (rewrite Fl; now left).
          apply filter_In in H. destruct H as (Hin & Hx).
          assert (existsb isNameChar scenarioName = true)
            by (apply existsb_exists; eauto).
          congruence. }
        apply Z in N0. discriminate. }
  destruct Stem as (stem & Es & Ne & Safe & Which).
  assert (All : Forall (fun c => isFileNameChar c = true)
                  (PlaywrightManager.traceFileName scenarioName pid t)).
  { unfold PlaywrightManager.traceFileName. rewrite Es.
    apply Forall_app; split; [now apply safe_fileName|].
    apply Forall_app; split; [now repeat constructor|].
    apply Forall_app; split; [apply safe_fileName, digitsOf_safe|].
    apply Forall_app; split; [now repeat constructor|].
    apply Forall_app; split; [apply safe_fileName, digitsOf_safe|].
    now repeat constructor. }
  split; [exact All|].
  split; [|split].
  - intros H. rewrite Forall_forall in All. now apply All in H.
  - intros H. rewrite Forall_forall in All. now apply All in H.
  - exists stem. unfold PlaywrightManager.traceFileName. rewrite Es.
    now repeat split.
Qed.

(** ** What stays in the trace *)

Section TraceGrowth.
Context {pf : Platform}.

Lemma emits_tryFinally {A} (P : event -> Prop) (m : M A) (f : M unit) :
  emits P m -> emits P f -> emits P (tryFinally m f).
Proof.
  intros Hm Hf s. unfold tryFinally.
  destruct (Hm s) as (d1 & E1 & F1).
  destruct (m s) as [r s1]; simpl in E1.
  destruct (Hf s1) as (d2 & E2 & F2).
  destruct (f s1) as [[u|e] s2]; simpl in E2;
    exists (d1 ++ d2); simpl; rewrite E2, E1, app_assoc; split; auto;
    apply Forall_app; auto.
Qed.

Lemma emits_weaken {A} (P Q : event -> Prop) (m : M A) :
  (forall ev, P ev -> Q ev) -> emits P m -> emits Q m.
Proof.
  intros W H s. destruct (H s) as (d & E & F). exists d. split; auto.
  eapply Forall_impl; eauto.
Qed.

Lemma emits_In {A} (P : event -> Prop) (m : M A) (s : State) (ev : event) :
  emits P m -> In ev (trace s) -> In ev (trace (snd (m s))).
Proof.
  intros H I. destruct (H s) as (d & -> & _). apply in_or_app. now left.
Qed.

Lemma In_bind {A B} (P : event -> Prop) (m : M A) (k : A -> M B)
    (s : State) (ev : event) :
  (forall a, emits P (k a)) ->
  In ev (trace (snd (m s))) -> In ev (trace (snd (bind m k s))).
Proof.
  intros H I. unfold bind. destruct (m s) as [[a|e] s1]; simpl in *; auto.
  now apply (emits_In s1 ev (H a)).
Qed.

Lemma In_tryCatch {A} (P : event -> Prop) (m : M A) (h : exn -> M A)
    (s : State) (ev : event) :
  (forall e, emits P (h e)) ->
  In ev (trace (snd (m s))) -> In ev (trace (snd (tryCatch m h s))).
Proof.
  intros H I. unfold tryCatch. destruct (m s) as [[a|e] s1]; simpl in *; auto.
  now apply (emits_In s1 ev (H e)).
Qed.

End TraceGrowth.

(** Proves [emits P m] for a program built from the monad's operations,
    when [P] holds of every event the program can emit by computation. *)
Ltac emits_step :=
  match goal with
  | |- emits _ (ret _) => apply emits_ret
  | |- emits _ (throw _) => apply emits_throw
  | |- emits _ (fsExistsSync _) => apply emits_fsExistsSync
  | |- emits _ now => apply emits_now
  | |- emits _ getMgr => apply emits_getMgr
  | |- emits _ (setMgr _) => apply emits_setMgr
  | |- emits _ (setBrowser _) => intros ?; apply emits_setMgr
  | |- emits _ (setContext _) => intros ?; apply emits_setMgr
  | |- emits _ (setPage _) => intros ?; apply emits_setMgr
  | |- emits _ (log _ _ _) => apply emits_log; first [exact I | reflexivity]
  | |- emits _ (call _) =>
      apply emits_call; intros; first [exact I | reflexivity]
  | |- emits _ (if _ then _ else _) => apply emits_if
  | |- emits _ (tryCatch _ _) => apply emits_tryCatch; [|intros ?]
  | |- emits _ (tryFinally _ _) => apply emits_tryFinally
  | |- emits _ (bind _ _) => apply emits_bind; [|intros ?]
  | |- emits _ (match ?x with _ => _ end) => destruct x
  end.

Ltac emits_all := repeat emits_step.

(** ** hooks.ts: the step screenshot *)

Section StepScreenshotFile.
Context {pf : Platform}.
Import PlaywrightManager Env Hooks.

Lemma stepScreenshotName_nonempty world stepText status :
  stepScreenshotName world stepText status <> [].
Proof.
  unfold stepScreenshotName. intros E.
  pose proof (sanitize_keeps_name_characters_aux
    (orDefault (_scenarioName world) (js "scenario") ++ js "_"
     ++ digitsOf (nextStepIndex world) ++ js "_"
     ++ orDefault status (js "UNKNOWN") ++ js "_"
     ++ orDefault stepText (js "step_" ++ digitsOf (nextStepIndex world))))
    as (F & _).
  rewrite E in F. cbn [filter] in F. symmetry in F.
  rewrite !filter_app in F.
  apply app_eq_nil in F. destruct F as (_ & F).
  apply app_eq_nil in F. destruct F as (_ & F).
  apply app_eq_nil in F. destruct F as (F & _).
  pose proof (digitsOf_nonempty (nextStepIndex world)) as Ne.
  pose proof (digitsOfUint_name (N.to_uint (nextStepIndex world))) as Nm.
  fold (digitsOf (nextStepIndex world)) in Nm.
  destruct (digitsOf (nextStepIndex world)) as [|c r]; [now elim Ne|].
  inversion Nm as [|? ? Hc _]; subst. cbn [filter] in F.
  rewrite Hc in F. discriminate F.
Qed.

Lemma takeScreenshot_writes (name : jsstring) (s : State) (p : Page)
    (buf : Buffer) (w1 : World) :
  name <> [] ->
  page (mgr s) = Some p ->
  perform (Screenshot p) (world s) = (Ok buf, w1) ->
  (existsSync (js "test-results/screenshots") w1 = true
   \/ exists w2,
        perform (MkdirSync (js "test-results/screenshots")) w1 = (Ok tt, w2)) ->
  exists r,
    In (Call (WriteFileSync
                (pathJoin (js "test-results/screenshots") (name ++ js ".png"))
                buf) r)
       (trace (snd (takeScreenshot (Some name) s))).
Proof.
  intros Ne Hp Hs Hd. destruct name as [|c n]; [now elim Ne|].
  unfold takeScreenshot. run. rewrite Hp. cbn. rewrite Hs. cbn.
  destruct Hd as [Hd|(w2 & Hd)].
  - rewrite Hd. cbn. answer; eexists;
      repeat rewrite in_app_iff; cbn; eauto 10.
  - destruct (existsSync _ w1); cbn; [|rewrite Hd; cbn];
      answer; eexists; repeat rewrite in_app_iff; cbn; eauto 10.
Qed.

Lemma takeScreenshot_emits (name : option jsstring) :
  emits (fun _ => True) (takeScreenshot name).
Proof. unfold takeScreenshot. emits_all. Qed.

End StepScreenshotFile.

(** X5. [AfterStep] never throws: an error while taking, writing or
    attaching the screenshot is logged as a warning.  With the flag on,
    the step index of the world advances by one whether or not the
    screenshot could be taken; with the flag off the world is returned as
    it was. *)
Theorem AfterStep_never_throws (pf : Platform)
    (world : Hooks.HookWorldContext) (stepText status : option jsstring)
    (s : State) :
  fst (Hooks.AfterStep world stepText status s)
  = Ok (if Env.SCREENSHOT_EACH_STEP Env.ENV
        then {| Hooks._scenarioName := Hooks._scenarioName world;
                Hooks._stepIndex := Some (Hooks.nextStepIndex world) |}
        else world).
Proof.
  unfold Hooks.AfterStep.
  destruct (Env.SCREENSHOT_EACH_STEP Env.ENV); cbn [negb]; [|reflexivity].
  unfold bind at 1, tryCatch.
  match goal with
  | |- context [let (_, _) := ?m s in _] => destruct (m s) as [[u|e] s1]
  end; reflexivity.
Qed.

(** X6. The name of a step screenshot is never empty and has only
    letters, digits, dashes and underscores, whatever the scenario and
    the step are called.  So whenever the flag is on, a page is open, the
    capture succeeds and the screenshots directory exists or can be
    created, [AfterStep] writes the image to
    [test-results/screenshots/<name>.png]. *)
Theorem AfterStep_writes_screenshot (pf : Platform)
    (hw : Hooks.HookWorldContext) (stepText status : option jsstring)
    (s : State) (p : Page) (buf : Buffer) (w1 : World) :
  Env.SCREENSHOT_EACH_STEP Env.ENV = true ->
  page (mgr s) = Some p ->
  perform (Screenshot p) (world s) = (Ok buf, w1) ->
  (existsSync (js "test-results/screenshots") w1 = true
   \/ exists w2,
        perform (MkdirSync (js "test-results/screenshots")) w1 = (Ok tt, w2)) ->
  Hooks.stepScreenshotName hw stepText status <> []
  /\ Forall (fun c => isSafeChar c = true)
            (Hooks.stepScreenshotName hw stepText status)
  /\ exists r,
       In (Call (WriteFileSync
                   (pathJoin (js "test-results/screenshots")
                      (Hooks.stepScreenshotName hw stepText status
                       ++ js ".png")) buf) r)
          (trace (snd (Hooks.AfterStep hw stepText status s))).
Proof.
  intros Hf Hp Hs Hd.
  pose proof (stepScreenshotName_nonempty hw stepText status) as Ne.
  split; [exact Ne|].
  split; [exact (tidy_safe _ _ (proj1 (sanitize_tidy _)))|].
  destruct (takeScreenshot_writes s Ne Hp Hs Hd) as (r & I).
  exists r. unfold Hooks.AfterStep. rewrite Hf. cbn [negb].
  apply (In_bind (P := fun _ => True)); [intros; apply emits_ret|].
  apply (In_tryCatch (P := fun _ => True)); [intros; now apply emits_log|].
  apply (In_bind (P := fun _ => True)); [|exact I].
  intros buf'. emits_all.
Qed.

Lemma AfterStep_writes_screenshot_witness :
  Hooks.stepScreenshotName
    {| Hooks._scenarioName := Some (js "Footer: links?");
       Hooks._stepIndex := Some 2%N |}
    (Some (js "the footer should be visible")) (Some (js "PASSED")) <> []
  /\ Forall (fun c => isSafeChar c = true)
       (Hooks.stepScreenshotName
          {| Hooks._scenarioName := Some (js "Footer: links?");
             Hooks._stepIndex := Some 2%N |}
          (Some (js "the footer should be visible")) (Some (js "PASSED")))
  /\ exists r,
       In (Call (WriteFileSync
                   (pathJoin (js "test-results/screenshots")
                      (Hooks.stepScreenshotName
                         {| Hooks._scenarioName := Some (js "Footer: links?");
                            Hooks._stepIndex := Some 2%N |}
                         (Some (js "the footer should be visible"))
                         (Some (js "PASSED"))
                       ++ js ".png")) (BufferObj 5)) r)
          (trace (snd (Hooks.AfterStep
                         {| Hooks._scenarioName := Some (js "Footer: links?");
                            Hooks._stepIndex := Some 2%N |}
                         (Some (js "the footer should be visible"))
                         (Some (js "PASSED")) quietLive))).
Proof.
  apply (@AfterStep_writes_screenshot Sim.quiet _ _ _ quietLive (PageObj 4)
           (BufferObj 5) 6%N).
  - reflexivity.
  - reflexivity.
  - reflexivity.
  - right. exists 7%N. reflexivity.
Defined.

(** ** PlaywrightManager: what the create calls leave behind *)

Section CreateFacts.
Context {pf : Platform}.
Import PlaywrightManager Env.

Lemma countOf_snoc f (t : list event) (ev : event) :
  countOf f (t ++ [ev]) = countOf f t + (if f ev then 1 else 0).
Proof. rewrite countOf_app. unfold countOf. simpl. now destruct (f ev). Qed.

Lemma launchBrowser_ok (s s1 : State) (b : Browser) :
  launchBrowser s = (Ok b, s1) ->
  browser (mgr s1) = Some b
  /\ context (mgr s1) = context (mgr s)
  /\ page (mgr s1) = page (mgr s)
  /\ countOf isLaunch (trace s1)
     = countOf isLaunch (trace s)
       + (match browser (mgr s) with Some _ => 0 | None => 1 end)
  /\ countOf isNewContext (trace s1) = countOf isNewContext (trace s)
  /\ countOf isNewPage (trace s1) = countOf isNewPage (trace s).
Proof.
  unfold launchBrowser. run. destruct (browser (mgr s)) eqn:Hb.
  - intros [= <- <-]. repeat split; auto.
  - answer; intros [= <- <-]; cbn [mgr world trace browser context page].
    rewrite !countOf_snoc. cbn. repeat split; lia.
Qed.

Lemma createContext_ok (s s1 : State) (c : BrowserContext) :
  createContext s = (Ok c, s1) ->
  context (mgr s1) = Some c
  /\ browser (mgr s1) <> None
  /\ page (mgr s1) = page (mgr s)
  /\ (forall b, browser (mgr s) = Some b -> browser (mgr s1) = Some b)
  /\ countOf isLaunch (trace s1)
     = countOf isLaunch (trace s)
       + (match browser (mgr s) with Some _ => 0 | None => 1 end)
  /\ countOf isNewContext (trace s1) = countOf isNewContext (trace s) + 1
  /\ countOf isNewPage (trace s1) = countOf isNewPage (trace s).
Proof.
  unfold createContext. unfold bind at 1, getMgr at 1. unfold bind at 1.
  destruct ((match browser (mgr s) with
             | Some _ => ret tt
             | None => _ <- launchBrowser;; ret tt
             end) s) as [[[]|e] s0] eqn:E0; [|discriminate].
  assert (L : browser (mgr s0) <> None
              /\ context (mgr s0) = context (mgr s)
              /\ page (mgr s0) = page (mgr s)
              /\ (forall b, browser (mgr s) = Some b ->
                            browser (mgr s0) = Some b)
              /\ countOf isLaunch (trace s0)
                 = countOf isLaunch (trace s)
                   + (match browser (mgr s) with Some _ => 0 | None => 1 end)
              /\ countOf isNewContext (trace s0)
                 = countOf isNewContext (trace s)
              /\ countOf isNewPage (trace s0) = countOf isNewPage (trace s)).
  { destruct (browser (mgr s)) eqn:Hb.
    - injection E0 as <-. rewrite Hb.
      repeat split; auto; try lia; try discriminate.
    - unfold bind in E0.
      destruct (launchBrowser s) as [[b|e] s'] eqn:EL; [|discriminate].
      injection E0 as <-.
      destruct (launchBrowser_ok _ EL) as (B & C & P & NL & NC & NP).
      rewrite Hb in NL.
      repeat split; auto; try congruence; try discriminate. }
  clear E0. destruct L as (B0 & C0 & P0 & K0 & NL & NC & NP).
  unfold nonNull. run.
  destruct (browser (mgr s0)) as [b|] eqn:Hb; [|now elim B0]. cbn.
  destruct (existsSync _ (world s0)); cbn; rewrite Hb; cbn;
    repeat (answer; try discriminate);
    destruct (TRACE_ON_FAILURE ENV); cbn;
    repeat (answer; try discriminate);
    intros [= <- <-]; cbn [mgr world trace browser context page];
    rewrite !countOf_snoc; cbn;
    repeat split; rewrite ?Hb; try discriminate; try assumption; try lia;
    try (intros b' Hb'; apply K0 in Hb'; congruence).
Qed.

Lemma createPage_ok (s s1 : State) (p : Page) :
  createPage s = (Ok p, s1) ->
  page (mgr s1) = Some p
  /\ context (mgr s1) <> None
  /\ (contextHasBrowser (mgr s) -> browser (mgr s1) <> None)
  /\ (forall c, context (mgr s) = Some c -> context (mgr s1) = Some c)
  /\ (forall b, browser (mgr s) = Some b -> browser (mgr s1) = Some b)
  /\ countOf isNewPage (trace s1) = countOf isNewPage (trace s) + 1
  /\ countOf isNewContext (trace s1)
     = countOf isNewContext (trace s)
       + (match context (mgr s) with Some _ => 0 | None => 1 end)
  /\ countOf isLaunch (trace s1)
     = countOf isLaunch (trace s)
       + (match context (mgr s), browser (mgr s) with
          | None, None => 1
          | _, _ => 0
          end).
Proof.
  unfold createPage. unfold bind at 1, getMgr at 1. unfold bind at 1.
  destruct ((match context (mgr s) with
             | Some _ => ret tt
             | None => _ <- createContext;; ret tt
             end) s) as [[[]|e] s0] eqn:E0; [|discriminate].
  assert (L : context (mgr s0) <> None
              /\ page (mgr s0) = page (mgr s)
              /\ (contextHasBrowser (mgr s) -> browser (mgr s0) <> None)
              /\ (forall c, context (mgr s) = Some c ->
                            context (mgr s0) = Some c)
              /\ (forall b, browser (mgr s) = Some b ->
                            browser (mgr s0) = Some b)
              /\ countOf isNewPage (trace s0) = countOf isNewPage (trace s)
              /\ countOf isNewContext (trace s0)
                 = countOf isNewContext (trace s)
                   + (match context (mgr s) with Some _ => 0 | None => 1 end)
              /\ countOf isLaunch (trace s0)
                 = countOf isLaunch (trace s)
                   + (match context (mgr s), browser (mgr s) with
                      | None, None => 1
                      | _, _ => 0
                      end)).
  { destruct (context (mgr s)) eqn:Hc.
    - injection E0 as <-. rewrite Hc.
      repeat split; auto; try lia; try discriminate.
      intros I. apply I. rewrite Hc. discriminate.
    - unfold bind in E0.
      destruct (createContext s) as [[c|e] s'] eqn:EC; [|discriminate].
      injection E0 as <-.
      destruct (createContext_ok _ EC) as (C & B & P & KB & NL & NC & NP).
      repeat split; auto; try congruence; try discriminate.
      all: try (destruct (browser (mgr s)); exact NL). }
  clear E0. destruct L as (C0 & P0 & B0 & KC & KB & NP & NC & NL).
  unfold nonNull. run.
  destruct (context (mgr s0)) as [c|] eqn:Hc; [|now elim C0]. cbn.
  answer; intros [= <- <-]; cbn [mgr world trace browser context page].
  rewrite !countOf_snoc. cbn.
  repeat split; auto; try lia; try discriminate;
    try (rewrite Hc; discriminate);
    try (intros c' Hc'; rewrite Hc; now apply KC).
Qed.

End CreateFacts.

Lemma Before_returned (pf : Platform)
    (hw hw' : Hooks.HookWorldContext) (pickleName : jsstring)
    (s s' : State) :
  Hooks.Before hw pickleName s = (Ok hw', s') ->
  hw' = {| Hooks._scenarioName := Some pickleName;
           Hooks._stepIndex := Some 0%N |}
  /\ (exists b c p,
        browser (mgr s') = Some b /\ context (mgr s') = Some c
        /\ page (mgr s') = Some p
        /\ PlaywrightManager.getPage s' = (Ok p, s'))
  /\ countOf isNewContext (trace s') = countOf isNewContext (trace s) + 1
  /\ countOf isNewPage (trace s') = countOf isNewPage (trace s) + 1
  /\ countOf isLaunch (trace s')
     = countOf isLaunch (trace s)
       + (match browser (mgr s) with Some _ => 0 | None => 1 end).
Proof.
  unfold Hooks.Before. unfold bind at 1, log at 1.
  set (s0 := {| mgr := mgr s; world := world s;
                trace := trace s ++ [Log Info _ None] |}).
  unfold bind at 1.
  destruct (PlaywrightManager.launchBrowser s0) as [[b|e] s1] eqn:E1;
    [|discriminate].
  unfold bind at 1.
  destruct (PlaywrightManager.createContext s1) as [[c|e] s2] eqn:E2;
    [|discriminate].
  unfold bind at 1.
  destruct (PlaywrightManager.createPage s2) as [[p|e] s3] eqn:E3;
    [|discriminate].
  unfold ret. intros [= <- <-].
  destruct (launchBrowser_ok _ E1) as (B1 & C1 & P1 & L1 & NC1 & NP1).
  destruct (createContext_ok _ E2) as (C2 & B2 & P2 & K2 & L2 & NC2 & NP2).
  destruct (createPage_ok _ E3) as (P3 & C3 & B3 & KC3 & KB3 & NP3 & NC3 & L3).
  rewrite B1 in L2. rewrite C2 in NC3, L3.
  assert (T0 : forall f, f (Log Info (js "--- Scenario: " ++ pickleName
                                      ++ js " ---") None) = false ->
               countOf f (trace s0) = countOf f (trace s)).
  { intros f Hf. unfold s0. cbn [trace]. rewrite countOf_snoc, Hf. lia. }
  split; [reflexivity|]. split.
  - exists b, c, p. split; [apply KB3, K2, B1|]. split; [apply KC3, C2|].
    split; [exact P3|].
    unfold PlaywrightManager.getPage. run. now rewrite P3.
  - rewrite <- (T0 isNewContext eq_refl), <- (T0 isNewPage eq_refl),
      <- (T0 isLaunch eq_refl).
    change (browser (mgr s)) with (browser (mgr s0)).
    repeat split; lia.
Qed.

(** X7. A [Before] hook that returns leaves a browser, a context and a
    page in the manager, whatever state it started from, and the world it
    returns carries the scenario name and step index zero.  It creates
    exactly one new context and one new page, and launches a browser only
    when none was live. *)
Theorem Before_establishes_handles (pf : Platform)
    (hw hw' : Hooks.HookWorldContext) (pickleName : jsstring) (s : State) :
  fst (Hooks.Before hw pickleName s) = Ok hw' ->
  hw' = {| Hooks._scenarioName := Some pickleName;
           Hooks._stepIndex := Some 0%N |}
  /\ (exists b c p,
        browser (mgr (snd (Hooks.Before hw pickleName s))) = Some b
        /\ context (mgr (snd (Hooks.Before hw pickleName s))) = Some c
        /\ page (mgr (snd (Hooks.Before hw pickleName s))) = Some p
        /\ fst (PlaywrightManager.getPage
                  (snd (Hooks.Before hw pickleName s))) = Ok p)
  /\ countOf isNewContext (trace (snd (Hooks.Before hw pickleName s)))
     = countOf isNewContext (trace s) + 1
  /\ countOf isNewPage (trace (snd (Hooks.Before hw pickleName s)))
     = countOf isNewPage (trace s) + 1
  /\ countOf isLaunch (trace (snd (Hooks.Before hw pickleName s)))
     = countOf isLaunch (trace s)
       + (match browser (mgr s) with Some _ => 0 | None => 1 end).
Proof.
  intros H.
  destruct (Hooks.Before hw pickleName s) as [r s'] eqn:E.
  cbn [fst snd] in *. subst r.
  destruct (Before_returned _ _ _ E) as (W & (b & c & p & B & C & P & G) & N).
  split; [exact W|]. split; [|exact N].
  exists b, c, p. rewrite G. auto.
Qed.

Lemma Before_establishes_handles_witness :
  {| Hooks._scenarioName := Some (js "Footer links");
     Hooks._stepIndex := Some 0%N |}
  = {| Hooks._scenarioName := Some (js "Footer links");
       Hooks._stepIndex := Some 0%N |}
  /\ (exists b c p,
        browser (mgr (snd (Hooks.Before
                             {| Hooks._scenarioName := None;
                                Hooks._stepIndex := None |}
                             (js "Footer links")
                             (Sim.start Sim.quiet 0%N)))) = Some b
        /\ context (mgr (snd (Hooks.Before
                                {| Hooks._scenarioName := None;
                                   Hooks._stepIndex := None |}
                                (js "Footer links")
                                (Sim.start Sim.quiet 0%N)))) = Some c
        /\ page (mgr (snd (Hooks.Before
                             {| Hooks._scenarioName := None;
                                Hooks._stepIndex := None |}
                             (js "Footer links")
                             (Sim.start Sim.quiet 0%N)))) = Some p
        /\ fst (PlaywrightManager.getPage
                  (snd (Hooks.Before
                          {| Hooks._scenarioName := None;
                             Hooks._stepIndex := None |}
                          (js "Footer links")
                          (Sim.start Sim.quiet 0%N)))) = Ok p)
  /\ countOf isNewContext
       (trace (snd (Hooks.Before
                      {| Hooks._scenarioName := None;
                         Hooks._stepIndex := None |}
                      (js "Footer links") (Sim.start Sim.quiet 0%N))))
     = countOf isNewContext (trace (Sim.start Sim.quiet 0%N)) + 1
  /\ countOf isNewPage
       (trace (snd (Hooks.Before
                      {| Hooks._scenarioName := None;
                         Hooks._stepIndex := None |}
                      (js "Footer links") (Sim.start Sim.quiet 0%N))))
     = countOf isNewPage (trace (Sim.start Sim.quiet 0%N)) + 1
  /\ countOf isLaunch
       (trace (snd (Hooks.Before
                      {| Hooks._scenarioName := None;
                         Hooks._stepIndex := None |}
                      (js "Footer links") (Sim.start Sim.quiet 0%N))))
     = countOf isLaunch (trace (Sim.start Sim.quiet 0%N))
       + (match browser (mgr (Sim.start Sim.quiet 0%N)) with
          | Some _ => 0
          | None => 1
          end).
Proof.
  apply (@Before_establishes_handles Sim.quiet
           {| Hooks._scenarioName := None; Hooks._stepIndex := None |}
           {| Hooks._scenarioName := Some (js "Footer links");
              Hooks._stepIndex := Some 0%N |}
           (js "Footer links") (Sim.start Sim.quiet 0%N)).
  reflexivity.
Defined.

(** ** PlaywrightManager: a context has a browser *)

Section TripleRules.
Context {pf : Platform}.

Lemma triple_ret {A} (P : Manager -> Prop) (a : A) Q R :
  (forall m, P m -> Q a m) -> triple P (ret a) Q R.
Proof. intros H s Hs. cbn. auto. Qed.

Lemma triple_throw {A} (P : Manager -> Prop) (e : exn)
    (Q : A -> Manager -> Prop) (R : Manager -> Prop) :
  (forall m, P m -> R m) -> triple P (throw e) Q R.
Proof. intros H s Hs. cbn. auto. Qed.

Lemma triple_bind {A B} (P : Manager -> Prop) (m : M A) (k : A -> M B)
    (Q1 : A -> Manager -> Prop) Q2 R :
  triple P m Q1 R -> (forall a, triple (Q1 a) (k a) Q2 R) ->
  triple P (bind m k) Q2 R.
Proof.
  intros Hm Hk s Hs. unfold bind. specialize (Hm s Hs).
  destruct (m s) as [[a|e] s1]; auto. now apply Hk.
Qed.

Lemma triple_call {A} (P : Manager -> Prop) (o : op A) Q R :
  (forall a m, P m -> Q a m) -> (forall m, P m -> R m) ->
  triple P (call o) Q R.
Proof.
  intros HQ HR s Hs. unfold call.
  destruct (perform o (world s)) as [[a|e] w]; cbn; auto.
Qed.

Lemma triple_log (P : Manager -> Prop) lvl msg detail Q R :
  (forall m, P m -> Q tt m) -> triple P (log lvl msg detail) Q R.
Proof. intros H s Hs. cbn. auto. Qed.

Lemma triple_fsExistsSync (P : Manager -> Prop) path Q R :
  (forall b m, P m -> Q b m) -> triple P (fsExistsSync path) Q R.
Proof. intros H s Hs. cbn. auto. Qed.

Lemma triple_now (P : Manager -> Prop) Q R :
  (forall t m, P m -> Q t m) -> triple P now Q R.
Proof. intros H s Hs. cbn. auto. Qed.

Lemma triple_getMgr (P : Manager -> Prop) Q R :
  (forall m, P m -> Q m m) -> triple P getMgr Q R.
Proof. intros H s Hs. cbn. auto. Qed.

Lemma triple_weaken {A} (P P' : Manager -> Prop) (m : M A)
    (Q Q' : A -> Manager -> Prop) (R R' : Manager -> Prop) :
  (forall x, P' x -> P x) -> (forall a x, Q a x -> Q' a x) ->
  (forall x, R x -> R' x) ->
  triple P m Q R -> triple P' m Q' R'.
Proof.
  intros HP HQ HR H s Hs. specialize (H s (HP _ Hs)).
  destruct (m s) as [[a|e] s1]; auto.
Qed.

End TripleRules.

Section ManagerInvariant.
Context {pf : Platform}.
Import PlaywrightManager Env.

(** A program that never assigns a field keeps every property of the
    manager. *)
Lemma frame_bind {A B} (I : Manager -> Prop) (m : M A) (k : A -> M B) :
  triple I m (fun _ => I) I -> (forall a, triple I (k a) (fun _ => I) I) ->
  triple I (bind m k) (fun _ => I) I.
Proof. intros Hm Hk. eapply triple_bind; [exact Hm | exact Hk]. Qed.

Lemma frame_ret {A} (I : Manager -> Prop) (a : A) :
  triple I (ret a) (fun _ => I) I.
Proof. apply triple_ret. auto. Qed.

Lemma frame_throw {A} (I : Manager -> Prop) (e : exn) :
  triple I (throw e : M A) (fun _ => I) I.
Proof. apply triple_throw. auto. Qed.

Lemma frame_call {A} (I : Manager -> Prop) (o : op A) :
  triple I (call o) (fun _ => I) I.
Proof. apply triple_call; auto. Qed.

Lemma frame_log (I : Manager -> Prop) lvl msg detail :
  triple I (log lvl msg detail) (fun _ => I) I.
Proof. apply triple_log. auto. Qed.

Lemma frame_fsExistsSync (I : Manager -> Prop) path :
  triple I (fsExistsSync path) (fun _ => I) I.
Proof. apply triple_fsExistsSync. auto. Qed.

Lemma frame_now (I : Manager -> Prop) :
  triple I now (fun _ => I) I.
Proof. apply triple_now. auto. Qed.

Lemma frame_getMgr (I : Manager -> Prop) :
  triple I getMgr (fun _ => I) I.
Proof. apply triple_getMgr. auto. Qed.

Lemma frame_nonNull {A} (I : Manager -> Prop) (x : option A) :
  triple I (nonNull x) (fun _ => I) I.
Proof. destruct x; [apply frame_ret | apply frame_throw]. Qed.

Lemma frame_tryCatch {A} (I : Manager -> Prop) (m : M A) (h : exn -> M A) :
  triple I m (fun _ => I) I -> (forall e, triple I (h e) (fun _ => I) I) ->
  triple I (tryCatch m h) (fun _ => I) I.
Proof.
  intros Hm Hh s Hs. unfold tryCatch. specialize (Hm s Hs).
  destruct (m s) as [[a|e] s1]; auto. now apply Hh.
Qed.

Ltac frame :=
  repeat first
    [ apply frame_ret | apply frame_throw | apply frame_log
    | apply frame_call | apply frame_fsExistsSync | apply frame_now
    | apply frame_getMgr | apply frame_nonNull
    | apply frame_bind; [|intros ?]
    | apply frame_tryCatch; [|intros ?]
    | match goal with
      | |- triple _ (if ?b then _ else _) _ _ => destruct b
      | |- triple _ (match ?x with _ => _ end) _ _ => destruct x
      end ].

Lemma launchBrowser_triple :
  triple contextHasBrowser launchBrowser
    (fun _ m => contextHasBrowser m /\ browser m <> None)
    contextHasBrowser.
Proof.
  intros s I. unfold launchBrowser. run.
  destruct (browser (mgr s)) eqn:Hb; cbn.
  - split; [exact I | now rewrite Hb].
  - answer; [|exact I]. split; [|discriminate]. intros _. discriminate.
Qed.

Lemma createContext_triple :
  triple contextHasBrowser createContext
    (fun _ m => contextHasBrowser m /\ context m <> None)
    contextHasBrowser.
Proof.
  unfold createContext.
  eapply triple_bind with (Q1 := fun m0 m => m0 = m /\ contextHasBrowser m).
  { apply triple_getMgr. auto. }
  intros m0.
  eapply triple_bind
    with (Q1 := fun _ m => browser m <> None).
  { intros s H; cbn beta in H; destruct H as (-> & I). destruct (browser (mgr s)) eqn:Hb; cbn.
    - now rewrite Hb.
    - unfold bind. pose proof (launchBrowser_triple s I) as L.
      destruct (launchBrowser s) as [[b|e] s1]; cbn; [apply L | exact L]. }
  intros _.
  (* from here on the browser is there, and stays *)
  assert (W : forall m, browser m <> None -> contextHasBrowser m)
    by (intros m H _; exact H).
  eapply triple_weaken
    with (P := fun m => browser m <> None)
         (Q := fun _ m => browser m <> None /\ context m <> None)
         (R := fun m => browser m <> None);
    [auto | intros a x (B & C); split; auto | auto |].
  eapply triple_bind with (Q1 := fun _ m => browser m <> None);
    [apply triple_fsExistsSync; auto | intros found].
  eapply triple_bind with (Q1 := fun _ m => browser m <> None);
    [destruct found; apply triple_log; auto | intros _].
  eapply triple_bind with (Q1 := fun m1 m => m1 = m /\ browser m <> None);
    [apply triple_getMgr; auto | intros m1].
  eapply triple_bind with (Q1 := fun _ m => browser m <> None).
  { intros s H; cbn beta in H; destruct H as (-> & B). unfold nonNull.
    destruct (browser (mgr s)) eqn:Hb; cbn; congruence. }
  intros b.
  eapply triple_bind with (Q1 := fun _ m => browser m <> None);
    [apply triple_call; auto | intros c].
  eapply triple_bind
    with (Q1 := fun _ m => browser m <> None /\ context m <> None).
  { intros s B. cbn. split; [exact B | discriminate]. }
  intros _.
  eapply triple_bind
    with (Q1 := fun _ m => browser m <> None /\ context m <> None);
    [apply triple_call; [auto | intros m (B & _); exact B] | intros _].
  eapply triple_bind
    with (Q1 := fun _ m => browser m <> None /\ context m <> None);
    [apply triple_call; [auto | intros m (B & _); exact B] | intros _].
  eapply triple_bind
    with (Q1 := fun _ m => browser m <> None /\ context m <> None).
  { destruct (TRACE_ON_FAILURE ENV);
      [apply triple_call; [auto | intros m (B & _); exact B]
      | apply triple_ret; auto]. }
  intros _. apply triple_ret. auto.
Qed.

Lemma createPage_triple :
  triple contextHasBrowser createPage (fun _ => contextHasBrowser)
    contextHasBrowser.
Proof.
  unfold createPage.
  eapply triple_bind with (Q1 := fun m0 m => m0 = m /\ contextHasBrowser m).
  { apply triple_getMgr. auto. }
  intros m0.
  eapply triple_bind with (Q1 := fun _ => contextHasBrowser).
  { intros s H; cbn beta in H; destruct H as (-> & I). destruct (context (mgr s)) eqn:Hc; cbn; [exact I|].
    unfold bind. pose proof (createContext_triple s I) as L.
    destruct (createContext s) as [[c|e] s1]; cbn; [apply L | exact L]. }
  intros _.
  eapply triple_bind with (Q1 := fun _ => contextHasBrowser);
    [apply triple_getMgr; auto | intros m1].
  eapply triple_bind with (Q1 := fun _ => contextHasBrowser).
  { unfold nonNull. destruct (context m1); frame. }
  intros c.
  eapply triple_bind with (Q1 := fun _ => contextHasBrowser);
    [apply triple_call; auto | intros p].
  eapply triple_bind with (Q1 := fun _ => contextHasBrowser).
  { intros s I. cbn. exact I. }
  intros _. frame.
Qed.

Lemma closePage_triple :
  triple contextHasBrowser closePage (fun _ => contextHasBrowser)
    contextHasBrowser.
Proof.
  intros s I. unfold closePage. run.
  destruct (page (mgr s)); cbn; [|exact I]. answer; exact I.
Qed.

Lemma closeContext_triple :
  triple contextHasBrowser closeContext (fun _ m => context m = None)
    contextHasBrowser.
Proof.
  intros s I. unfold closeContext. run.
  destruct (context (mgr s)) eqn:Hc; cbn; [|exact Hc].
  answer; [reflexivity | exact I].
Qed.

Lemma closeBrowser_triple :
  triple contextHasBrowser closeBrowser (fun _ => contextHasBrowser)
    contextHasBrowser.
Proof.
  unfold closeBrowser.
  eapply triple_bind; [apply closePage_triple | intros ?].
  eapply triple_bind; [apply closeContext_triple | intros ?].
  intros s Hc. cbn beta in Hc. run. destruct (browser (mgr s)); cbn.
  - answer; intros H; now elim H.
  - intros H; now elim H.
Qed.

Lemma after_keeps (c : ManagerCall) (s : State) :
  contextHasBrowser (mgr s) -> contextHasBrowser (mgr (after c s)).
Proof.
  intros I.
  assert (K : forall A (m : M A) Q,
            triple contextHasBrowser m Q contextHasBrowser ->
            (forall a x, Q a x -> contextHasBrowser x) ->
            contextHasBrowser (mgr (snd (m s)))).
  { intros A m Q T HQ. specialize (T s I).
    destruct (m s) as [[a|e] s1]; cbn; eauto. }
  destruct c; cbn [after].
  - eapply K; [apply launchBrowser_triple | now intros a x (H & _)].
  - eapply K; [apply createContext_triple | now intros a x (H & _)].
  - eapply K; [apply createPage_triple | auto].
  - eapply K with (Q := fun _ => contextHasBrowser); [|auto].
    unfold getPage. frame.
  - eapply K with (Q := fun _ => contextHasBrowser); [|auto].
    unfold getContext. frame.
  - eapply K with (Q := fun _ => contextHasBrowser); [|auto].
    unfold getBrowser. frame.
  - eapply K with (Q := fun _ => contextHasBrowser); [|auto].
    unfold takeScreenshot. frame.
  - eapply K with (Q := fun _ => contextHasBrowser); [|auto].
    unfold saveTrace. frame.
  - eapply K; [apply closePage_triple | auto].
  - eapply K; [apply closeContext_triple|].
    intros a x H. intros C. now elim C.
  - eapply K; [apply closeBrowser_triple | auto].
  - eapply K; [apply closeBrowser_triple | auto].
Qed.

End ManagerInvariant.

(** X8. A stored context always has a stored browser behind it: starting
    from a manager of which this is true, such as one with no handles, it
    is true after any sequence of calls to the public methods of
    [PlaywrightManager], whether each of them returned or threw.  In
    every such state [getBrowser()] succeeds whenever [getContext()]
    does. *)
Theorem context_always_has_browser (pf : Platform)
    (cs : list ManagerCall) (s : State) :
  contextHasBrowser (mgr s) ->
  contextHasBrowser (mgr (afterAll cs s))
  /\ (forall c,
        fst (PlaywrightManager.getContext (afterAll cs s)) = Ok c ->
        exists b, fst (PlaywrightManager.getBrowser (afterAll cs s)) = Ok b).
Proof.
  intros I.
  assert (K : contextHasBrowser (mgr (afterAll cs s))).
  { revert s I. induction cs as [|c cs IH]; intros s I; cbn; auto.
    apply IH. now apply after_keeps. }
  split; [exact K|].
  intros c. unfold PlaywrightManager.getContext, PlaywrightManager.getBrowser.
  run. destruct (context (mgr (afterAll cs s))) eqn:Hc; [|discriminate].
  intros _. destruct (browser (mgr (afterAll cs s))) eqn:Hb;
    [cbn; eauto|].
  exfalso. apply K; [now rewrite Hc | exact Hb].
Qed.

Lemma context_always_has_browser_witness :
  contextHasBrowser
    (mgr (afterAll [DoCreatePage; DoCloseContext; DoCreateContext;
                    DoSaveTrace (js "a"); DoCloseBrowser; DoCreatePage]
            (Sim.start Sim.stuckPage 0%N)))
  /\ (forall c,
        fst (PlaywrightManager.getContext
               (afterAll [DoCreatePage; DoCloseContext; DoCreateContext;
                          DoSaveTrace (js "a"); DoCloseBrowser; DoCreatePage]
                  (Sim.start Sim.stuckPage 0%N))) = Ok c ->
        exists b,
          fst (PlaywrightManager.getBrowser
                 (afterAll [DoCreatePage; DoCloseContext; DoCreateContext;
                            DoSaveTrace (js "a"); DoCloseBrowser;
                            DoCreatePage]
                    (Sim.start Sim.stuckPage 0%N))) = Ok b).
Proof.
  apply (@context_always_has_browser Sim.stuckPage).
  intros H. now elim H.
Defined.

(** ** PlaywrightManager: the order of closing *)

(** X9. [closeBrowser()] closes exactly the handles the manager holds, in
    the order page, context, browser.  When it returns, every one of them
    was closed and no handle is left.  When it throws, the close that
    failed is the last one attempted, every handle before it was closed,
    and the failed handle and all later ones are still stored, never
    having been closed. *)
Theorem closeBrowser_closes_in_order (pf : Platform) (s : State) :
  exists d,
    trace (snd (PlaywrightManager.closeBrowser s)) = trace s ++ d
    /\ match fst (PlaywrightManager.closeBrowser s) with
       | Ok _ =>
           closings d = map closedOk (handlesOf (mgr s))
           /\ handlesOf (mgr (snd (PlaywrightManager.closeBrowser s))) = []
       | Throw _ =>
           exists k failed,
             nth_error (handlesOf (mgr s)) k = Some failed
             /\ closings d
                = map closedOk (firstn k (handlesOf (mgr s)))
                  ++ [(failed, false)]
             /\ handlesOf (mgr (snd (PlaywrightManager.closeBrowser s)))
                = skipn k (handlesOf (mgr s))
       end.
Proof.
  unfold PlaywrightManager.closeBrowser, PlaywrightManager.closePage,
    PlaywrightManager.closeContext, handlesOf.
  run.
  destruct (page (mgr s)) as [p|] eqn:Hp;
    destruct (context (mgr s)) as [c|] eqn:Hc;
    destruct (browser (mgr s)) as [b|] eqn:Hb; cbn;
    rewrite ?Hp, ?Hc, ?Hb;
    repeat (answer; rewrite ?Hp, ?Hc, ?Hb; cbn);
    eexists;
    (split;
       [first [ symmetry; apply app_nil_r
              | rewrite <- ?app_assoc; reflexivity ]|]);
    try (split; reflexivity);
    solve [ exists 0; eexists; repeat split; reflexivity
          | exists 1; eexists; repeat split; reflexivity
          | exists 2; eexists; repeat split; reflexivity ].
Qed.

(** ** global-setup.ts: the bootstrap as a whole *)

Section Bootstrap.
Context {pf : Platform}.
Import GlobalSetup.

(** A fallback loop returns, whatever the page answers, and asks nothing
    of the platform but probes, clicks and fills. *)
Lemma trySelectors_interacts p action label selectors (s : State) :
  exists found s' d,
    trySelectors p action label selectors s = (Ok found, s')
    /\ mgr s' = mgr s
    /\ trace s' = trace s ++ d
    /\ filter isPlumbing d = [].
Proof.
  revert s. induction selectors as [|selector rest IH]; intros s.
  - exists false, s, []. cbn. now rewrite app_nil_r.
  - cbn [trySelectors]. run.
    assert (K : forall st d0,
              mgr st = mgr s -> trace st = trace s ++ d0 ->
              filter isPlumbing d0 = [] ->
              exists found s' d,
                trySelectors p action label rest st = (Ok found, s')
                /\ mgr s' = mgr s /\ trace s' = trace s ++ d
                /\ filter isPlumbing d = []).
    { intros st d0 Hm Ht Hf.
      destruct (IH st) as (found & s' & d & E & M' & T & F).
      exists found, s', (d0 ++ d). split; [exact E|].
      split; [congruence|]. split; [now rewrite T, Ht, app_assoc|].
      now rewrite filter_app, Hf, F. }
    answer.
    + match goal with
      | E : perform _ _ = (Ok ?v, _) |- _ => destruct v
      end; cbn.
      * answer.
        -- eexists true, _, _. split; [reflexivity|]. split; [reflexivity|].
           cbn [trace]. split; [now rewrite <- !app_assoc|].
           now destruct action.
        -- eapply K; [reflexivity | cbn [trace]; now rewrite <- !app_assoc|].
           now destruct action.
      * eapply K; [reflexivity | reflexivity | reflexivity].
    + eapply K; [reflexivity | reflexivity | reflexivity].
Qed.

End Bootstrap.

#[local] Arguments GlobalSetup.trySelectors : simpl never.

(** Runs the next fallback loop of the goal. *)
Ltac loop f s' d E M T F :=
  match goal with
  | |- context [GlobalSetup.trySelectors ?p ?a ?l ?sels ?st] =>
      destruct (trySelectors_interacts p a l sels st)
        as (f & s' & d & E & M & T & F);
      rewrite E; cbn [mgr world trace] in M, T; cbn
  end.

(** X10. The login bootstrap is best effort.  On a platform whose calls
    other than visibility probes, clicks and fills do not throw,
    [globalSetup] returns normally whatever the page shows and however its
    probes, clicks and fills end, also when no login element, field or
    submit button is ever found.  Apart from those interactions it makes
    exactly these calls, in this order: the storage directory is created
    if missing; Chromium is launched headless; a context without storage
    state and a page are opened; the base URL is loaded; after the two
    waits and the load-state wait the storage state is written to the
    resolved storage path; the browser is closed. *)
Theorem globalSetup_best_effort (pf : Platform) (s : State) :
  reliable notInteraction ->
  let baseUrl :=
    orDefault (env_BASE_URL process_env) (js "https://trade.multibank.io/") in
  let storagePath :=
    pathResolveCwd
      (orDefault (env_STORAGE_STATE_PATH process_env)
                 (js "storage/auth.json")) in
  exists b c p d,
    fst (GlobalSetup.globalSetup s) = Ok tt
    /\ mgr (snd (GlobalSetup.globalSetup s)) = mgr s
    /\ trace (snd (GlobalSetup.globalSetup s)) = trace s ++ d
    /\ filter isPlumbing d
       = (if existsSync (pathDirname storagePath) (world s) then []
          else [Call (MkdirSync (pathDirname storagePath)) (Ok tt)])
         ++ [Call (Launch chromium
                     {| lo_headless := true; lo_slowMo := None |}) (Ok b);
             Call (NewContext b
                     {| co_viewport := (1920%N, 1080%N);
                        co_ignoreHTTPSErrors := true;
                        co_acceptDownloads := None;
                        co_storageState := None;
                        co_recordVideo := None |}) (Ok c);
             Call (NewPage c) (Ok p);
             Call (Goto p baseUrl domcontentloaded 60000%N) (Ok tt);
             Call (WaitForTimeout p 3000%N) (Ok tt);
             Call (WaitForTimeout p 5000%N) (Ok tt);
             Call (WaitForLoadState p domcontentloaded) (Ok tt);
             Call (StorageState c storagePath) (Ok tt);
             Call (BrowserClose b) (Ok tt)].
Proof.
  intros R baseUrl storagePath.
  unfold GlobalSetup.globalSetup, GlobalSetup.guardedFlow,
    GlobalSetup.loginFlow, GlobalSetup.releaseBrowser.
  fold baseUrl. fold storagePath.
  set (email := orDefault (env_LOGIN_EMAIL process_env) []).
  set (password := orDefault (env_LOGIN_PASSWORD process_env) []).
  run.
  destruct (existsSync (pathDirname storagePath) (world s)); cbn;
    repeat (answer; [|trusted R]).
  all: loop f1 s1 d1 L1 M1 T1 F1; destruct f1; cbn.
  all: repeat (answer; [|trusted R]).
  all: loop f2 s2 d2 L2 M2 T2 F2.
  all: loop f3 s3 d3 L3 M3 T3 F3.
  all: loop f4 s4 d4 L4 M4 T4 F4.
  all: repeat (answer; [|trusted R]).
  all: do 3 eexists; eexists;
    (split; [reflexivity|]);
    (split; [cbn [mgr] in *; congruence|]);
    (split;
       [rewrite T4; cbn [trace]; rewrite T3; cbn [trace]; rewrite T2;
        cbn [trace]; rewrite T1; cbn [trace];
        rewrite <- ?app_assoc; reflexivity|]);
    rewrite ?filter_app, F1, F2, F3, F4; reflexivity.
Qed.

Lemma globalSetup_best_effort_witness :
  exists b c p d,
    fst (@GlobalSetup.globalSetup Sim.quiet (Sim.start Sim.quiet 0%N))
    = Ok tt
    /\ mgr (snd (@GlobalSetup.globalSetup Sim.quiet
                   (Sim.start Sim.quiet 0%N)))
       = mgr (Sim.start Sim.quiet 0%N)
    /\ trace (snd (@GlobalSetup.globalSetup Sim.quiet
                     (Sim.start Sim.quiet 0%N)))
       = trace (Sim.start Sim.quiet 0%N) ++ d
    /\ filter isPlumbing d
       = (if @existsSync Sim.quiet
               (@pathDirname Sim.quiet
                  (@pathResolveCwd Sim.quiet
                     (orDefault
                        (env_STORAGE_STATE_PATH (@process_env Sim.quiet))
                        (js "storage/auth.json"))))
               (world (Sim.start Sim.quiet 0%N))
          then []
          else [Call (MkdirSync
                        (@pathDirname Sim.quiet
                           (@pathResolveCwd Sim.quiet
                              (orDefault
                                 (env_STORAGE_STATE_PATH
                                    (@process_env Sim.quiet))
                                 (js "storage/auth.json")))))
                     (Ok tt)])
         ++ [Call (Launch chromium
                     {| lo_headless := true; lo_slowMo := None |}) (Ok b);
             Call (NewContext b
                     {| co_viewport := (1920%N, 1080%N);
                        co_ignoreHTTPSErrors := true;
                        co_acceptDownloads := None;
                        co_storageState := None;
                        co_recordVideo := None |}) (Ok c);
             Call (NewPage c) (Ok p);
             Call (Goto p
                     (orDefault (env_BASE_URL (@process_env Sim.quiet))
                        (js "https://trade.multibank.io/"))
                     domcontentloaded 60000%N) (Ok tt);
             Call (WaitForTimeout p 3000%N) (Ok tt);
             Call (WaitForTimeout p 5000%N) (Ok tt);
             Call (WaitForLoadState p domcontentloaded) (Ok tt);
             Call (StorageState c
                     (@pathResolveCwd Sim.quiet
                        (orDefault
                           (env_STORAGE_STATE_PATH (@process_env Sim.quiet))
                           (js "storage/auth.json")))) (Ok tt);
             Call (BrowserClose b) (Ok tt)].
Proof.
  apply (@globalSetup_best_effort Sim.quiet (Sim.start Sim.quiet 0%N)).
  intros A o w _. reflexivity.
Defined.

(** ** PlaywrightManager: the first launch *)

(** X11. With no browser stored, [launchBrowser()] asks the platform once
    for the engine its [switch] selects from the lower-cased [BROWSER]
    setting: Firefox and WebKit by their names, Chromium for every other
    value.  When the platform answers with a browser, that browser is
    returned and stored and the other two handles are kept.  When the
    launch throws, the error reaches the caller and the manager is left as
    it was, so that a later call launches again. *)
Theorem launchBrowser_first_launch (pf : Platform) (s : State) :
  browser (mgr s) = None ->
  let browserType := toLowerCase (Env.BROWSER Env.ENV) in
  let engine := PlaywrightManager.engineOf browserType in
  (engine = firefox <-> browserType = js "firefox")
  /\ (engine = webkit <-> browserType = js "webkit")
  /\ (engine = chromium
      <-> browserType <> js "firefox" /\ browserType <> js "webkit")
  /\ exists r,
       r = fst (perform
                  (Launch engine
                     {| lo_headless := Env.HEADLESS Env.ENV;
                        lo_slowMo := Some (Env.SLOW_MO Env.ENV) |})
                  (world s))
       /\ trace (snd (PlaywrightManager.launchBrowser s))
          = trace s
            ++ [Log Info (js "Launching browser: " ++ browserType) None;
                Call (Launch engine
                        {| lo_headless := Env.HEADLESS Env.ENV;
                           lo_slowMo := Some (Env.SLOW_MO Env.ENV) |}) r]
       /\ fst (PlaywrightManager.launchBrowser s) = r
       /\ mgr (snd (PlaywrightManager.launchBrowser s))
          = match r with
            | Ok b => {| browser := Some b;
                         context := context (mgr s);
                         page := page (mgr s) |}
            | Throw _ => mgr s
            end.
Proof.
  intros H browserType engine.
  destruct (engineOf_spec browserType) as (F & W & C).
  split; [exact F|]. split; [exact W|]. split; [exact C|].
  unfold PlaywrightManager.launchBrowser. run. rewrite H. cbn.
  fold browserType. fold engine.
  destruct (perform _ (world s)) as [[b|e] w1]; cbn;
    eexists; (split; [reflexivity|]);
    (split; [now rewrite <- app_assoc|]); split; reflexivity.
Qed.

Lemma launchBrowser_first_launch_witness :
  PlaywrightManager.engineOf
    (@toLowerCase Sim.tracing (Env.BROWSER (@Env.ENV Sim.tracing)))
  = firefox
  /\ fst (@PlaywrightManager.launchBrowser Sim.tracing
            (Sim.start Sim.tracing 0%N)) = Ok (BrowserObj 0).
Proof.
  destruct (@launchBrowser_first_launch Sim.tracing
              (Sim.start Sim.tracing 0%N) eq_refl)
    as (F & _ & _ & r & Hr & _ & Hf & _).
  split; [apply F; reflexivity|].
  rewrite Hf, Hr. reflexivity.
Defined.

(** ** hooks.ts: the end of a scenario *)

Section SteadyRules.
Context {pf : Platform}.
Variable I : Manager -> Prop.
Variable P : event -> Prop.

Lemma steady_ret {A} (a : A) : steady I P (ret a).
Proof. intros s Hs. split; [exact Hs|]. exists []. cbn. now rewrite app_nil_r. Qed.

Lemma steady_throw {A} (e : exn) : steady I P (throw e : M A).
Proof. intros s Hs. split; [exact Hs|]. exists []. cbn. now rewrite app_nil_r. Qed.

Lemma steady_getMgr : steady I P getMgr.
Proof. intros s Hs. split; [exact Hs|]. exists []. cbn. now rewrite app_nil_r. Qed.

Lemma steady_fsExistsSync path : steady I P (fsExistsSync path).
Proof. intros s Hs. split; [exact Hs|]. exists []. cbn. now rewrite app_nil_r. Qed.

Lemma steady_now : steady I P now.
Proof. intros s Hs. split; [exact Hs|]. exists []. cbn. now rewrite app_nil_r. Qed.

Lemma steady_nonNull {A} (x : option A) :
  steady I P (PlaywrightManager.nonNull x).
Proof. destruct x; [apply steady_ret | apply steady_throw]. Qed.

Lemma steady_log lvl msg detail :
  P (Log lvl msg detail) -> steady I P (log lvl msg detail).
Proof. intros H s Hs. split; [exact Hs|]. exists [Log lvl msg detail]. cbn. auto. Qed.

Lemma steady_call {A} (o : op A) :
  (forall r, P (Call o r)) -> steady I P (call o).
Proof.
  intros H s Hs. unfold steadyAt, call.
  destruct (perform o (world s)) as [r w]. cbn. split; [exact Hs|].
  exists [Call o r]. auto.
Qed.

Lemma steadyAt_bind {A B} (m : M A) (k : A -> M B) (s : State) :
  steadyAt I P m s -> (forall a, steady I P (k a)) ->
  steadyAt I P (bind m k) s.
Proof.
  intros (Hi & d1 & E1 & F1) Hk. unfold steadyAt, bind in *.
  destruct (m s) as [[a|e] s1]; cbn in *.
  - destruct (Hk a s1 Hi) as (Hi2 & d2 & E2 & F2). split; [exact Hi2|].
    exists (d1 ++ d2). rewrite E2, E1, app_assoc. split; [reflexivity|].
    apply Forall_app; auto.
  - split; [exact Hi|]. now exists d1.
Qed.

Lemma steady_bind {A B} (m : M A) (k : A -> M B) :
  steady I P m -> (forall a, steady I P (k a)) -> steady I P (bind m k).
Proof. intros Hm Hk s Hs. apply steadyAt_bind; auto. Qed.

Lemma steady_tryCatch {A} (m : M A) (h : exn -> M A) :
  steady I P m -> (forall e, steady I P (h e)) -> steady I P (tryCatch m h).
Proof.
  intros Hm Hh s Hs. destruct (Hm s Hs) as (Hi & d1 & E1 & F1).
  unfold steadyAt, tryCatch in *.
  destruct (m s) as [[a|e] s1]; cbn in *.
  - split; [exact Hi|]. now exists d1.
  - destruct (Hh e s1 Hi) as (Hi2 & d2 & E2 & F2). split; [exact Hi2|].
    exists (d1 ++ d2). rewrite E2, E1, app_assoc. split; [reflexivity|].
    apply Forall_app; auto.
Qed.

Lemma steady_setContext (c : option BrowserContext) :
  (forall m, I m -> I {| browser := browser m; context := c;
                         page := page m |}) ->
  steady I P (setContext c).
Proof.
  intros H s Hs. split; [apply H, Hs|]. exists []. cbn. now rewrite app_nil_r.
Qed.

Lemma steady_setPage (p : option Page) :
  (forall m, I m -> I {| browser := browser m; context := context m;
                         page := p |}) ->
  steady I P (setPage p).
Proof.
  intros H s Hs. split; [apply H, Hs|]. exists []. cbn. now rewrite app_nil_r.
Qed.

(** A program that starts by reading the manager may rely on what it
    reads. *)
Lemma steady_inspect {A} (k : Manager -> M A) :
  (forall s, I (mgr s) -> steadyAt I P (k (mgr s)) s) ->
  steady I P (bind getMgr k).
Proof. intros H s Hs. exact (H s Hs). Qed.

End SteadyRules.

Ltac steady_step :=
  match goal with
  | |- steady _ _ (ret _) => apply steady_ret
  | |- steady _ _ (throw _) => apply steady_throw
  | |- steady _ _ getMgr => apply steady_getMgr
  | |- steady _ _ (fsExistsSync _) => apply steady_fsExistsSync
  | |- steady _ _ now => apply steady_now
  | |- steady _ _ (PlaywrightManager.nonNull _) => apply steady_nonNull
  | |- steady _ _ (log _ _ _) => apply steady_log; repeat split
  | |- steady _ _ (call _) => apply steady_call; intros ?; repeat split
  | |- steady _ _ (setContext _) =>
      apply steady_setContext; intros ? ?; assumption
  | |- steady _ _ (setPage _) =>
      apply steady_setPage; intros ? ?; assumption
  | |- steady _ _ (bind _ _) => apply steady_bind; [|intros ?]
  | |- steady _ _ (tryCatch _ _) => apply steady_tryCatch; [|intros ?]
  | |- steady _ _ (if ?b then _ else _) => destruct b
  | |- steady _ _ (match ?x with _ => _ end) => destruct x
  end.

Ltac steady_all := repeat steady_step.

Section Returning.
Context {pf : Platform}.

Lemma returns_ret {A} (a : A) : returns (ret a).
Proof. intros s. reflexivity. Qed.

Lemma returns_log lvl msg detail : returns (log lvl msg detail).
Proof. intros s. reflexivity. Qed.

Lemma returns_fsExistsSync path : returns (fsExistsSync path).
Proof. intros s. reflexivity. Qed.

Lemma returns_bind {A B} (m : M A) (k : A -> M B) :
  returns m -> (forall a, returns (k a)) -> returns (bind m k).
Proof.
  intros Hm Hk s. specialize (Hm s). unfold bind.
  destruct (m s) as [[a|e] s1]; [apply Hk | discriminate Hm].
Qed.

(** A [try] whose handler returns, returns. *)
Lemma returns_tryCatch {A} (m : M A) (h : exn -> M A) :
  (forall e, returns (h e)) -> returns (tryCatch m h).
Proof.
  intros Hh s. unfold tryCatch.
  destruct (m s) as [[a|e] s1]; [reflexivity | apply Hh].
Qed.

Lemma steady_weaken {A} (I : Manager -> Prop) (P Q : event -> Prop)
    (m : M A) :
  (forall ev, P ev -> Q ev) -> steady I P m -> steady I Q m.
Proof.
  intros W H s Hs. destruct (H s Hs) as (Hi & d & E & F).
  split; [exact Hi|]. exists d. split; [exact E|].
  eapply Forall_impl; eauto.
Qed.

(** What a program that returns and leaves the manager alone does to a
    state. *)
Lemma settle {A} (P : event -> Prop) (m : M A) (s : State) :
  frames P m -> returns m ->
  exists a s1 d,
    m s = (Ok a, s1) /\ mgr s1 = mgr s /\ trace s1 = trace s ++ d
    /\ Forall P d.
Proof.
  intros F R. destruct (F (mgr s) s eq_refl) as (Hm & d & E & Fd).
  specialize (R s). destruct (m s) as [[a|e] s1]; [|discriminate R].
  now exists a, s1, d.
Qed.

End Returning.

Ltac returns_step :=
  match goal with
  | |- returns (ret _) => apply returns_ret
  | |- returns (log _ _ _) => apply returns_log
  | |- returns (fsExistsSync _) => apply returns_fsExistsSync
  | |- returns (tryCatch _ _) => apply returns_tryCatch; intros ?
  | |- returns (bind _ _) => apply returns_bind; [|intros ?]
  | |- returns (if ?b then _ else _) => destruct b
  | |- returns (match ?x with _ => _ end) => destruct x
  end.

Section EndOfScenario.
Context {pf : Platform}.
Import PlaywrightManager Env.

Lemma takeScreenshot_frames (name : option jsstring) :
  frames keepsHandles (takeScreenshot name).
Proof. intros m0. unfold takeScreenshot. steady_all. Qed.

Lemma saveTrace_frames (scenarioName : jsstring) :
  frames (fun ev => keepsHandles ev
                   /\ savesTrace ev = true /\ isReportEvent ev = false)
         (saveTrace scenarioName).
Proof. intros m0. unfold saveTrace. steady_all. Qed.

Variable readFileSync : jsstring -> World -> result Buffer.

Lemma fsReadFileSync_steady (I : Manager -> Prop) (P : event -> Prop) path :
  steady I P (ScenarioEnd.fsReadFileSync readFileSync path).
Proof.
  intros s Hs. split; [exact Hs|]. exists []. cbn. now rewrite app_nil_r.
Qed.

(** Everything [After] does before it closes the page. *)
Lemma After_diagnostics (failed : bool) (scenarioName : jsstring)
    (s : State) :
  exists s1 d,
    mgr s1 = mgr s /\ trace s1 = trace s ++ d
    /\ Forall (fun ev => keepsHandles ev
                         /\ (failed = false ->
                             savesTrace ev = true
                             /\ isReportEvent ev = false)) d
    /\ ScenarioEnd.After readFileSync failed scenarioName s
       = (closePage ;; closeContext) s1.
Proof.
  unfold ScenarioEnd.After.
  match goal with
  | |- context [bind ?m1 (fun _ => bind ?m2 (fun tracePath => bind (@?m3 tracePath) _))] =>
      set (D1 := m1); set (D2 := m2); set (D3 := m3)
  end.
  set (P := fun ev => keepsHandles ev
                      /\ (failed = false ->
                          savesTrace ev = true
                          /\ isReportEvent ev = false)).
  assert (S1 : frames P D1 /\ returns D1).
  { subst D1 P. split; [intros m0|]; destruct failed.
    - steady_all; try discriminate.
      eapply steady_weaken; [|apply takeScreenshot_frames].
      intros ev H. split; [exact H | discriminate].
    - steady_all; reflexivity.
    - repeat returns_step.
    - repeat returns_step. }
  assert (S2 : frames P D2 /\ returns D2).
  { subst D2 P. split; [intros m0|].
    - steady_all; try reflexivity.
      eapply steady_weaken; [|apply saveTrace_frames].
      intros ev (H & H'). split; [exact H | intros _; exact H'].
    - repeat returns_step. }
  assert (S3 : forall tp, frames P (D3 tp) /\ returns (D3 tp)).
  { intros tp. subst D3 P. cbn beta.
    split; [intros m0|]; destruct failed; cbn.
    - destruct tp as [[|c path']|]; steady_all; try discriminate.
      apply fsReadFileSync_steady.
    - steady_all.
    - destruct tp as [[|c path']|]; repeat returns_step.
    - repeat returns_step. }
  destruct S1 as (F1 & R1). destruct S2 as (F2 & R2).
  destruct (settle s F1 R1) as (a1 & s1 & d1 & E1 & M1 & T1 & P1).
  destruct (settle s1 F2 R2) as (tp & s2 & d2 & E2 & M2 & T2 & P2).
  destruct (S3 tp) as (F3 & R3).
  destruct (settle s2 F3 R3) as (a3 & s3 & d3 & E3 & M3 & T3 & P3).
  exists s3, (d1 ++ d2 ++ d3).
  split; [congruence|].
  split; [rewrite T3, T2, T1; now rewrite <- !app_assoc|].
  split; [repeat (apply Forall_app; split); assumption|].
  unfold bind at 1. rewrite E1. unfold bind at 1. rewrite E2.
  unfold bind at 1. fold (D3 tp). rewrite E3. reflexivity.
Qed.

End EndOfScenario.

Section BrowserKept.
Context {pf : Platform}.
Import PlaywrightManager Env.
Variable b : Browser.

Lemma launchBrowser_held : steady (holdsBrowser b) calm launchBrowser.
Proof.
  unfold launchBrowser. apply steady_inspect. intros s Hs.
  rewrite Hs. now apply steady_ret.
Qed.

Lemma createContext_held : steady (holdsBrowser b) calm createContext.
Proof.
  unfold createContext. apply steady_inspect. intros s Hs.
  rewrite Hs. apply steadyAt_bind; [now apply steady_ret|].
  intros _. steady_all.
Qed.

Lemma createPage_held : steady (holdsBrowser b) calm createPage.
Proof.
  unfold createPage. apply steady_inspect. intros s Hs.
  apply steadyAt_bind.
  - destruct (context (mgr s)); [now apply steady_ret|].
    apply steady_bind;
      [apply createContext_held | intros ?; steady_all | exact Hs].
  - intros _. steady_all.
Qed.

Lemma closePage_held : steady (holdsBrowser b) calm closePage.
Proof. unfold closePage. steady_all. Qed.

Lemma closeContext_held : steady (holdsBrowser b) calm closeContext.
Proof. unfold closeContext. steady_all. Qed.

Lemma Before_held hw pickleName :
  steady (holdsBrowser b) calm (Hooks.Before hw pickleName).
Proof.
  unfold Hooks.Before.
  apply steady_bind; [steady_all|intros _].
  apply steady_bind; [apply launchBrowser_held|intros _].
  apply steady_bind; [apply createContext_held|intros _].
  apply steady_bind; [apply createPage_held|intros _].
  apply steady_ret.
Qed.

End BrowserKept.


(** X13. The browser is shared by the scenarios of a run.  With a browser
    stored, [After] followed by the [Before] of the next scenario keeps
    that browser stored, launches no browser and closes none, however
    either hook ends.  When both hooks return, the next scenario has got
    one new context and one new page. *)
Theorem browser_kept_between_scenarios (pf : Platform)
    (readFileSync : jsstring -> World -> result Buffer)
    (failed : bool) (scenarioName nextName : jsstring)
    (hw : Hooks.HookWorldContext) (b : Browser) (s : State) :
  browser (mgr s) = Some b ->
  let s1 := snd (ScenarioEnd.After readFileSync failed scenarioName s) in
  let s2 := snd (Hooks.Before hw nextName s1) in
  browser (mgr s1) = Some b
  /\ browser (mgr s2) = Some b
  /\ countOf isLaunch (trace s2) = countOf isLaunch (trace s)
  /\ countOf isBrowserClose (trace s2) = countOf isBrowserClose (trace s)
  /\ (fst (ScenarioEnd.After readFileSync failed scenarioName s) = Ok tt ->
      isOk (fst (Hooks.Before hw nextName s1)) = true ->
      countOf isNewContext (trace s2) = countOf isNewContext (trace s) + 1
      /\ countOf isNewPage (trace s2) = countOf isNewPage (trace s) + 1).
Proof.
  intros Hb s1 s2.
  destruct (After_diagnostics readFileSync failed scenarioName s)
    as (s0 & d0 & M0 & T0 & F0 & E).
  assert (H0 : holdsBrowser b (mgr s0)) by (unfold holdsBrowser; congruence).
  assert (C1 : steady (holdsBrowser b) calm
                 (PlaywrightManager.closePage ;; PlaywrightManager.closeContext)).
  { apply steady_bind; [apply closePage_held | intros _; apply closeContext_held]. }
  destruct (C1 s0 H0) as (H1 & d1 & T1 & F1). rewrite <- E in H1, T1.
  fold s1 in H1, T1.
  destruct (@Before_held pf b hw nextName s1 H1) as (H2 & d2 & T2 & F2).
  fold s2 in H2, T2.
  assert (K : forall f, (forall ev, keepsHandles ev -> f ev = false) ->
              countOf f (trace s0) = countOf f (trace s)).
  { intros f Hf. rewrite T0, countOf_app, (@countOf_none f d0); [lia|].
    eapply Forall_impl; [|exact F0]. intros ev (H & _). now apply Hf. }
  split; [exact H1|]. split; [exact H2|].
  split; [|split].
  - rewrite T2, T1, !countOf_app, (@countOf_none isLaunch d2),
      (@countOf_none isLaunch d1), (K isLaunch); [lia| | |].
    + now intros ev (_ & H & _).
    + eapply Forall_impl; [|exact F1]. now intros ev (H & _).
    + eapply Forall_impl; [|exact F2]. now intros ev (H & _).
  - rewrite T2, T1, !countOf_app, (@countOf_none isBrowserClose d2),
      (@countOf_none isBrowserClose d1), (K isBrowserClose); [lia| | |].
    + intros ev (H & _). destruct ev as [A o r|]; [|reflexivity].
      now destruct o.
    + eapply Forall_impl; [|exact F1]. now intros ev (_ & H).
    + eapply Forall_impl; [|exact F2]. now intros ev (_ & H).
  - intros RA RB.
    assert (N1 : countOf isNewContext (trace s1) = countOf isNewContext (trace s)
                 /\ countOf isNewPage (trace s1) = countOf isNewPage (trace s)).
    { unfold s1. rewrite E.
      rewrite <- (K isNewContext), <- (K isNewPage);
        [| now intros ev (_ & _ & _ & H) | now intros ev (_ & _ & H & _)].
      assert (Q : forall f, f (Log Info (js "Page closed") None) = false ->
                  f (Log Info (js "Context closed") None) = false ->
                  (forall A (o : op A) r, isClose o = true -> f (Call o r) = false) ->
                  countOf f (trace (snd ((PlaywrightManager.closePage ;;
                                          PlaywrightManager.closeContext) s0)))
                  = countOf f (trace s0)).
      { intros f L1 L2 Lc. apply emits_count.
        unfold PlaywrightManager.closePage, PlaywrightManager.closeContext.
        repeat first
          [ apply emits_bind; [|intros ?]
          | apply emits_getMgr
          | apply emits_ret
          | apply emits_call; intros; apply Lc; reflexivity
          | apply emits_log; assumption
          | apply emits_setMgr
          | match goal with
            | |- emits _ (match ?x with _ => _ end) => destruct x
            | |- emits _ (setPage _) => intros ?
            | |- emits _ (setContext _) => intros ?
            end ]. }
      split; apply Q; try reflexivity; intros A o r; now destruct o. }
    destruct (Hooks.Before hw nextName s1) as [[hw'|e] s2'] eqn:EB;
      [|discriminate RB].
    destruct (Before_returned _ _ _ EB) as (_ & _ & NC & NP & _).
    unfold s2. rewrite ?EB. cbn [snd]. destruct N1 as (N1 & N1').
    rewrite NC, NP, N1, N1'. split; reflexivity.
Qed.

Lemma browser_kept_between_scenarios_witness :
  browser (mgr tracingEnded) = Some (BrowserObj 0)
  /\ browser (mgr tracingNext) = Some (BrowserObj 0)
  /\ countOf isLaunch (trace tracingNext)
     = countOf isLaunch (trace tracingLive)
  /\ countOf isBrowserClose (trace tracingNext)
     = countOf isBrowserClose (trace tracingLive)
  /\ (fst (ScenarioEnd.After (pf := Sim.tracing) unreadable true
             (js "Login fails") tracingLive) = Ok tt ->
      isOk (fst (Hooks.Before
                   {| Hooks._scenarioName := None;
                      Hooks._stepIndex := None |}
                   (js "Footer links") tracingEnded)) = true ->
      countOf isNewContext (trace tracingNext)
      = countOf isNewContext (trace tracingLive) + 1
      /\ countOf isNewPage (trace tracingNext)
         = countOf isNewPage (trace tracingLive) + 1).
Proof.
  apply (@browser_kept_between_scenarios Sim.tracing unreadable true
           (js "Login fails") (js "Footer links")
           {| Hooks._scenarioName := None; Hooks._stepIndex := None |}
           (BrowserObj 0) tracingLive).
  reflexivity.
Defined.

(** ** global-setup.ts: who closes the browser *)

Section BootstrapBrowser.
Context {pf : Platform}.
Import GlobalSetup.

Lemma filter_nil_Forall {A} (f : A -> bool) (l : list A) :
  filter f l = [] -> Forall (fun x => f x = false) l.
Proof.
  induction l as [|x l IH]; cbn; [constructor|].
  destruct (f x) eqn:E; [discriminate|]. constructor; auto.
Qed.

Lemma trySelectors_emits (P : event -> Prop) p action label selectors :
  (forall ev, isPlumbing ev = false -> P ev) ->
  emits P (trySelectors p action label selectors).
Proof.
  intros H s.
  destruct (trySelectors_interacts p action label selectors s)
    as (found & s' & d & E & _ & T & F).
  exists d. rewrite E. split; [exact T|].
  eapply Forall_impl; [|apply filter_nil_Forall, F]. exact H.
Qed.

Lemma loginFlow_idle c p baseUrl email password storagePath :
  emits idle (loginFlow c p baseUrl email password storagePath).
Proof.
  unfold loginFlow.
  repeat first
    [ apply trySelectors_emits;
      intros [A o r|] H; [destruct o; try discriminate H|]; now repeat split
    | apply emits_ret
    | apply emits_call; intros; now repeat split
    | apply emits_log; now repeat split
    | apply emits_if
    | apply emits_bind; [|intros ?] ].
Qed.

Lemma guardedFlow_accounts b c p baseUrl email password storagePath
    (s : State) :
  exists d,
    trace (snd (guardedFlow b c p baseUrl email password storagePath s))
    = trace s ++ d
    /\ countOf isBrowserClose d = 1
    /\ countOf isPageOpened d = 0
    /\ countOf isLaunched d = 0.
Proof.
  destruct (guardedFlow_outcome b c p baseUrl email password storagePath s)
    as (mid & rc & tail & T & _ & Hm & Ht).
  destruct (loginFlow_idle c p baseUrl email password storagePath s)
    as (d0 & T0 & F0).
  exists (d0 ++ mid ++ Call (BrowserClose b) rc :: tail).
  split; [now rewrite T, T0, <- app_assoc|].
  assert (Z : forall f, (forall ev, idle ev -> f ev = false) ->
              countOf f d0 = 0).
  { intros f Hf. apply countOf_none. eapply Forall_impl; [|exact F0].
    exact Hf. }
  rewrite !countOf_app, !Z;
    [| now intros ev (_ & _ & H) | now intros ev (_ & H & _)
     | now intros ev (H & _) ].
  subst tail.
  destruct (fst (loginFlow c p baseUrl email password storagePath s));
    [subst mid | destruct Hm as (rs & ->); destruct rs];
    destruct rc; repeat split.
Qed.

End BootstrapBrowser.

#[local] Arguments GlobalSetup.guardedFlow : simpl never.

(** X14. [globalSetup] closes the browser it launched exactly when it got
    as far as a page: the launch, the context and the page come before its
    [try] statement.  It launches at most one browser and opens at most
    one page; the number of browser closes equals the number of pages
    opened.  So a browser that was launched is left running when creating
    the context or the page throws, and in that case [globalSetup]
    throws. *)
Theorem globalSetup_closes_iff_page (pf : Platform) (s : State) :
  exists d,
    trace (snd (GlobalSetup.globalSetup s)) = trace s ++ d
    /\ countOf isBrowserClose d = countOf isPageOpened d
    /\ countOf isPageOpened d <= countOf isLaunched d
    /\ countOf isLaunched d <= 1
    /\ (countOf isPageOpened d = 0 ->
        isOk (fst (GlobalSetup.globalSetup s)) = false).
Proof.
  unfold GlobalSetup.globalSetup. run.
  destruct (existsSync _ (world s)); cbn;
    repeat answer;
    try match goal with
        | |- context [GlobalSetup.guardedFlow ?b ?c ?p ?u ?e ?pw ?sp ?st] =>
            destruct (guardedFlow_accounts b c p u e pw sp st)
              as (d' & T & C1 & C2 & C3);
            cbn [trace] in T
        end;
    eexists;
    (split; [rewrite ?T; rewrite <- ?app_assoc; reflexivity|]);
    rewrite ?countOf_app, ?C1, ?C2, ?C3; cbn;
    repeat split; try lia; try reflexivity; try discriminate.
Qed.

(** ** PlaywrightManager: handles are replaced, not closed *)

(** X15. [createContext()] and [createPage()] never close anything, and
    the handle they leave stored is the last one the platform handed out
    during the call, or the one stored before when it handed out none.  So
    a context or page that was stored before is replaced without being
    closed, and a context whose timeouts or tracing could not be set up
    stays stored although [createContext()] threw. *)
Theorem create_replaces_without_closing (pf : Platform) (s : State) :
  (exists d,
     trace (snd (PlaywrightManager.createContext s)) = trace s ++ d
     /\ closings d = []
     /\ context (mgr (snd (PlaywrightManager.createContext s)))
        = lastPicked openedContext (context (mgr s)) d
     /\ page (mgr (snd (PlaywrightManager.createContext s))) = page (mgr s))
  /\ (exists d,
        trace (snd (PlaywrightManager.createPage s)) = trace s ++ d
        /\ closings d = []
        /\ context (mgr (snd (PlaywrightManager.createPage s)))
           = lastPicked openedContext (context (mgr s)) d
        /\ page (mgr (snd (PlaywrightManager.createPage s)))
           = lastPicked openedPage (page (mgr s)) d).
Proof.
  split.
  - unfold PlaywrightManager.createContext, PlaywrightManager.launchBrowser.
    run.
    destruct (browser (mgr s)) eqn:Hb; cbn;
      destruct (Env.TRACE_ON_FAILURE Env.ENV);
      repeat first
        [ progress (rewrite ?Hb, ?Hc; cbn)
        | match goal with
          | |- context [existsSync ?p ?w] => destruct (existsSync p w); cbn
          end
        | answer ];
      eexists;
      (split; [first [ symmetry; apply app_nil_r
                     | rewrite <- ?app_assoc; reflexivity ]|]);
      repeat split.
  - unfold PlaywrightManager.createPage, PlaywrightManager.createContext,
      PlaywrightManager.launchBrowser.
    run.
    destruct (context (mgr s)) eqn:Hc; cbn;
      [|destruct (browser (mgr s)) eqn:Hb; cbn;
        destruct (Env.TRACE_ON_FAILURE Env.ENV)];
      repeat first
        [ progress (rewrite ?Hb, ?Hc; cbn)
        | match goal with
          | |- context [existsSync ?p ?w] => destruct (existsSync p w); cbn
          end
        | answer ];
      eexists;
      (split; [first [ symmetry; apply app_nil_r
                     | rewrite <- ?app_assoc; reflexivity ]|]);
      repeat split.
Qed.

(** ** dataLoader.ts *)

Lemma startsWith_app (p s : jsstring) : startsWith (p ++ s) p = true.
Proof.
  induction p as [|x p IH]; cbn; [now destruct s|].
  now rewrite N.eqb_refl, IH.
Qed.

Lemma endsWith_app (s suffix : jsstring) : endsWith (s ++ suffix) suffix = true.
Proof. unfold endsWith. rewrite rev_app_distr. apply startsWith_app. Qed.

Lemma normalizedNameOf_fixed (fileName : jsstring) :
  DataLoader.normalizedNameOf (DataLoader.normalizedNameOf fileName)
  = DataLoader.normalizedNameOf fileName.
Proof.
  unfold DataLoader.normalizedNameOf at 2 3.
  destruct (endsWith fileName (js ".json")) eqn:E;
    unfold DataLoader.normalizedNameOf.
  - now rewrite E.
  - now rewrite endsWith_app.
Qed.

Lemma jseqb_refl (a : jsstring) : jseqb a a = true.
Proof. now apply jseqb_eq. Qed.

Lemma cacheGet_cacheSet (Json : Type) (key : jsstring) (data : Json)
    (c : DataLoader.Cache Json) :
  DataLoader.cacheGet key (DataLoader.cacheSet key data c) = Some data.
Proof.
  induction c as [|[k v] c IH]; cbn.
  - now rewrite jseqb_refl.
  - destruct (jseqb k key) eqn:E; cbn.
    + now rewrite jseqb_refl.
    + now rewrite E.
Qed.

Lemma cacheGet_cacheSet_other (Json : Type) (key key' : jsstring)
    (data data' : Json) (c : DataLoader.Cache Json) :
  DataLoader.cacheGet key c = Some data ->
  DataLoader.cacheGet key' c = None ->
  DataLoader.cacheGet key (DataLoader.cacheSet key' data' c) = Some data.
Proof.
  induction c as [|[k v] c IH]; cbn; [discriminate|].
  destruct (jseqb k key') eqn:E'; [discriminate|].
  destruct (jseqb k key) eqn:E; cbn; rewrite E; auto.
Qed.

(** A cached entry survives every later call of [load]. *)
Lemma load_keeps_entries (pf : Platform) (Json : Type)
    (readFileUtf8 : jsstring -> World -> result jsstring)
    (jsonParse : jsstring -> result Json)
    (path_join : jsstring -> jsstring -> jsstring)
    (fileName key : jsstring) (data : Json) (st : DataLoader.Loader Json) :
  DataLoader.cacheGet key (DataLoader.cache st) = Some data ->
  DataLoader.cacheGet key
    (DataLoader.cache
       (snd (DataLoader.load readFileUtf8 jsonParse path_join fileName st)))
  = Some data.
Proof.
  intros G. unfold DataLoader.load.
  destruct (DataLoader.cacheGet (DataLoader.normalizedNameOf fileName)
              (DataLoader.cache st)) eqn:E; [exact G|].
  destruct (negb _); [exact G|].
  destruct (match readFileUtf8 _ _ with Ok _ => _ | Throw _ => _ end);
    [|exact G].
  cbn. now apply cacheGet_cacheSet_other.
Qed.

(** X16. Data that was loaded once is served from the cache until the
    cache is cleared.  After [load(f)] has returned [d], every later
    [load(g)] whose normalised name is that of [f] returns [d] and does
    nothing but write one debug line, whatever was loaded and whatever
    else ran in between: it does not look at the file system, so it
    returns [d] also when the file has changed, has vanished or can no
    longer be parsed.  The normalised name of [f], which is [f] itself or
    [f] with [.json] appended, is such a [g]. *)
Theorem load_served_from_cache (pf : Platform) (Json : Type)
    (readFileUtf8 readFileUtf8' : jsstring -> World -> result jsstring)
    (jsonParse jsonParse' : jsstring -> result Json)
    (path_join path_join' : jsstring -> jsstring -> jsstring)
    (f g : jsstring) (d : Json)
    (st st' st2 : DataLoader.Loader Json) :
  DataLoader.load readFileUtf8 jsonParse path_join f st = (Ok d, st') ->
  DataLoader.normalizedNameOf g = DataLoader.normalizedNameOf f ->
  later st' st2 ->
  DataLoader.load readFileUtf8' jsonParse' path_join' g st2
  = (Ok d,
     DataLoader.logged Debug
       (js "Loading cached test data: " ++ DataLoader.normalizedNameOf f) st2)
  /\ DataLoader.normalizedNameOf (DataLoader.normalizedNameOf f)
     = DataLoader.normalizedNameOf f
  /\ (DataLoader.normalizedNameOf f = f
      \/ DataLoader.normalizedNameOf f = f ++ js ".json").
Proof.
  intros L N C. split.
  - assert (G : DataLoader.cacheGet (DataLoader.normalizedNameOf f)
                  (DataLoader.cache st') = Some d).
    { revert L. unfold DataLoader.load.
      destruct (DataLoader.cacheGet _ (DataLoader.cache st)) as [d0|] eqn:E.
      - intros [= <- <-]. exact E.
      - destruct (negb _); [discriminate|].
        destruct (match readFileUtf8 _ _ with Ok _ => _ | Throw _ => _ end);
          [|discriminate].
        intros [= <- <-]. cbn. apply cacheGet_cacheSet. }
    assert (G2 : DataLoader.cacheGet (DataLoader.normalizedNameOf f)
                   (DataLoader.cache st2) = Some d).
    { induction C as [|st1 rf jp pj name C IH|st1 r C IH];
        [exact G | now apply load_keeps_entries | exact IH]. }
    unfold DataLoader.load. now rewrite N, G2.
  - split; [apply normalizedNameOf_fixed|].
    unfold DataLoader.normalizedNameOf.
    destruct (endsWith f (js ".json")); auto.
Qed.

Lemma load_served_from_cache_witness :
  DataLoader.load (pf := stocked) lostText lostParse pathJoin
    (js "users.json")
    (snd (DataLoader.load (pf := stocked) lostText lostParse pathJoin
            (js "orders")
            (snd (DataLoader.load (pf := stocked) sevenText sevenParse
                    pathJoin (js "users") (emptyLoader stocked 0%N)))))
  = (Ok 7%N,
     DataLoader.logged Debug
       (js "Loading cached test data: "
        ++ DataLoader.normalizedNameOf (js "users"))
       (snd (DataLoader.load (pf := stocked) lostText lostParse pathJoin
               (js "orders")
               (snd (DataLoader.load (pf := stocked) sevenText sevenParse
                       pathJoin (js "users") (emptyLoader stocked 0%N))))))
  /\ DataLoader.normalizedNameOf (DataLoader.normalizedNameOf (js "users"))
     = DataLoader.normalizedNameOf (js "users")
  /\ (DataLoader.normalizedNameOf (js "users") = js "users"
      \/ DataLoader.normalizedNameOf (js "users") = js "users" ++ js ".json").
Proof.
  apply (@load_served_from_cache stocked N sevenText lostText sevenParse
           lostParse pathJoin pathJoin
           (js "users") (js "users.json") 7%N (emptyLoader stocked 0%N)
           (snd (DataLoader.load (pf := stocked) sevenText sevenParse
                   pathJoin (js "users") (emptyLoader stocked 0%N))));
    [reflexivity | reflexivity |].
  apply later_load, later_now.
Defined.

(** X17. A [load] that throws has changed nothing: the cache and the log
    are as before, so the failure is not remembered and the next call
    goes to the file system again.  The file was not in the cache.  The
    message names the joined path when the file does not exist, and the
    normalised name followed by the message of the read or parse error
    otherwise. *)
Theorem load_failure_changes_nothing (pf : Platform) (Json : Type)
    (readFileUtf8 : jsstring -> World -> result jsstring)
    (jsonParse : jsstring -> result Json)
    (path_join : jsstring -> jsstring -> jsstring)
    (f : jsstring) (st : DataLoader.Loader Json) (e : exn) :
  fst (DataLoader.load readFileUtf8 jsonParse path_join f st) = Throw e ->
  snd (DataLoader.load readFileUtf8 jsonParse path_join f st) = st
  /\ DataLoader.cacheGet (DataLoader.normalizedNameOf f) (DataLoader.cache st)
     = None
  /\ (if existsSync
           (path_join DataLoader.testDataDir (DataLoader.normalizedNameOf f))
           (world (DataLoader.rest st))
      then exists error,
             match readFileUtf8
                     (path_join DataLoader.testDataDir
                        (DataLoader.normalizedNameOf f))
                     (world (DataLoader.rest st)) with
             | Ok rawData => jsonParse rawData
             | Throw error' => Throw error'
             end = Throw error
             /\ e = JsError (js "Failed to parse test data file "
                             ++ DataLoader.normalizedNameOf f ++ js ": "
                             ++ messageOf error)
      else e = JsError (js "Test data file not found: "
                        ++ path_join DataLoader.testDataDir
                             (DataLoader.normalizedNameOf f))).
Proof.
  unfold DataLoader.load.
  destruct (DataLoader.cacheGet _ (DataLoader.cache st)); [discriminate|].
  destruct (existsSync _ _); cbn [negb].
  - destruct (match readFileUtf8 _ _ with Ok _ => _ | Throw _ => _ end)
      as [d|error]; [discriminate|].
    cbn. intros [= <-]. repeat split. now exists error.
  - cbn. intros [= <-]. repeat split.
Qed.

Lemma load_failure_changes_nothing_witness :
  snd (DataLoader.load (pf := Sim.quiet) sevenText sevenParse pathJoin
         (js "users") (emptyLoader Sim.quiet 0%N))
  = emptyLoader Sim.quiet 0%N.
Proof.
  destruct (@load_failure_changes_nothing Sim.quiet N sevenText sevenParse
              pathJoin (js "users") (emptyLoader Sim.quiet 0%N)
              (JsError (js "Test data file not found: "
                        ++ pathJoin DataLoader.testDataDir
                             (DataLoader.normalizedNameOf (js "users"))))
              eq_refl) as (H & _).
  exact H.
Defined.

(** ** BasePage.ts: safeAction *)

Section SafeActionFacts.
Context {pf : Platform}.
Variable T : Type.
Variable sleep : N -> World -> World.
Variable action : M T.
Variable actionName : jsstring.
Variable retries : number.

(** What the loop can end with, however much fuel it was given. *)
Lemma attempts_sound (fuel : nat) (attempt : Z) (lastError : thrown)
    (s s' : State) (o : outcome T) :
  SafeAction.attempts sleep action actionName retries fuel attempt
    lastError s = Some (o, s') ->
  (o = Rejected ThrownNull ->
   lastError = ThrownNull /\ leqNumber attempt retries = false /\ s' = s)
  /\ (forall a, o = Returned a -> exists s1, action s1 = (Ok a, s')).
Proof.
  revert attempt lastError s.
  induction fuel as [|fuel IH]; intros attempt lastError s; [discriminate|].
  cbn [SafeAction.attempts].
  destruct (leqNumber attempt retries) eqn:L.
  - match goal with
    | |- context [action ?s1] => destruct (action s1) as [[a|e] s2] eqn:E
    end.
    + intros H. injection H as <- <-. split; [discriminate|].
      intros a' H. injection H as <-. eauto.
    + intros R. apply IH in R. destruct R as (Hn & Hr).
      split; [|exact Hr].
      intros ->. destruct (Hn eq_refl) as (C & _). discriminate C.
  - intros H. injection H as <- <-. split; [|discriminate].
    intros H. injection H as ->. auto.
Qed.

(** More fuel changes nothing. *)
Lemma attempts_fuel (fuel more : nat) (attempt : Z) (lastError : thrown)
    (s : State) r :
  SafeAction.attempts sleep action actionName retries fuel attempt lastError s = Some r ->
  SafeAction.attempts sleep action actionName retries (fuel + more) attempt lastError s = Some r.
Proof.
  revert attempt lastError s.
  induction fuel as [|fuel IH]; intros attempt lastError s; [discriminate|].
  cbn [SafeAction.attempts Nat.add].
  destruct (leqNumber attempt retries); [|auto].
  match goal with
  | |- context [action ?s1] => destruct (action s1) as [[a|e] s2]
  end; [auto|]. apply IH.
Qed.

(** Without a last attempt the condition of the loop holds for every
    value the counter takes. *)
Lemma leqNumber_unbounded (attempt : Z) :
  SafeAction.lastAttempt retries = None ->
  (attempt <= 9007199254740992)%Z ->
  leqNumber attempt retries = true.
Proof.
  unfold SafeAction.lastAttempt, leqNumber.
  destruct retries as [z|z text| | |]; try discriminate; try reflexivity;
    destruct (Z.ltb_spec z 9007199254740992) as [Hz|Hz]; try discriminate;
    intros _ Ha; apply Z.leb_le; lia.
Qed.

Lemma increment_range (attempt : Z) :
  (1 <= attempt <= 9007199254740992)%Z ->
  (1 <= increment attempt <= 9007199254740992)%Z.
Proof.
  unfold increment. destruct (Z.ltb_spec attempt 9007199254740992); lia.
Qed.

(** With no last attempt and an action that fails every time, the loop
    does not end. *)
Lemma attempts_never (fuel : nat) (attempt : Z) (lastError : thrown)
    (s : State) :
  SafeAction.lastAttempt retries = None ->
  (forall s0, isOk (fst (action s0)) = false) ->
  (1 <= attempt <= 9007199254740992)%Z ->
  SafeAction.attempts sleep action actionName retries fuel attempt
    lastError s = None.
Proof.
  intros U F. revert attempt lastError s.
  induction fuel as [|fuel IH]; intros attempt lastError s Ha; [reflexivity|].
  cbn [SafeAction.attempts].
  rewrite (leqNumber_unbounded U (proj2 Ha)).
  match goal with
  | |- context [action ?s1] =>
      pose proof (F s1) as F1; destruct (action s1) as [[a|e] s2]
  end; [discriminate F1|].
  apply IH. now apply increment_range.
Qed.

Variable limit : Z.
Hypothesis bounded : SafeAction.lastAttempt retries = Some limit.

Lemma limit_small : (limit < 9007199254740992)%Z.
Proof.
  revert bounded. unfold SafeAction.lastAttempt.
  destruct retries as [z|z text| | |]; try discriminate;
    try (intros H; injection H as <-; lia);
    destruct (Z.ltb_spec z 9007199254740992) as [Hz|Hz]; try discriminate;
    intros H; injection H as <-; assumption.
Qed.

Lemma leqNumber_limit (attempt : Z) :
  (1 <= attempt)%Z -> leqNumber attempt retries = (attempt <=? limit)%Z.
Proof.
  revert bounded. unfold SafeAction.lastAttempt, leqNumber.
  destruct retries as [z|z text| | |]; try discriminate;
    try (intros H Ha; injection H as <-; symmetry; apply Z.leb_gt; lia);
    destruct (Z.ltb_spec z 9007199254740992) as [Hz|Hz]; try discriminate;
    intros H; injection H as <-; reflexivity.
Qed.

Lemma ltNumber_limit (attempt : Z) :
  (1 <= attempt)%Z ->
  ltNumber attempt retries
  = if isFraction retries then (attempt <=? limit)%Z
    else (attempt <? limit)%Z.
Proof.
  revert bounded. unfold SafeAction.lastAttempt, ltNumber, isFraction.
  destruct retries as [z|z text| | |]; try discriminate;
    try (intros H Ha; injection H as <-; symmetry; apply Z.ltb_ge; lia);
    destruct (Z.ltb_spec z 9007199254740992) as [Hz|Hz]; try discriminate;
    intros H; injection H as <-; reflexivity.
Qed.

Lemma increment_next (attempt : Z) :
  (attempt <= limit)%Z -> increment attempt = (attempt + 1)%Z.
Proof.
  intros H. pose proof limit_small. unfold increment.
  destruct (Z.ltb_spec attempt 9007199254740992); lia.
Qed.

(** With fuel for the rounds that are left and the final test, the loop
    ends by itself. *)
Lemma attempts_ends (fuel : nat) (attempt : Z) (lastError : thrown)
    (s : State) :
  (1 <= attempt)%Z ->
  Z.to_nat (limit - attempt + 1) < fuel ->
  exists o s',
    SafeAction.attempts sleep action actionName retries fuel attempt
      lastError s = Some (o, s').
Proof.
  revert attempt lastError s.
  induction fuel as [|fuel IH]; intros attempt lastError s Ha Hf; [lia|].
  cbn [SafeAction.attempts].
  rewrite (leqNumber_limit Ha).
  destruct (Z.leb_spec attempt limit) as [L|L]; [|eauto].
  match goal with
  | |- context [action ?s1] => destruct (action s1) as [[a|e] s2] eqn:E
  end; [eauto|].
  rewrite (increment_next L). apply IH; lia.
Qed.

Hypothesis action_logs_nothing :
  emits (fun ev => isDebugLog ev = false /\ isWarnLog ev = false) action.
Hypothesis action_keeps_world : forall s, world (snd (action s)) = world s.

(** How often the body ran, by the lines it logged and the time it
    slept. *)
Lemma attempts_counts (fuel : nat) (attempt : Z) (lastError : thrown)
    (s s' : State) (o : outcome T) :
  (1 <= attempt)%Z ->
  SafeAction.attempts sleep action actionName retries fuel attempt
    lastError s = Some (o, s') ->
  exists d k,
    trace s' = trace s ++ d
    /\ countOf isDebugLog d = k
    /\ match o with
       | Returned _ =>
           1 <= k <= Z.to_nat (limit - attempt + 1)
           /\ countOf isWarnLog d = k - 1
           /\ world s' = Nat.iter (k - 1) (sleep 1000%N) (world s)
       | Rejected _ =>
           k = Z.to_nat (limit - attempt + 1)
           /\ countOf isWarnLog d = k
           /\ world s'
              = Nat.iter (if isFraction retries then k else k - 1)
                  (sleep 1000%N) (world s)
       end.
Proof.
  revert attempt lastError s s' o.
  induction fuel as [|fuel IH]; intros attempt lastError s s' o Ha;
    [discriminate|].
  cbn [SafeAction.attempts].
  rewrite (leqNumber_limit Ha), (ltNumber_limit Ha).
  destruct (Z.leb_spec attempt limit) as [L|L].
  - match goal with
    | |- context [action ?s1] =>
        pose proof (action_keeps_world s1) as W;
        destruct (action_logs_nothing s1) as (da & Ta & Fa);
        destruct (action s1) as [[a|e] s2] eqn:E
    end; cbn [snd fst log trace world mgr] in W, Ta;
      assert (Za : countOf isDebugLog da = 0 /\ countOf isWarnLog da = 0)
        by (split; apply countOf_none; (eapply Forall_impl; [|exact Fa]);
            now intros ev (H1 & H2));
      destruct Za as (Z1 & Z2).
    + intros H. injection H as <- <-.
      eexists _, 1. split; [rewrite Ta, <- app_assoc; reflexivity|].
      rewrite !countOf_app, Z1, Z2. cbn.
      repeat split; try lia. exact W.
    + rewrite (increment_next L).
      match goal with
      | |- context [if ?c then snd (delay _ _ _) else _] =>
          remember c as slept eqn:Sl
      end.
      intros R. apply IH in R; [|lia].
      destruct R as (d & k & Td & Kd & Hd).
      exists ((Log Debug (js "Executing: " ++ actionName ++ js " (attempt "
                          ++ numberText attempt ++ js "/"
                          ++ numberString retries ++ js ")") None :: da)
              ++ Log Warn (js "Action " ++ dquote ++ actionName ++ dquote
                           ++ js " failed (attempt " ++ numberText attempt
                           ++ js "): " ++ messageOf e) None :: d), (S k).
      split.
      { rewrite Td. destruct slept; cbn [snd delay trace log];
          rewrite Ta; cbn [app]; rewrite <- !app_assoc; reflexivity. }
      rewrite !countOf_app.
      change (countOf isDebugLog (Log Debug _ None :: da))
        with (S (countOf isDebugLog da)).
      change (countOf isWarnLog (Log Debug _ None :: da))
        with (countOf isWarnLog da).
      change (countOf isDebugLog (Log Warn ?m None :: d))
        with (countOf isDebugLog d).
      change (countOf isWarnLog (Log Warn ?m None :: d))
        with (S (countOf isWarnLog d)).
      rewrite Z1, Z2, Kd.
      split; [lia|].
      assert (Slept : forall w, Nat.iter k (sleep 1000%N) (sleep 1000%N w)
                                = Nat.iter (S k) (sleep 1000%N) w)
        by (intros w; now rewrite Nat.iter_succ_r).
      assert (Woke : forall j, slept = true ->
                world s' = Nat.iter j (sleep 1000%N)
                             (world (if slept
                                     then snd (delay sleep 1000%N
                                            (snd (log Warn
                                              (js "Action " ++ dquote
                                               ++ actionName ++ dquote
                                               ++ js " failed (attempt "
                                               ++ numberText attempt
                                               ++ js "): " ++ messageOf e)
                                              None s2)))
                                     else snd (log Warn
                                              (js "Action " ++ dquote
                                               ++ actionName ++ dquote
                                               ++ js " failed (attempt "
                                               ++ numberText attempt
                                               ++ js "): " ++ messageOf e)
                                              None s2))) ->
                world s' = Nat.iter (S j) (sleep 1000%N) (world s)).
      { intros j -> Wj. rewrite Wj. cbn [snd delay world log].
        rewrite W. now rewrite Nat.iter_succ_r. }
      destruct o as [a|t]; destruct Hd as (K1 & Kw & Wd);
        (split; [lia|]); (split; [lia|]).
      * replace (S k - 1) with (S (k - 1)) by lia.
        apply Woke; [|exact Wd].
        rewrite Sl. destruct (isFraction retries); [reflexivity|].
        apply Z.ltb_lt. lia.
      * destruct (isFraction retries).
        -- apply Woke; [exact Sl | exact Wd].
        -- destruct (Z.ltb_spec attempt limit) as [L2|L2].
           ++ replace (S k - 1) with (S (k - 1)) by lia.
              apply Woke; [exact Sl | exact Wd].
           ++ rewrite Wd, Sl. replace k with 0 by lia.
              cbn [Nat.iter Nat.sub nat_rect snd delay world log]. exact W.
  - intros H. injection H as <- <-. exists [], 0. rewrite app_nil_r.
    replace (Z.to_nat (limit - attempt + 1)) with 0 by lia.
    destruct (isFraction retries); cbn; repeat split.
Qed.

End SafeActionFacts.

(** X18. When [safeAction] comes to an end.  The body of its loop runs
    for the counter values 1, 2, ... that are at most [retries].  When
    [retries] is below [2^53], or is not a number, there is a last such
    value, and [safeAction] ends after at most that many runs: with fuel
    for one test more, and with any more fuel, the loop is not cut short.
    When [retries] is infinite, or at least [2^53], where the counter no
    longer moves, and the action fails every time, [safeAction] does not
    end.  Whenever it ends: if [retries] is below 1 or not a number the
    action has not been run, the state is as it was and the value thrown
    is [null], not an [Error]; if [retries] is at least 1 the value
    thrown is never [null]; and a value that is returned is the value
    returned by a run of the action, after which nothing more is done. *)
Theorem safeAction_ends (pf : Platform) (T : Type)
    (sleep : N -> World -> World) (action : M T) (actionName : jsstring)
    (retries : number) (s : State) :
  (forall n,
     SafeAction.rounds retries = Some n ->
     exists o s',
       forall more,
         SafeAction.safeAction sleep action actionName retries
           (S n + more) s = Some (o, s'))
  /\ (SafeAction.rounds retries = None ->
      (forall s0, isOk (fst (action s0)) = false) ->
      forall fuel,
        SafeAction.safeAction sleep action actionName retries fuel s
        = None)
  /\ (forall fuel o s',
        SafeAction.safeAction sleep action actionName retries fuel s
        = Some (o, s') ->
        (leqNumber 1 retries = false -> o = Rejected ThrownNull /\ s' = s)
        /\ (leqNumber 1 retries = true -> o <> Rejected ThrownNull)
        /\ (forall a, o = Returned a ->
              exists s1, action s1 = (Ok a, s'))).
Proof.
  unfold SafeAction.safeAction, SafeAction.rounds.
  split; [|split].
  - intros n Hn.
    destruct (SafeAction.lastAttempt retries) as [limit|] eqn:B;
      [|discriminate].
    injection Hn as <-.
    destruct (@attempts_ends pf T sleep action actionName retries limit B
                (S (Z.to_nat limit)) 1%Z ThrownNull s)
      as (o & s' & R); [lia|lia|].
    exists o, s'. intros more. now apply attempts_fuel.
  - intros Hn F fuel.
    destruct (SafeAction.lastAttempt retries) as [limit|] eqn:B;
      [discriminate|].
    apply attempts_never; [exact B | exact F | lia].
  - intros fuel o s' R.
    destruct (attempts_sound _ _ _ _ _ _ _ _ R) as (Hn & Hr).
    split; [|split; [|exact Hr]].
    + intros L. destruct fuel as [|fuel]; [discriminate|].
      revert R. cbn [SafeAction.attempts]. rewrite L.
      intros H. injection H as <- <-. auto.
    + intros L ->. destruct (Hn eq_refl) as (_ & C & _). congruence.
Qed.

Lemma safeAction_ends_witness :
  (exists o s',
     forall more,
       SafeAction.safeAction (pf := Sim.quiet) clockSleep failing
         (js "open menu") (Fraction 1 (js "1.5")) (S 1 + more)
         (Sim.start Sim.quiet 0%N) = Some (o, s'))
  /\ (forall fuel,
        SafeAction.safeAction (pf := Sim.quiet) clockSleep failing
          (js "open menu") PlusInfinity fuel (Sim.start Sim.quiet 0%N)
        = None).
Proof.
  split.
  - destruct (@safeAction_ends Sim.quiet N clockSleep failing
                (js "open menu") (Fraction 1 (js "1.5"))
                (Sim.start Sim.quiet 0%N)) as (A & _).
    apply (A 1). reflexivity.
  - destruct (@safeAction_ends Sim.quiet N clockSleep failing
                (js "open menu") PlusInfinity
                (Sim.start Sim.quiet 0%N)) as (_ & B & _).
    apply B; [reflexivity|]. intros s0. reflexivity.
Defined.

(** X19. How often [safeAction] tries, for a [retries] that allows a last
    attempt (below [2^53], or not a number).  The loop writes one debug
    line before each run of the action and one warning after each failed
    run.  For an action that writes no debug or warning line of its own
    and leaves the world as it is: when a value is returned there are [k]
    debug lines with [k] at least 1 and at most the number of rounds that
    [retries] allows, [k - 1] warnings, and the world has slept one
    second [k - 1] times; when something is thrown there are as many debug
    lines and as many warnings as [retries] allows rounds (none for a
    [retries] below 1 or not a number), and the world has slept one
    second after every failed run but the last when [retries] is a whole
    number, and after the last one too when it is not whole (with
    [retries = 1.5] the only run is followed by a sleep). *)
Theorem safeAction_counts_attempts (pf : Platform) (T : Type)
    (sleep : N -> World -> World) (action : M T) (actionName : jsstring)
    (retries : number) (n more : nat) (s : State) :
  SafeAction.rounds retries = Some n ->
  emits (fun ev => isDebugLog ev = false /\ isWarnLog ev = false) action ->
  (forall s0, world (snd (action s0)) = world s0) ->
  exists o s' d k,
    SafeAction.safeAction sleep action actionName retries (S n + more) s
    = Some (o, s')
    /\ trace s' = trace s ++ d
    /\ countOf isDebugLog d = k
    /\ match o with
       | Returned _ =>
           1 <= k <= n
           /\ countOf isWarnLog d = k - 1
           /\ world s' = Nat.iter (k - 1) (sleep 1000%N) (world s)
       | Rejected _ =>
           k = n
           /\ countOf isWarnLog d = k
           /\ world s'
              = Nat.iter (if isFraction retries then k else k - 1)
                  (sleep 1000%N) (world s)
       end.
Proof.
  unfold SafeAction.safeAction, SafeAction.rounds. intros Hn H1 H2.
  destruct (SafeAction.lastAttempt retries) as [limit|] eqn:B;
    [|discriminate].
  injection Hn as <-.
  destruct (@attempts_ends pf T sleep action actionName retries limit B
              (S (Z.to_nat limit)) 1%Z ThrownNull s)
    as (o & s' & R); [lia|lia|].
  destruct (@attempts_counts pf T sleep action actionName retries limit B
              H1 H2 _ _ _ _ _ _ (Z.le_refl 1) R) as (d & k & Td & Kd & Hd).
  exists o, s', d, k.
  split; [now apply attempts_fuel|].
  split; [exact Td|]. split; [exact Kd|].
  replace (Z.to_nat (limit - 1 + 1)) with (Z.to_nat limit) in Hd
    by (f_equal; lia).
  exact Hd.
Qed.

Lemma safeAction_counts_attempts_witness :
  exists o s' d k,
    SafeAction.safeAction (pf := Sim.quiet) clockSleep failing
      (js "open menu") (Fraction 1 (js "1.5")) (S 1 + 0)
      (Sim.start Sim.quiet 0%N) = Some (o, s')
    /\ trace s' = trace (Sim.start Sim.quiet 0%N) ++ d
    /\ countOf isDebugLog d = k
    /\ match o with
       | Returned _ =>
           1 <= k <= 1
           /\ countOf isWarnLog d = k - 1
           /\ world s'
              = Nat.iter (k - 1) (clockSleep 1000%N)
                  (world (Sim.start Sim.quiet 0%N))
       | Rejected _ =>
           k = 1
           /\ countOf isWarnLog d = k
           /\ world s'
              = Nat.iter
                  (if isFraction (Fraction 1 (js "1.5")) then k else k - 1)
                  (clockSleep 1000%N) (world (Sim.start Sim.quiet 0%N))
       end.
Proof.
  apply (@safeAction_counts_attempts Sim.quiet N clockSleep failing
           (js "open menu") (Fraction 1 (js "1.5")) 1 0
           (Sim.start Sim.quiet 0%N)).
  - reflexivity.
  - apply emits_throw.
  - intros s0. reflexivity.
Defined.

(** ** waitUtils.ts: waitForCondition *)

Section Polling.
Context {pf : Platform}.
Variable sleep : N -> World -> World.
Variable condition : M bool.
Variable timeout : option number.
Variable interval : N.

Lemma polls_sound (fuel : nat) (startTime : N) (s s' : State)
    (r : result unit) :
  WaitUtils.polls sleep condition timeout interval fuel startTime s
  = Some (r, s') ->
  match r with
  | Ok _ => exists s0, condition s0 = (Ok true, s')
  | Throw e =>
      e = WaitUtils.timedOut timeout
      /\ ltNumber (WaitUtils.elapsed startTime s')
                  (WaitUtils.waitTimeout timeout) = false
  end.
Proof.
  revert s. induction fuel as [|fuel IH]; intros s; [discriminate|].
  cbn [WaitUtils.polls].
  destruct (ltNumber (WaitUtils.elapsed startTime s) _) eqn:L.
  - destruct (condition s) as [[[|]|e] s1] eqn:E.
    + intros H. injection H as <- <-. eauto.
    + apply IH.
    + apply IH.
  - intros H. injection H as <- <-. auto.
Qed.

(** With an infinite timeout and a condition that is never met, the loop
    does not end. *)
Lemma polls_never (fuel : nat) (startTime : N) (s : State) :
  WaitUtils.waitTimeout timeout = PlusInfinity ->
  (forall s0, fst (condition s0) <> Ok true) ->
  WaitUtils.polls sleep condition timeout interval fuel startTime s = None.
Proof.
  intros U F. revert s.
  induction fuel as [|fuel IH]; intros s; [reflexivity|].
  cbn [WaitUtils.polls]. rewrite U. cbn [ltNumber].
  pose proof (F s) as F1.
  destruct (condition s) as [[[|]|e] s1]; cbn [fst] in F1;
    [congruence | apply IH | apply IH].
Qed.

Hypothesis clock_moves :
  forall w, (dateNow w + 1 <= dateNow (sleep interval w))%N.
Hypothesis condition_keeps_time :
  forall s, (dateNow (world s) <= dateNow (world (snd (condition s))))%N.

Lemma polls_ends (fuel : nat) (startTime : N) (s : State) :
  WaitUtils.waitTimeout timeout <> PlusInfinity ->
  WaitUtils.testsFrom timeout startTime s < fuel ->
  exists r s',
    WaitUtils.polls sleep condition timeout interval fuel startTime s
    = Some (r, s').
Proof.
  intros Fin. revert s. induction fuel as [|fuel IH]; intros s Hf; [lia|].
  cbn [WaitUtils.polls].
  destruct (ltNumber (WaitUtils.elapsed startTime s) _) eqn:L; [|eauto].
  pose proof (condition_keeps_time s) as C.
  assert (N : forall s1, s1 = snd (condition s) ->
            exists r s',
              WaitUtils.polls sleep condition timeout interval fuel startTime
                (snd (delay sleep interval s1)) = Some (r, s')).
  { intros s1 ->. apply IH.
    pose proof (clock_moves (world (snd (condition s)))) as M.
    revert Hf L. unfold WaitUtils.testsFrom, WaitUtils.elapsed, ltNumber.
    destruct (WaitUtils.waitTimeout timeout) as [z|z text| | |];
      try discriminate; try contradiction;
      cbn [snd delay world]; intros Hf L;
      [apply Z.ltb_lt in L | apply Z.leb_le in L]; lia. }
  destruct (condition s) as [[[|]|e] s1] eqn:E; cbn [snd] in N;
    [eauto | now apply N | now apply N].
Qed.

End Polling.

(** X20. What [waitForCondition] can end with.  It returns only straight
    after a call of the condition that returned [true].  The only error
    it throws is [Condition not met within <timeout>ms], thrown when the
    time gone by since the start is no longer below the timeout; an
    exception of the condition never reaches the caller.  The timeout is
    the argument, or [DEFAULT_TIMEOUT] when the argument is missing, zero
    or not a number.  When that timeout is not a number or not above zero,
    the error is thrown at once: the condition is not called and the
    state is left as it was. *)
Theorem waitForCondition_sound (pf : Platform)
    (sleep : N -> World -> World) (condition : M bool)
    (timeout : option number) (interval : N) (fuel : nat)
    (s s' : State) (r : result unit) :
  WaitUtils.waitForCondition sleep condition timeout interval fuel s
  = Some (r, s') ->
  match r with
  | Ok _ => exists s0, condition s0 = (Ok true, s')
  | Throw e =>
      e = JsError (js "Condition not met within "
                   ++ numberString (orNumber timeout
                                     (Env.DEFAULT_TIMEOUT Env.ENV))
                   ++ js "ms")
      /\ ltNumber (WaitUtils.elapsed (dateNow (world s)) s')
                  (orNumber timeout (Env.DEFAULT_TIMEOUT Env.ENV)) = false
  end
  /\ (ltNumber 0 (orNumber timeout (Env.DEFAULT_TIMEOUT Env.ENV)) = false ->
      s' = s /\ isOk r = false).
Proof.
  unfold WaitUtils.waitForCondition. intros H. split.
  - exact (polls_sound _ _ _ _ _ _ _ H).
  - intros L. destruct fuel as [|fuel]; [discriminate|].
    revert H. cbn [WaitUtils.polls].
    replace (WaitUtils.elapsed (dateNow (world s)) s) with 0%Z
      by (unfold WaitUtils.elapsed; lia).
    unfold WaitUtils.waitTimeout. rewrite L.
    intros H. injection H as <- <-. auto.
Qed.

Lemma waitForCondition_sound_witness :
  match Throw (WaitUtils.timedOut (pf := Sim.quiet) (Some (Num 1200)))
        : result unit with
  | Ok _ => exists s0, never_met s0 = (Ok true, Sim.start Sim.quiet 1500%N)
  | Throw e =>
      e = JsError (js "Condition not met within "
                   ++ numberString
                        (orNumber (Some (Num 1200))
                           (Env.DEFAULT_TIMEOUT (@Env.ENV Sim.quiet)))
                   ++ js "ms")
      /\ ltNumber
           (WaitUtils.elapsed
              (@dateNow Sim.quiet (world (Sim.start Sim.quiet 0%N)))
              (Sim.start Sim.quiet 1500%N))
           (orNumber (Some (Num 1200))
              (Env.DEFAULT_TIMEOUT (@Env.ENV Sim.quiet))) = false
  end
  /\ (ltNumber 0 (orNumber (Some (Num 1200))
                    (Env.DEFAULT_TIMEOUT (@Env.ENV Sim.quiet))) = false ->
      Sim.start Sim.quiet 1500%N = Sim.start Sim.quiet 0%N
      /\ isOk (Throw (WaitUtils.timedOut (pf := Sim.quiet) (Some (Num 1200)))
               : result unit) = false).
Proof.
  apply (@waitForCondition_sound Sim.quiet clockSleep never_met
           (Some (Num 1200)) 500%N 5 (Sim.start Sim.quiet 0%N)
           (Sim.start Sim.quiet 1500%N)
           (Throw (WaitUtils.timedOut (pf := Sim.quiet) (Some (Num 1200))))).
  reflexivity.
Defined.

(** X21. When [waitForCondition] comes to an end.  With a timeout that
    is not infinite, when the clock gains at least a millisecond during
    every sleep between two polls and does not go back while the condition
    runs, the loop ends after at most as many polls as there are whole
    milliseconds below the timeout: with fuel for one test more than
    that, and with any more fuel, it is not cut short.  With an infinite
    timeout, given as the argument or read from [DEFAULT_TIMEOUT], and a
    condition that is never met, [waitForCondition] does not end. *)
Theorem waitForCondition_ends (pf : Platform)
    (sleep : N -> World -> World) (condition : M bool)
    (timeout : option number) (interval : N) (s : State) :
  (forall n more,
     WaitUtils.ticks timeout = Some n ->
     (forall w, (dateNow w + 1 <= dateNow (sleep interval w))%N) ->
     (forall s0,
        (dateNow (world s0) <= dateNow (world (snd (condition s0))))%N) ->
     exists r s',
       WaitUtils.waitForCondition sleep condition timeout interval
         (S n + more) s
       = Some (r, s'))
  /\ (orNumber timeout (Env.DEFAULT_TIMEOUT Env.ENV) = PlusInfinity ->
      (forall s0, fst (condition s0) <> Ok true) ->
      forall fuel,
        WaitUtils.waitForCondition sleep condition timeout interval fuel s
        = None).
Proof.
  unfold WaitUtils.waitForCondition. split.
  - intros n more Hn H1 H2.
    apply polls_ends; [exact H1 | exact H2 | |].
    + revert Hn. unfold WaitUtils.ticks.
      now destruct (WaitUtils.waitTimeout timeout).
    + revert Hn.
      unfold WaitUtils.ticks, WaitUtils.testsFrom, WaitUtils.elapsed.
      destruct (WaitUtils.waitTimeout timeout); try discriminate;
        intros H; injection H as <-; lia.
  - intros U F fuel. now apply polls_never.
Qed.

Lemma waitForCondition_ends_witness :
  (exists r s',
     WaitUtils.waitForCondition (pf := Sim.quiet) clockSleep never_met
       (Some (Num 1200)) 500%N (S 1200 + 0) (Sim.start Sim.quiet 0%N)
     = Some (r, s'))
  /\ (forall fuel,
        WaitUtils.waitForCondition (pf := Sim.quiet) clockSleep never_met
          (Some PlusInfinity) 500%N fuel (Sim.start Sim.quiet 0%N)
        = None).
Proof.
  split.
  - destruct (@waitForCondition_ends Sim.quiet clockSleep never_met
                (Some (Num 1200)) 500%N (Sim.start Sim.quiet 0%N))
      as (A & _).
    apply (A 1200 0).
    + reflexivity.
    + intros w. unfold clockSleep. cbn [dateNow Sim.quiet Sim.host]. lia.
    + intros s0. unfold never_met, ret. cbn [snd]. lia.
  - destruct (@waitForCondition_ends Sim.quiet clockSleep never_met
                (Some PlusInfinity) 500%N (Sim.start Sim.quiet 0%N))
      as (_ & B).
    apply B; [reflexivity|]. intros s0. discriminate.
Defined.

(** ** AboutPage.ts and TradingPage.ts: what the page shows *)

Section PageTexts.
Context {pf : Platform}.
Variable page : Page.

Lemma getAllTexts_run (l : Locator) (s : State) :
  BasePage.getAllTexts page l s
  = match perform (AllTextContents page l) (world s) with
    | (Ok texts, w) =>
        (Ok (shownTexts texts),
         {| mgr := mgr s; world := w;
            trace := trace s ++ [Call (AllTextContents page l) (Ok texts)] |})
    | (Throw e, w) =>
        (Throw e,
         {| mgr := mgr s; world := w;
            trace := trace s ++ [Call (AllTextContents page l) (Throw e)] |})
    end.
Proof.
  unfold BasePage.getAllTexts. run.
  now destruct (perform (AllTextContents page l) (world s)) as [[texts|e] w].
Qed.

Lemma existsb_lower (headers : list jsstring) (expected : jsstring) :
  existsb (fun h => includes h (toLowerCase expected))
          (map toLowerCase headers)
  = existsb (fun h => includes (toLowerCase h) (toLowerCase expected))
            headers.
Proof.
  induction headers as [|h headers IH]; cbn; [reflexivity|]. now rewrite IH.
Qed.

(** The loop returns and writes one warning for each missing header. *)
Lemma checkHeaders_warns (headers expectedHeaders : list jsstring)
    (s : State) :
  exists d,
    AboutPage.checkHeaders headers (map toLowerCase headers)
      expectedHeaders s
    = (Ok tt, {| mgr := mgr s; world := world s; trace := trace s ++ d |})
    /\ List.length d = List.length (missingHeaders headers expectedHeaders)
    /\ Forall (fun ev => isWarnLog ev = true) d.
Proof.
  revert s. induction expectedHeaders as [|expected rest IH]; intros s.
  - exists []. cbn. rewrite app_nil_r. now destruct s.
  - cbn [AboutPage.checkHeaders missingHeaders filter].
    rewrite existsb_lower. fold (missingHeaders headers rest).
    destruct (existsb _ headers); cbn [negb]; unfold bind at 1.
    + cbn [ret]. apply IH.
    + cbn [log].
      match goal with
      | |- context [AboutPage.checkHeaders _ _ rest ?s1] =>
          destruct (IH s1) as (d & E & L & F); rewrite E
      end.
      cbn [mgr world trace]. eexists (_ :: d).
      split; [now rewrite <- app_assoc|].
      split; [cbn; now rewrite L | constructor; [reflexivity | exact F]].
Qed.

End PageTexts.

(** X22. The two header assertions cannot fail on a header.
    [AboutPage.assertExpectedHeaders] and
    [TradingPage.assertTableHeadersContain] throw only when reading the
    texts of the page throws.  Once the texts are read they return
    whatever headers were expected, and write one warning for each
    expected header that no shown header contains, letter case aside.
    For the section headers these are the headers for which
    [hasSectionHeader], asked in the same state, answers [false]. *)
Theorem header_assertions_only_warn (pf : Platform) (page : Page)
    (expectedHeaders : list jsstring) (s : State) :
  match fst (perform (AllTextContents page AboutPage.sectionHeaders)
               (world s)) with
  | Ok texts =>
      fst (AboutPage.assertExpectedHeaders page expectedHeaders s) = Ok tt
      /\ (exists d,
            trace (snd (AboutPage.assertExpectedHeaders page
                          expectedHeaders s))
            = trace s
              ++ Call (AllTextContents page AboutPage.sectionHeaders)
                      (Ok texts) :: d
            /\ List.length d
               = List.length (missingHeaders (shownTexts texts)
                                expectedHeaders)
            /\ Forall (fun ev => isWarnLog ev = true) d)
      /\ (forall expected,
            In expected (missingHeaders (shownTexts texts) expectedHeaders)
            <-> In expected expectedHeaders
                /\ fst (AboutPage.hasSectionHeader page expected s)
                   = Ok false)
  | Throw e =>
      fst (AboutPage.assertExpectedHeaders page expectedHeaders s) = Throw e
  end
  /\ match fst (perform (AllTextContents page TradingPage.tableHeaders)
                  (world s)) with
     | Ok texts =>
         fst (TradingPage.assertTableHeadersContain page expectedHeaders s)
         = Ok tt
         /\ exists d,
              trace (snd (TradingPage.assertTableHeadersContain page
                            expectedHeaders s))
              = trace s
                ++ Call (AllTextContents page TradingPage.tableHeaders)
                        (Ok texts) :: d
              /\ List.length d
                 = List.length (missingHeaders (shownTexts texts)
                                  expectedHeaders)
              /\ Forall (fun ev => isWarnLog ev = true) d
     | Throw e =>
         fst (TradingPage.assertTableHeadersContain page expectedHeaders s)
         = Throw e
     end.
Proof.
  split.
  - unfold AboutPage.assertExpectedHeaders, AboutPage.hasSectionHeader,
      AboutPage.getSectionHeaders, bind.
    rewrite getAllTexts_run.
    destruct (perform _ (world s)) as [[texts|e] w]; cbn [fst];
      [|reflexivity].
    match goal with
    | |- context [AboutPage.checkHeaders ?h _ _ ?s1] =>
        destruct (checkHeaders_warns h expectedHeaders s1) as (d & E & L & F)
    end.
    rewrite E. cbn [fst snd trace].
    split; [reflexivity|]. split.
    + exists d. rewrite <- app_assoc. auto.
    + intros expected. unfold missingHeaders. rewrite filter_In.
      cbn [ret fst].
      split; intros (I & H); (split; [exact I|]).
      * apply negb_true_iff in H. now rewrite H.
      * injection H as H. now rewrite H.
  - unfold TradingPage.assertTableHeadersContain,
      TradingPage.getTableHeaders, bind.
    rewrite getAllTexts_run.
    destruct (perform _ (world s)) as [[texts|e] w]; cbn [fst];
      [|reflexivity].
    match goal with
    | |- context [AboutPage.checkHeaders ?h _ _ ?s1] =>
        destruct (checkHeaders_warns h expectedHeaders s1) as (d & E & L & F)
    end.
    rewrite E. cbn [fst snd trace].
    split; [reflexivity|].
    exists d. rewrite <- app_assoc. auto.
Qed.

(** X23. [assertParagraphContentExists] looks at the text and not at the
    elements: once the paragraph texts are read it returns exactly when
    some paragraph has a character that is not white space, and otherwise
    throws [No paragraph content found], also when the page has paragraph
    elements.  The number it logs is the number of paragraphs that are
    not blank.  When reading throws, that error is thrown. *)
Theorem assertParagraphContentExists_needs_text (pf : Platform)
    (page : Page) (s : State) :
  match fst (perform (AllTextContents page AboutPage.paragraphs)
               (world s)) with
  | Ok texts =>
      (fst (AboutPage.assertParagraphContentExists page s) = Ok tt
       <-> exists t, In t texts /\ trim t <> [])
      /\ (fst (AboutPage.assertParagraphContentExists page s) <> Ok tt ->
          fst (AboutPage.assertParagraphContentExists page s)
          = Throw (JsError (js "No paragraph content found")))
      /\ (fst (AboutPage.assertParagraphContentExists page s) = Ok tt ->
          exists w,
            snd (AboutPage.assertParagraphContentExists page s)
            = {| mgr := mgr s; world := w;
                 trace := trace s
                          ++ [Call (AllTextContents page AboutPage.paragraphs)
                                   (Ok texts);
                              Log Info
                                (js "Found "
                                 ++ digitsOf
                                      (N.of_nat
                                         (List.length (shownTexts texts)))
                                 ++ js " paragraphs") None] |})
  | Throw e => fst (AboutPage.assertParagraphContentExists page s) = Throw e
  end.
Proof.
  unfold AboutPage.assertParagraphContentExists, AboutPage.getParagraphTexts,
    bind.
  rewrite getAllTexts_run.
  destruct (perform _ (world s)) as [[texts|e] w]; cbn [fst]; [|reflexivity].
  assert (K : shownTexts texts <> [] <-> exists t, In t texts /\ trim t <> []).
  { unfold shownTexts. split.
    - intros H.
      destruct (filter (fun t => (0 <? List.length t)%nat) (map trim texts))
        as [|x l] eqn:E; [now elim H|].
      assert (I : In x (filter (fun t => (0 <? List.length t)%nat)
                               (map trim texts)))
        by (rewrite E; now left).
      apply filter_In in I. destruct I as (I & P).
      apply in_map_iff in I. destruct I as (t & <- & I).
      exists t. split; [exact I|]. intros Z. rewrite Z in P. discriminate P.
    - intros (t & I & Z) E.
      assert (J : In (trim t) (filter (fun t => (0 <? List.length t)%nat)
                                      (map trim texts))).
      { apply filter_In. split; [now apply in_map|].
        destruct (trim t); [now elim Z | reflexivity]. }
      rewrite E in J. exact J. }
  destruct (shownTexts texts) as [|x l] eqn:E; cbn [List.length Nat.eqb].
  - cbn. split; [|split].
    + split; [discriminate|]. intros H. apply K in H. now elim H.
    + reflexivity.
    + discriminate.
  - cbn [log fst snd]. split; [|split].
    + split; [intros _; apply K; discriminate | reflexivity].
    + intros H. now elim H.
    + intros _. unfold log. cbn [snd mgr world trace].
      eexists. rewrite <- app_assoc. reflexivity.
Qed.
